(** * Nexus SEO Dash: the crawl job engine, the audit assembler and the
      scoring engine, embedded in Rocq.

    Sources embedded here:
    - [src/services/crawlerService.ts]: [crawlWebsite], [analyzeMetaDescription],
      [extractDomain], [processRealData], [generateMockAudit];
    - [src/unnamed/part_001] (the Phase 3 job server): [JobStatus], [jobStore],
      [processJob] with its extraction script, the [/api/jobs] handlers and
      the cleanup routine;
    - [src/unnamed/part_000] (the Phase 1 server): the [/api/crawl] handler;
    - [src/services/geminiService.ts]: [generateAuditInsights];
    - [src/data.ts] and [src/components/UIComponents.tsx]: the score
      colours; [src/unnamed/part_006]: [handleStartAudit].

    Conventions.
    - A JavaScript [number] that only ever holds an integer is a [Z]; one
      that may hold a fraction is the rational it is, a [Q].  Where
      [processRealData] and the extractor divide, subtract or multiply,
      the result is the exact one rounded to the nearest double
      ([Double]); the figures of the simulated audit are the decimals the
      code writes and prints (1.2, 2.2, 3.2 and the scores 88, 78, 68).
    - A string is a [string] of 8-bit code units: the text of the model is
      the text whose UTF-16 code units all lie below 256 (ASCII and
      Latin-1), on which [toLowerCase], [trim] and the class [\s] work
      unit by unit, as they are defined here.  Text with other code units
      is outside the model; there [toLowerCase] can even change the length
      of a text (U+0130 becomes two units).
    - Platform values the code reads ([Date.now()], [crypto.randomUUID()],
      [new URL(..)], the answers of [fetch], the outcome of a Puppeteer
      session) are explicit inputs of the definitions.
    - The server is single-threaded: a handler or the continuation of an
      [await] runs to completion, and is one turn of the model.  What is
      thrown or rejected is an [Error] and is known by its message;
      [console.log] and the like do nothing that is modelled.  A rejection
      that nothing handles ends the Node process: [JobEngine.survives]
      tells the runs in which the server is still up. *)

From Stdlib Require Import ZArith QArith Qround Qpower String Ascii List Bool Lia.
From Stdlib Require Import DecimalString.
From Stdlib Require Import Lqa.
From Stdlib Require Import SpecFloat.
From stdpp Require Import base option list gmap strings.
Import ListNotations.

Local Open Scope string_scope.
Local Open Scope Z_scope.
Local Open Scope list_scope.

(* ===================================================================== *)
(** ** The JavaScript string and number primitives the code calls *)
(* ===================================================================== *)

Module JS.

(** [String.prototype.toLowerCase] on one code unit below 256: the ASCII
    capitals and the Latin-1 capitals (U+00C0..U+00DE without U+00D7) move
    up by 32, every other unit stays.  On text of such units the
    conversion is unit by unit and keeps the length. *)
Definition lower_unit (c : ascii) : ascii :=
  let n := N_of_ascii c in
  if ((65 <=? n) && (n <=? 90))%N then ascii_of_N (n + 32)
  else if ((192 <=? n) && (n <=? 222) && negb (n =? 215))%N
       then ascii_of_N (n + 32)
       else c.

Fixpoint toLowerCase (s : string) : string :=
  match s with
  | EmptyString => EmptyString
  | String c s' => String (lower_unit c) (toLowerCase s')
  end.

(** Every code unit below 256. *)
Definition units : list ascii := map ascii_of_nat (seq 0 256).

(** [s.startsWith(p)]. *)
Fixpoint startsWith (s p : string) : bool :=
  match p, s with
  | EmptyString, _ => true
  | String _ _, EmptyString => false
  | String b p', String a s' => if Ascii.eqb a b then startsWith s' p' else false
  end.

(** [s.includes(sub)]: [sub] starts at some position of [s]. *)
Fixpoint includes (s sub : string) : bool :=
  startsWith s sub ||
  match s with
  | EmptyString => false
  | String _ s' => includes s' sub
  end.

(** [s.split('.')[0]]: the text before the first dot, all of [s] when it
    has none. *)
Fixpoint split_dot_0 (s : string) : string :=
  match s with
  | EmptyString => EmptyString
  | String c s' => if Ascii.eqb c "."%char then EmptyString
                   else String c (split_dot_0 s')
  end.

(** The double quote, code unit 34. *)
Definition dquote : ascii := ascii_of_N 34.

(** The decimal text a template literal prints for a length. *)
Definition show_nat (n : nat) : string :=
  NilEmpty.string_of_uint (Nat.to_uint n).

(** [Math.round]: the integer nearest to the number it is given, ties
    upward. *)
Definition Math_round (q : Q) : Z := Qfloor (q + (1 # 2)).

(** [parseFloat(q.toFixed(2))]: the multiple of 1/100 nearest to the
    number, ties away from zero; the number read back is the one that
    prints as this decimal. *)
Definition toFixed2 (q : Q) : Q :=
  if Qle_bool 0 q then Qmake (Qfloor (q * 100 + (1 # 2))) 100
  else Qopp (Qmake (Qfloor (Qopp q * 100 + (1 # 2))) 100).

(** [a > b] on numbers. *)
Definition gt (a b : Q) : bool := negb (Qle_bool a b).

(** [Math.max] on two numbers. *)
Definition Math_max (a b : Q) : Q := if Qle_bool a b then b else a.

(** [Array.prototype.push] of one element. *)
Definition push {A} (l : list A) (x : A) : list A := app l (cons x nil).

(** [Array.prototype.some]. *)
Definition some {A} (p : A -> bool) (l : list A) : bool := existsb p l.

End JS.

(* ===================================================================== *)
(** ** The arithmetic of JavaScript numbers (IEEE 754 binary64) *)
(* ===================================================================== *)

Module Double.

(** A number is known by the rational it is.  An operation of the code
    gives the exact result rounded to the nearest double, a tie going to
    the even significand: 53 bits of significand, the last place never
    below 2^-1074.  No number here comes near the overflow threshold
    2^1024, which is left out. *)

Definition pow2 (e : Z) : Q := Qpower 2 e.

(** The nearest integer, a tie going to the even one. *)
Definition rne (q : Q) : Z :=
  let f := Qfloor q in
  match (q - inject_Z f ?= 1 # 2)%Q with
  | Lt => f
  | Gt => f + 1
  | Eq => if Z.even f then f else f + 1
  end.

(** The integer part of the binary logarithm of a positive number. *)
Definition ilog2 (q : Q) : Z :=
  let d := Z.log2 (Qnum q) - Z.log2 (Zpos (Qden q)) in
  if Qle_bool (pow2 d) q then d else d - 1.

(** The exponent of the unit in the last place of a positive number. *)
Definition ulp_exponent (q : Q) : Z := Z.max (ilog2 q - 52) (-1074).

Definition round_pos (q : Q) : Q :=
  let e := ulp_exponent q in
  (inject_Z (rne (q / pow2 e)) * pow2 e)%Q.

(** The double nearest to [q]. *)
Definition round (q : Q) : Q :=
  match Qnum q with
  | Z0 => 0%Q
  | Zpos _ => round_pos q
  | Zneg _ => (- round_pos (- q))%Q
  end.

(** [a / b], [a - b] and [a * b] on doubles. *)
Definition div (a b : Q) : Q := round (a / b).
Definition sub (a b : Q) : Q := round (a - b).
Definition mul (a b : Q) : Q := round (a * b).

(** The same three operations in the Standard Library's reference
    implementation of binary64, for comparison. *)
Definition of_Z (z : Z) : spec_float := binary_normalize 53 1024 z 0 false.

Definition to_Q (x : spec_float) : Q :=
  match x with
  | S754_finite s m e =>
    (inject_Z (if s then Zneg m else Zpos m) * pow2 e)%Q
  | _ => 0%Q
  end.

End Double.

(** [JobStatus] of the job server, the same four strings the client's
    [JobResponse] type lists. *)
Inductive JobStatus := PENDING | PROCESSING | COMPLETED | FAILED.

(* ===================================================================== *)
(** ** The scoring engine ([src/services/crawlerService.ts]) *)
(* ===================================================================== *)

Module Scoring.

(** [MetaTag] of the types file; [hasKeyword] and [hasCTA] are optional
    there. *)
Record MetaTag := {
  mt_content : string;
  mt_length : Z;
  mt_hasKeyword : option bool;
  mt_hasCTA : option bool;
  mt_score : Z;
  mt_recommendations : list string
}.

Definition ctaWords : list string :=
  ["call"; "shop"; "buy"; "learn"; "discover"; "get"; "sign"; "contact";
   "try"; "join"; "click"; "read"].

Definition rec_missing : string := "Meta description is missing.".
Definition rec_short (n : nat) : string :=
  "Description is too short (" +:+ JS.show_nat n
    +:+ " chars). Aim for 150-160 characters.".
Definition rec_long (n : nat) : string :=
  "Description is too long (" +:+ JS.show_nat n
    +:+ " chars). Truncation may occur in SERPs.".
Definition rec_keyword (kw : string) : string :=
  "Primary keyword " +:+ String JS.dquote (kw +:+ String JS.dquote
    " is missing from the description.").
Definition rec_cta : string :=
  "No Call-to-Action detected (e.g., 'Learn more', 'Sign up', 'Discover').".

(** [analyzeMetaDescription], statement by statement: [score] and
    [recommendations] are the two mutable locals, threaded through the
    three checks. *)
Definition analyzeMetaDescription (content domainKeyword : string) : MetaTag :=
  let score := 100 in
  let recommendations : list string := [] in
  let lowerContent := JS.toLowerCase content in
  let len := String.length content in
  if (len =? 0)%nat then
    {| mt_content := content; mt_length := 0; mt_score := 0;
       mt_recommendations := JS.push recommendations rec_missing;
       mt_hasKeyword := Some false; mt_hasCTA := Some false |}
  else
    let '(score, recommendations) :=
      if (len <? 120)%nat
      then (score - 20, JS.push recommendations (rec_short len))
      else if (165 <? len)%nat
      then (score - 10, JS.push recommendations (rec_long len))
      else (score, recommendations) in
    let hasKeyword := JS.includes lowerContent (JS.toLowerCase domainKeyword) in
    let '(score, recommendations) :=
      if negb hasKeyword && (0 <? String.length domainKeyword)%nat
      then (score - 30, JS.push recommendations (rec_keyword domainKeyword))
      else (score, recommendations) in
    let hasCTA := JS.some (fun word => JS.includes lowerContent word) ctaWords in
    let '(score, recommendations) :=
      if negb hasCTA then (score - 30, JS.push recommendations rec_cta)
      else (score, recommendations) in
    {| mt_content := content; mt_length := Z.of_nat len;
       mt_hasKeyword := Some hasKeyword; mt_hasCTA := Some hasCTA;
       mt_score := Z.max 0 score; mt_recommendations := recommendations |}.

(** *** The audit object ([WebsiteAudit] of the types file) *)

Record SslInfo := { ssl_valid : bool; ssl_score : Z; ssl_issues : list string }.
Record CanonicalTag := {
  can_present : bool; can_url : option string; can_count : Z;
  can_score : Z; can_issues : list string }.
Record CoreWebVitals := { lcp : Q; fid : Z; cls : Q }.
Record PageSpeed := {
  desktop : Q; mobile : Q; cwv : CoreWebVitals; ps_score : Q }.
Record MobileResponsive := {
  mr_valid : bool; mr_score : Z; mr_issues : list string }.
Record Sitemap := {
  sm_present : bool; sm_valid : bool; sm_url : string; sm_score : Z }.
Record SchemaError := { se_type : string; se_message : string }.
Record SchemaInfo := {
  sc_types : list string; sc_valid : bool; sc_errors : list SchemaError;
  sc_score : Z }.
Record MetaTags := { mtitle : MetaTag; mdescription : MetaTag }.
Record Technical := {
  ssl : SslInfo; canonical : CanonicalTag; pageSpeed : PageSpeed;
  mobileResponsive : MobileResponsive; sitemap : Sitemap;
  schema : SchemaInfo; metaTags : MetaTags }.

Record HeaderTag := { h_tag : string; h_content : string }.
Record Headers := { h1Count : Z; structure : list HeaderTag; hd_score : Z }.
Record InternalLinks := { il_count : Z; il_broken : Z; il_score : Z }.
Record Images := {
  img_total : Z; img_missingAlt : Z; img_optimized : Z; img_score : Z }.
Record OnPage := {
  headers : Headers; internalLinks : InternalLinks; images : Images;
  wordCount : Z }.

(** [aiAnalysis]: four optional members, written by the AI layer later. *)
Record AiAnalysis := {
  ai_industry : option string; ai_recommendations : option (list string);
  ai_keywordOpportunities : option (list string); ai_summary : option string }.
Definition ai_empty : AiAnalysis :=
  {| ai_industry := None; ai_recommendations := None;
     ai_keywordOpportunities := None; ai_summary := None |}.

Record Scores := {
  overall : Z; sc_technical : Z; sc_onPage : Z; sc_content : Z }.

Record WebsiteAudit := {
  id : string;
  websiteUrl : string;
  auditDate : string;
  technical : Technical;
  onPage : OnPage;
  aiAnalysis : AiAnalysis;
  scores : Scores
}.

(** What the platform hands to one construction of an audit: the value of
    [crypto.randomUUID()] and of [new Date().toISOString()]. *)
Record Platform := { randomUUID : string; date_toISOString : string }.

(** The same audit with the identity and the date of another
    construction. *)
Definition restamp (pf : Platform) (a : WebsiteAudit) : WebsiteAudit :=
  {| id := randomUUID pf; websiteUrl := websiteUrl a;
     auditDate := date_toISOString pf; technical := technical a;
     onPage := onPage a; aiAnalysis := aiAnalysis a; scores := scores a |}.

(** The [result] payload as the browser client reads it after
    [pollResponse.json()].  The client types it [any]: [title],
    [description] and [h1s] may be missing ([None] is [undefined]); the
    counters and [loadTime] are the integers the extractor reports. *)
Record RawData := {
  title : option string;
  description : option string;
  h1s : option (list string);
  imgCount : Z;
  missingAltCount : Z;
  linkCount : Z;
  internalLinkCount : Z;
  rd_wordCount : Z;
  loadTime : Z
}.

(** The performance rubric of [processRealData], lines 144-149. *)
Definition loadTimeSec (loadTime : Z) : Q :=
  Double.div (inject_Z loadTime) 1000.

Definition performanceScore (loadTime : Z) : Z :=
  let loadTimeSec := loadTimeSec loadTime in
  let performanceScore := 100 in
  let performanceScore :=
    if JS.gt loadTimeSec (25 # 10) then performanceScore - 20
    else performanceScore in
  let performanceScore :=
    if JS.gt loadTimeSec 4 then performanceScore - 30 else performanceScore in
  let performanceScore :=
    if JS.gt loadTimeSec 6 then performanceScore - 20 else performanceScore in
  Z.max 10 performanceScore.

(** The image rubric, lines 152-156. *)
Definition imageScore (imgCount missingAltCount : Z) : Z :=
  if 0 <? imgCount then
    let missingRatio :=
      Double.div (inject_Z missingAltCount) (inject_Z imgCount) in
    JS.Math_round (Double.mul 100 (Double.sub 1 missingRatio))
  else 100.

(** The image rubric on the reference implementation of binary64. *)
Definition imageScore_binary64 (imgCount missingAltCount : Z) : Z :=
  if 0 <? imgCount then
    let missingRatio :=
      SFdiv 53 1024 (Double.of_Z missingAltCount) (Double.of_Z imgCount) in
    JS.Math_round
      (Double.to_Q (SFmul 53 1024 (Double.of_Z 100)
                      (SFsub 53 1024 (Double.of_Z 1) missingRatio)))
  else 100.

(** The payloads with up to [n] images of which none to all lack the
    alternative text. *)
Definition image_counts (n : nat) : list (Z * Z) :=
  flat_map (fun imgCount =>
              map (fun missing => (Z.of_nat imgCount, Z.of_nat missing))
                  (seq 0 (S imgCount)))
           (seq 1 n).

Section WithURLParser.

(** [new URL(url).hostname] of the platform: the host name of a
    well-formed URL, [None] where the constructor throws. *)
Variable URL_hostname : string -> option string.

Definition extractDomain (url : string) : string :=
  match URL_hostname url with
  | Some hostname => hostname
  | None => url
  end.

(** [processRealData]: [inl tt] is the [TypeError] of reading [.length]
    of a missing [title] or [h1s]. *)
Definition processRealData (pf : Platform) (url : string) (data : RawData)
  : unit + WebsiteAudit :=
  let domain := extractDomain url in
  let domainKeyword := JS.split_dot_0 domain in
  let isSecure := JS.startsWith url "https" in
  let metaDescriptionAnalysis :=
    analyzeMetaDescription (default EmptyString (description data)) domainKeyword in
  match title data with
  | None => inl tt
  | Some title =>
    let tlen := String.length title in
    let titleScore :=
      if (30 <=? tlen)%nat && (tlen <=? 60)%nat then 100 else 50 in
    let titleRecs : list string := [] in
    let titleRecs :=
      if (tlen <? 30)%nat
      then JS.push titleRecs "Title is too short (recommended 30-60 chars)"
      else titleRecs in
    let titleRecs :=
      if (60 <? tlen)%nat
      then JS.push titleRecs "Title is too long (recommended 30-60 chars)"
      else titleRecs in
    let loadTimeSec := loadTimeSec (loadTime data) in
    let performanceScore := performanceScore (loadTime data) in
    let imageScore := imageScore (imgCount data) (missingAltCount data) in
    let estimatedLCP :=
      JS.toFixed2 (Double.mul loadTimeSec (Double.round (8 # 10))) in
    match h1s data with
    | None => inl tt
    | Some h1s =>
      let h1n := List.length h1s in
      inr {|
        id := randomUUID pf;
        websiteUrl := url;
        auditDate := date_toISOString pf;
        technical := {|
          ssl := {| ssl_valid := isSecure;
                    ssl_score := if isSecure then 100 else 0;
                    ssl_issues := if isSecure then []
                                  else ["SSL Certificate missing or invalid"] |};
          canonical := {| can_present := true; can_url := Some url;
                          can_count := 1; can_score := 100; can_issues := [] |};
          pageSpeed := {|
            desktop := inject_Z performanceScore;
            mobile := inject_Z (performanceScore - 15);
            cwv := {| lcp := estimatedLCP;
                      fid := JS.Math_round (Double.mul loadTimeSec 20);
                      cls := 5 # 100 |};
            ps_score := inject_Z performanceScore |};
          mobileResponsive := {| mr_valid := true; mr_score := 90; mr_issues := [] |};
          sitemap := {| sm_present := true; sm_valid := true;
                        sm_url := url +:+ "/sitemap.xml"; sm_score := 100 |};
          schema := {| sc_types := ["Organization"]; sc_valid := true;
                       sc_errors := []; sc_score := 85 |};
          metaTags := {|
            mtitle := {| mt_content := title;
                         mt_length := Z.of_nat tlen;
                         mt_hasKeyword :=
                           Some (JS.includes (JS.toLowerCase title) domainKeyword);
                         mt_hasCTA := None;
                         mt_score := titleScore;
                         mt_recommendations := titleRecs |};
            mdescription := metaDescriptionAnalysis |} |};
        onPage := {|
          headers := {|
            h1Count := Z.of_nat h1n;
            structure := map (fun h1 => {| h_tag := "h1"; h_content := h1 |}) h1s;
            hd_score := if (h1n =? 1)%nat then 100 else 50 |};
          internalLinks := {| il_count := internalLinkCount data;
                              il_broken := 0; il_score := 90 |};
          images := {| img_total := imgCount data;
                       img_missingAlt := missingAltCount data;
                       img_optimized := 0; img_score := imageScore |};
          wordCount := rd_wordCount data |};
        aiAnalysis := ai_empty;
        scores := {|
          overall := (performanceScore + imageScore + 80
                      + mt_score metaDescriptionAnalysis) / 4;
          sc_technical := (performanceScore + 100
                           + mt_score metaDescriptionAnalysis) / 3;
          sc_onPage := (imageScore + (if (h1n =? 1)%nat then 100 else 50) + 80) / 3;
          sc_content := 70 |}
      |}
    end
  end.

(** [generateMockAudit], the simulation fallback. *)
Definition generateMockAudit (pf : Platform) (url : string) : WebsiteAudit :=
  let seed := Z.of_nat (String.length url) in
  let isSecure := JS.startsWith url "https" in
  let domain := extractDomain url in
  let domainKeyword := JS.split_dot_0 domain in
  let lcp := ((12 # 10) + inject_Z (seed mod 3))%Q in
  let performanceScore := JS.Math_max 10 (100 - lcp * 10)%Q in
  let metaDescContent :=
    if seed mod 3 =? 0
    then "Discover the best " +:+ domainKeyword
           +:+ " solutions. Join satisfied customers."
    else "Generic description text." in
  let metaDescriptionAnalysis :=
    analyzeMetaDescription metaDescContent domainKeyword in
  {|
    id := randomUUID pf;
    websiteUrl := url;
    auditDate := date_toISOString pf;
    technical := {|
      ssl := {| ssl_valid := isSecure;
                ssl_score := if isSecure then 100 else 0;
                ssl_issues := [] |};
      canonical := {| can_present := true; can_url := Some url;
                      can_count := 1; can_score := 100; can_issues := [] |};
      pageSpeed := {|
        desktop := performanceScore;
        mobile := (performanceScore - 15)%Q;
        cwv := {| lcp := lcp; fid := 30; cls := 5 # 100 |};
        ps_score := performanceScore |};
      mobileResponsive := {| mr_valid := true; mr_score := 90; mr_issues := [] |};
      sitemap := {| sm_present := true; sm_valid := true;
                    sm_url := url +:+ "/sitemap.xml"; sm_score := 100 |};
      schema := {| sc_types := ["Organization"]; sc_valid := true;
                   sc_errors := []; sc_score := 85 |};
      metaTags := {|
        mtitle := {| mt_content := "Home | " +:+ domain; mt_length := 25;
                     mt_hasKeyword := Some true; mt_hasCTA := None;
                     mt_score := 60; mt_recommendations := [] |};
        mdescription := metaDescriptionAnalysis |} |};
    onPage := {|
      headers := {| h1Count := 1;
                    structure := [{| h_tag := "h1"; h_content := "Main" |}];
                    hd_score := 95 |};
      internalLinks := {| il_count := 12; il_broken := 0; il_score := 100 |};
      images := {| img_total := 8; img_missingAlt := 2;
                   img_optimized := 6; img_score := 80 |};
      wordCount := 850 |};
    aiAnalysis := ai_empty;
    scores := {| overall := 85; sc_technical := 90; sc_onPage := 80;
                 sc_content := 70 |}
  |}.

End WithURLParser.

(** Sample inputs for the examples below. *)
Definition fifty : string :=
  "Generic words about nothing much, fifty units long".
Definition hundred_forty : string :=
  "Take the example audit and learn which titles, headings, "
  +:+ "alt texts and load times hold a page back, in one report for busy site owners today".

(** The same 140 units with some of the letters as capitals. *)
Definition hundred_forty_capitals : string :=
  "TAKE the Example audit and LEARN which Titles, Headings, "
  +:+ "Alt Texts and load times hold a page back, in one report for busy site owners TODAY".

Definition sample_data : RawData :=
  {| title := Some "Example Domain"; description := Some EmptyString;
     h1s := Some ["Example Domain"]; imgCount := 0; missingAltCount := 0;
     linkCount := 1; internalLinkCount := 0; rd_wordCount := 28;
     loadTime := 10000 |}.

(** A page with 40 images of which 17 lack the alternative text. *)
Definition sample_gallery : RawData :=
  {| title := Some "Example Domain"; description := Some EmptyString;
     h1s := Some ["Example Domain"]; imgCount := 40; missingAltCount := 17;
     linkCount := 1; internalLinkCount := 0; rd_wordCount := 28;
     loadTime := 10000 |}.

Definition sample_platform : Platform :=
  {| randomUUID := "3b241101-e2bb-4255-8caf-4136c566a962";
     date_toISOString := "2024-01-01T00:00:00.000Z" |}.

(** A host name reader for the samples: it knows one URL. *)
Definition sample_hostname (url : string) : option string :=
  if String.eqb url "https://example.com" then Some "example.com" else None.

End Scoring.

(* ===================================================================== *)
(** ** The audit assembler ([crawlWebsite] of [src/services/crawlerService.ts]) *)
(* ===================================================================== *)

Module Assembler.
Import Scoring.

Definition POLLING_INTERVAL_MS : Z := 2000.
Definition MAX_POLLING_ATTEMPTS : nat := 30.

(** [JobResponse]: what [pollResponse.json()] yields.  [jr_result] is
    [None] for a falsy [result] (null or missing). *)
Record JobResponse := {
  jr_id : string;
  jr_status : JobStatus;
  jr_result : option RawData;
  jr_error : option string
}.

(** The answer of the job API to the submission [fetch]: the promise
    rejects (network failure), or a response arrives with its [ok] flag,
    its [statusText] and the [jobId] of its JSON body ([None] when
    [json()] rejects). *)
Inductive SubmitAnswer :=
| SubmitRejects (reason : string)
| SubmitResponds (ok : bool) (statusText : string) (jobId : option string).

(** The answer to one status [fetch]: the promise rejects, or a response
    arrives with its [ok] flag and the job of its JSON body ([None] when
    [json()] rejects; the body is not read when [ok] is false). *)
Inductive PollAnswer :=
| PollRejects (reason : string)
| PollResponds (ok : bool) (job : option JobResponse).

(** How the [try] block ends: [return], [throw], or still suspended in an
    [await] when the recorded answers run out. *)
Inductive Completion :=
| Normal (audit : WebsiteAudit)
| Abrupt (error : string)
| Suspended.

(** The loop's local [attempts], with two counters of what it has done:
    the status requests sent and the milliseconds slept. *)
Record LoopState := { attempts : nat; polls : nat; slept : Z }.

Definition loop_start : LoopState := {| attempts := 0; polls := 0; slept := 0 |}.

Definition after_poll (ls : LoopState) : LoopState :=
  {| attempts := attempts ls; polls := S (polls ls);
     slept := slept ls + POLLING_INTERVAL_MS |}.

Definition attempts_incr (ls : LoopState) : LoopState :=
  {| attempts := S (attempts ls); polls := polls ls; slept := slept ls |}.

(** [job.error || 'Crawler job failed on server']: a missing or empty
    message is falsy. *)
Definition error_or_default (e : option string) : string :=
  match e with
  | Some m => if (String.length m =? 0)%nat
              then "Crawler job failed on server" else m
  | None => "Crawler job failed on server"
  end.

(** The answer of a status request that is not [ok] (a 404 for an id
    the server does not know, a 500, ...). *)
Definition not_ok : PollAnswer := PollResponds false None.

(** An [ok] answer that shows a job still on its way. *)
Definition in_flight (a : PollAnswer) : Prop :=
  exists job, a = PollResponds true (Some job)
              /\ (jr_status job = PENDING \/ jr_status job = PROCESSING).

(** Whether an answer gets past [if (!pollResponse.ok) continue;]: every
    answer does but a response that is not [ok]. *)
Definition heeded (a : PollAnswer) : bool :=
  match a with
  | PollResponds false _ => false
  | _ => true
  end.

(** What the platform's promise is at the end of the observed run. *)
Inductive Promise :=
| Fulfilled (audit : WebsiteAudit) (timerDelay : Z)
| Rejected (error : string)
| Unsettled.

Section WithPlatform.

Variable URL_hostname : string -> option string.
Variable pf : Platform.

(** The [while] loop of lines 42-60, one answer of the API per
    iteration. *)
Fixpoint poll_loop (url : string) (ls : LoopState) (answers : list PollAnswer)
  : Completion * LoopState :=
  if (attempts ls <? MAX_POLLING_ATTEMPTS)%nat then
    match answers with
    | [] => (Suspended, ls)
    | answer :: answers' =>
      let ls := after_poll ls in
      match answer with
      | PollRejects reason => (Abrupt reason, ls)
      | PollResponds false _ => poll_loop url ls answers'
      | PollResponds true None => (Abrupt "Unexpected end of JSON input", ls)
      | PollResponds true (Some job) =>
        match jr_status job, jr_result job with
        | COMPLETED, Some result =>
          match processRealData URL_hostname pf url result with
          | inr audit => (Normal audit, ls)
          | inl _ => (Abrupt "Cannot read properties of undefined", ls)
          end
        | FAILED, _ => (Abrupt (error_or_default (jr_error job)), ls)
        | _, _ => poll_loop url (attempts_incr ls) answers'
        end
      end
    end
  else (Abrupt "Crawl timed out after 60 seconds", ls).

(** The [try] block of lines 25-62. *)
Definition try_block (url : string) (submit : SubmitAnswer)
    (answers : list PollAnswer) : Completion * LoopState :=
  match submit with
  | SubmitRejects reason => (Abrupt reason, loop_start)
  | SubmitResponds false statusText _ =>
    (Abrupt ("Job Submission Failed: " +:+ statusText), loop_start)
  | SubmitResponds true _ None =>
    (Abrupt "Unexpected end of JSON input", loop_start)
  | SubmitResponds true _ (Some jobId) => poll_loop url loop_start answers
  end.

(** [crawlWebsite]: the [try] block and its [catch], which resolves the
    mock audit from a 2000 ms timer. *)
Definition crawlWebsite (url : string) (submit : SubmitAnswer)
    (answers : list PollAnswer) : Promise :=
  match fst (try_block url submit answers) with
  | Normal audit => Fulfilled audit 0
  | Abrupt error => Fulfilled (generateMockAudit URL_hostname pf url) 2000
  | Suspended => Unsettled
  end.

End WithPlatform.

End Assembler.

(* ===================================================================== *)
(** ** The job engine ([src/unnamed/part_001]) *)
(* ===================================================================== *)

Module JobEngine.

(** The object [page.evaluate] returns (lines 106-116). *)
Record ExtractedData := {
  title : string;
  description : string;
  h1s : list string;
  imgCount : Z;
  missingAltCount : Z;
  linkCount : Z;
  internalLinkCount : Z;
  wordCount : Z;
  loadTime : Z
}.

(** A job record (lines 147-154).  [startedAt] and [completedAt] are
    absent until assigned; [result] and [error] start as [null]. *)
Record Job := {
  id : string;
  url : string;
  status : JobStatus;
  submittedAt : Z;
  startedAt : option Z;
  completedAt : option Z;
  result : option ExtractedData;
  error : option string
}.

Definition set_status (s : JobStatus) (j : Job) : Job :=
  {| id := id j; url := url j; status := s; submittedAt := submittedAt j;
     startedAt := startedAt j; completedAt := completedAt j;
     result := result j; error := error j |}.
Definition set_startedAt (t : Z) (j : Job) : Job :=
  {| id := id j; url := url j; status := status j; submittedAt := submittedAt j;
     startedAt := Some t; completedAt := completedAt j;
     result := result j; error := error j |}.
Definition set_completedAt (t : Z) (j : Job) : Job :=
  {| id := id j; url := url j; status := status j; submittedAt := submittedAt j;
     startedAt := startedAt j; completedAt := Some t;
     result := result j; error := error j |}.
Definition set_result (d : ExtractedData) (j : Job) : Job :=
  {| id := id j; url := url j; status := status j; submittedAt := submittedAt j;
     startedAt := startedAt j; completedAt := completedAt j;
     result := Some d; error := error j |}.
Definition set_error (m : string) (j : Job) : Job :=
  {| id := id j; url := url j; status := status j; submittedAt := submittedAt j;
     startedAt := startedAt j; completedAt := completedAt j;
     result := result j; error := Some m |}.

(** Job records are JavaScript objects: the store and the worker hold
    references to one shared object.  A reference is the object's index in
    the heap. *)
Abbreviation ref := nat.

(** What the server does that is observed below: every write of a
    [status] (the literal of a new record included), the launch of a
    browser, a navigation, the closing of a browser. *)
Inductive Effect :=
| StatusWrite (job : ref) (s : JobStatus)
| PuppeteerLaunch (job : ref)
| PageGoto (job : ref) (url : string)
| BrowserClose (job : ref).

(** Where a suspended activation of [processJob] waits: inside the [try]
    block (some [await] of lines 58-87), in the [finally] block at
    [await browser.close()], or nowhere (it has returned). *)
Inductive Pc := InBrowserSession | InBrowserClose | Returned.

(** One activation of [processJob]: its parameters and where it waits.
    Its local [job] is the key it is filed under. *)
Record Worker := { w_jobId : string; w_url : string; w_pc : Pc }.

Record State := {
  heap : list Job;
  jobStore : gmap string ref;
  workers : gmap ref Worker;
  trace : list Effect
}.

Definition init : State :=
  {| heap := []; jobStore := ∅; workers := ∅; trace := [] |}.

(** How the awaited Puppeteer calls of the [try] block turn out. *)
Inductive Session :=
| LaunchRejects (message : string)
| SetupRejects (message : string)
| GotoRejects (message : string)
| GotoNull
| GotoResponds (ok : bool) (status : Z) (evaluate : string + ExtractedData).

(** The decimal text of a status code in a template literal. *)
Definition show_Z (z : Z) : string :=
  NilEmpty.string_of_int (Z.to_int z).

(** What the [try] block reaches: the extracted data, or the message of
    the error that lands in [catch]. *)
Definition session_outcome (s : Session) : string + ExtractedData :=
  match s with
  | LaunchRejects m | SetupRejects m | GotoRejects m => inl m
  | GotoNull => inl "Failed to load page: Unknown Error"
  | GotoResponds false status _ =>
    inl ("Failed to load page: " +:+ show_Z status)
  | GotoResponds true _ evaluate => evaluate
  end.

(** Whether [browser] is non-null when [finally] runs. *)
Definition browser_launched (s : Session) : bool :=
  match s with LaunchRejects _ => false | _ => true end.

(** Whether [page.goto(url)] was called. *)
Definition navigated (s : Session) : bool :=
  match s with LaunchRejects _ | SetupRejects _ => false | _ => true end.

(** [processJob], from its call to its first [await] (lines 45-58). *)
Definition processJob (jobId url : string) (now : Z) (st : State) : State :=
  match jobStore st !! jobId with
  | None => st
  | Some job =>
    {| heap := alter (fun j => set_startedAt now (set_status PROCESSING j))
                     job (heap st);
       jobStore := <[jobId := job]> (jobStore st);
       workers := <[job := {| w_jobId := jobId; w_url := url;
                              w_pc := InBrowserSession |}]> (workers st);
       trace := trace st ++ [StatusWrite job PROCESSING; PuppeteerLaunch job] |}
  end.

(** The rest of the [try] block with its [catch], and [finally] up to
    [await browser.close()] (lines 119-131).  [now] is the reading of
    [Date.now()] stored in [completedAt]. *)
Definition processJob_settle (job : ref) (s : Session) (now : Z) (st : State)
  : State :=
  match workers st !! job with
  | Some {| w_jobId := jobId; w_url := url; w_pc := InBrowserSession |} =>
    let goto := if navigated s then [PageGoto job url] else [] in
    let '(update, written) :=
      match session_outcome s with
      | inr extractedData =>
        (fun j => set_result extractedData
                    (set_completedAt now (set_status COMPLETED j)),
         COMPLETED)
      | inl message =>
        (fun j => set_completedAt now
                    (set_error message (set_status FAILED j)),
         FAILED)
      end in
    if browser_launched s then
      {| heap := alter update job (heap st);
         jobStore := jobStore st;
         workers := <[job := {| w_jobId := jobId; w_url := url;
                                w_pc := InBrowserClose |}]> (workers st);
         trace := trace st ++ goto
                    ++ [StatusWrite job written; BrowserClose job] |}
    else
      {| heap := alter update job (heap st);
         jobStore := <[jobId := job]> (jobStore st);
         workers := <[job := {| w_jobId := jobId; w_url := url;
                                w_pc := Returned |}]> (workers st);
         trace := trace st ++ goto ++ [StatusWrite job written] |}
  | _ => st
  end.

(** [finally] after [browser.close()]: [jobStore.set(jobId, job)] when the
    close resolved.  When it rejected, the activation ends there and the
    promise of [processJob] is rejected; the submission handler did not
    await it and nothing handles the rejection, so Node ends the process
    (see [crashes]): what the model has after such a turn is the state of
    no running server. *)
Definition processJob_finish (job : ref) (closed : bool) (st : State) : State :=
  match workers st !! job with
  | Some {| w_jobId := jobId; w_url := url; w_pc := InBrowserClose |} =>
    {| heap := heap st;
       jobStore := if closed then <[jobId := job]> (jobStore st)
                   else jobStore st;
       workers := <[job := {| w_jobId := jobId; w_url := url;
                              w_pc := Returned |}]> (workers st);
       trace := trace st |}
  | _ => st
  end.

(** The record literal of the submission handler (lines 147-154). *)
Definition newJob (jobId url : string) (now : Z) : Job :=
  {| id := jobId; url := url; status := PENDING; submittedAt := now;
     startedAt := None; completedAt := None; result := None; error := None |}.

(** Lines 147-156: allocate the record and file it under its id. *)
Definition enqueue (jobId url : string) (now : Z) (st : State) : State :=
  let job := List.length (heap st) in
  {| heap := heap st ++ [newJob jobId url now];
     jobStore := <[jobId := job]> (jobStore st);
     workers := workers st;
     trace := trace st ++ [StatusWrite job PENDING] |}.

Inductive Response :=
| BadRequest (error : string)
| Accepted (jobId : string) (status : JobStatus) (message : string)
| NotFound (error : string)
| Ok (job : Job).

(** [!url]: a missing or empty [url] is falsy. *)
Definition falsy_url (url : option string) : bool :=
  match url with
  | Some u => (String.length u =? 0)%nat
  | None => true
  end.

(** [app.post('/api/jobs')]: [uuid] is the value of [randomUUID()],
    [submitted] and [started] the two readings of [Date.now()]. *)
Definition post_jobs (url : option string) (uuid : string)
    (submitted started : Z) (st : State) : State * Response :=
  if falsy_url url then (st, BadRequest "URL is required")
  else
    let url := default EmptyString url in
    (processJob uuid url started (enqueue uuid url submitted st),
     Accepted uuid PENDING "Job queued successfully").

(** [app.get('/api/jobs/:id')]. *)
Definition get_job (jobId : string) (st : State) : Response :=
  match jobStore st !! jobId with
  | None => NotFound "Job not found"
  | Some job =>
    match heap st !! job with
    | Some j => Ok j
    | None => NotFound "Job not found"
    end
  end.

Definition ONE_HOUR : Z := 60 * 60 * 1000.

(** [job.completedAt && (now - job.completedAt > ONE_HOUR)]: the left
    operand is tested for truthiness, so an absent stamp and the stamp 0
    both stop the test. *)
Definition expired (now : Z) (j : Job) : bool :=
  match completedAt j with
  | Some t => negb (t =? 0) && (ONE_HOUR <? now - t)
  | None => false
  end.

(** A completion stamp that a server can have read: [Date.now()] counts
    the milliseconds since the epoch, and no running server reads 0 or
    less. *)
Definition after_epoch (j : Job) : Prop :=
  forall t, completedAt j = Some t -> 0 < t.

(** One round of the cleanup loop body on the entry [(id, job)]. *)
Definition cleanup_entry (now : Z) (objects : list Job)
    (store : gmap string ref) (entry : string * ref) : gmap string ref :=
  match objects !! entry.2 with
  | Some j => if expired now j then delete entry.1 store else store
  | None => store
  end.

(** The cleanup routine (lines 191-199): one pass over the entries. *)
Definition cleanup (now : Z) (st : State) : State :=
  {| heap := heap st;
     jobStore := foldl (cleanup_entry now (heap st)) (jobStore st)
                       (map_to_list (jobStore st));
     workers := workers st;
     trace := trace st |}.

(** One turn of the server's event loop. *)
Inductive Event :=
| PostJobs (url : option string) (uuid : string) (submitted started : Z)
| GetJob (jobId : string)
| SessionEnds (job : ref) (s : Session) (now : Z)
| CloseEnds (job : ref) (closed : bool)
| CleanupTick (now : Z).

Definition step (st : State) (e : Event) : State :=
  match e with
  | PostJobs url uuid submitted started =>
    fst (post_jobs url uuid submitted started st)
  | GetJob _ => st
  | SessionEnds job s now => processJob_settle job s now st
  | CloseEnds job closed => processJob_finish job closed st
  | CleanupTick now => cleanup now st
  end.

Definition run (events : list Event) : State := foldl step init events.

(** Whether the turn [e] brings the process down: a [browser.close()]
    that rejects while an activation of [processJob] awaits it is an
    unhandled rejection.  (Any other end of the process is no turn of
    the model.) *)
Definition crashes (st : State) (e : Event) : bool :=
  match e with
  | CloseEnds job false =>
    match workers st !! job with
    | Some {| w_pc := InBrowserClose |} => true
    | _ => false
    end
  | _ => false
  end.

(** Whether the process is still up after the turns [events], taken from
    the state [st]. *)
Fixpoint survives_from (st : State) (events : list Event) : bool :=
  match events with
  | [] => true
  | e :: events' => negb (crashes st e) && survives_from (step st e) events'
  end.

Definition survives (events : list Event) : bool := survives_from init events.

(** What a status request receives after the turns [events]: the answer
    of the handler, and nothing from a process that is down. *)
Definition status_request (events : list Event) (jobId : string)
  : option Response :=
  if survives events then Some (get_job jobId (run events)) else None.

(** The status writes and the browser launch that concern one job
    object, in the order they happened. *)
Definition lifecycle_event (job : ref) (e : Effect) : bool :=
  match e with
  | StatusWrite r _ | PuppeteerLaunch r => (r =? job)%nat
  | _ => false
  end.

Definition lifecycle_of (job : ref) (tr : list Effect) : list Effect :=
  List.filter (lifecycle_event job) tr.

Definition lifecycle (job : ref) (st : State) : list Effect :=
  lifecycle_of job (trace st).

(** The whole life of a job object that ends in status [t]. *)
Definition full_lifecycle (job : ref) (t : JobStatus) : list Effect :=
  [StatusWrite job PENDING; StatusWrite job PROCESSING;
   PuppeteerLaunch job; StatusWrite job t].

Definition terminal (s : JobStatus) : bool :=
  match s with COMPLETED | FAILED => true | _ => false end.

(** The status written last in a list of effects. *)
Definition last_status (l : list Effect) : option JobStatus :=
  fold_left (fun acc e => match e with StatusWrite _ s => Some s | _ => acc end)
            l None.

(** A record that carries the terminal status [t] with what belongs to
    it. *)
Definition settled_as (t : JobStatus) (j : Job) : Prop :=
  status j = t /\ is_Some (completedAt j) /\
  match t with
  | COMPLETED => is_Some (result j) /\ error j = None
  | FAILED => is_Some (error j) /\ result j = None
  | _ => False
  end.

(** What holds of one job object between two turns: it is unallocated
    and nothing happened to it, or it is held by the one activation of
    [processJob] that was started for it. *)
Definition job_inv (st : State) (job : ref) : Prop :=
  match heap st !! job, workers st !! job with
  | None, None => lifecycle job st = []
  | Some j, Some w =>
    match w_pc w with
    | InBrowserSession =>
      status j = PROCESSING /\ is_Some (startedAt j)
      /\ result j = None /\ error j = None /\ completedAt j = None
      /\ lifecycle job st
         = [StatusWrite job PENDING; StatusWrite job PROCESSING;
            PuppeteerLaunch job]
    | _ => exists t, settled_as t j /\ lifecycle job st = full_lifecycle job t
    end
  | _, _ => False
  end.

Definition consistent (st : State) : Prop := forall job, job_inv st job.

(** How [result] and [error] follow the status of a record. *)
Definition result_iff_completed (j : Job) : Prop :=
  (is_Some (result j) <-> status j = COMPLETED)
  /\ (is_Some (error j) <-> status j = FAILED).

(** Whether the cleanup pass removes the entry that points to [job]. *)
Definition swept (now : Z) (objects : list Job) (job : ref) : bool :=
  match objects !! job with
  | Some j => expired now j
  | None => false
  end.

(** How the store, the workers and the records hang together: an entry of
    the store leads to the worker that was started under that id, and a
    worker holds the record that carries its id and URL. *)
Definition linked (st : State) : Prop :=
  (forall jobId job, jobStore st !! jobId = Some job ->
     exists w, workers st !! job = Some w /\ w_jobId w = jobId)
  /\ (forall job w, workers st !! job = Some w ->
        exists j, heap st !! job = Some j
                  /\ id j = w_jobId w /\ url j = w_url w).

(** The ids [randomUUID()] has handed out to accepted submissions. *)
Definition uuids (events : list Event) : list string :=
  flat_map (fun e => match e with
                     | PostJobs url uuid _ _ =>
                       if falsy_url url then [] else [uuid]
                     | _ => []
                     end) events.

(** With ids that are never handed out twice: every worker runs under an
    id that was handed out, no two workers under the same, and the store
    leads to every worker that still waits for its browser session. *)
Definition tracked (st : State) (issued : list string) : Prop :=
  (forall job w, workers st !! job = Some w -> In (w_jobId w) issued)
  /\ (forall job job' w w',
        workers st !! job = Some w -> workers st !! job' = Some w' ->
        w_jobId w = w_jobId w' -> job = job')
  /\ (forall job w,
        workers st !! job = Some w -> w_pc w = InBrowserSession ->
        jobStore st !! w_jobId w = Some job)
  /\ (forall u, In u issued ->
        exists job w, workers st !! job = Some w /\ w_jobId w = u).

(** The readings of [Date.now()] a turn takes, in order. *)
Definition readings (e : Event) : list Z :=
  match e with
  | PostJobs url _ submitted started =>
    if falsy_url url then [] else [submitted; started]
  | SessionEnds _ _ now => [now]
  | CleanupTick now => [now]
  | _ => []
  end.

(** A clock that never runs backwards: every reading is at least [lo] and
    at least the one before. *)
Fixpoint nondecreasing_from (lo : Z) (l : list Z) : bool :=
  match l with
  | [] => true
  | t :: l' => (lo <=? t) && nondecreasing_from t l'
  end.

Definition clock_monotone (events : list Event) : bool :=
  match flat_map readings events with
  | [] => true
  | t :: l => nondecreasing_from t l
  end.

(** The stamps of a record in the order of its life. *)
Definition stamps_ordered (j : Job) : Prop :=
  (forall s, startedAt j = Some s -> submittedAt j <= s)
  /\ (forall c, completedAt j = Some c -> submittedAt j <= c)
  /\ (forall s c, startedAt j = Some s -> completedAt j = Some c -> s <= c).

(** Every stamp of every record is ordered and no later than [hi]. *)
Definition stamped (st : State) (hi : Z) : Prop :=
  forall job j, heap st !! job = Some j ->
    stamps_ordered j /\ submittedAt j <= hi
    /\ (forall s, startedAt j = Some s -> s <= hi)
    /\ (forall c, completedAt j = Some c -> c <= hi).

(** Sample inputs for the examples below. *)
Definition sample_page : ExtractedData :=
  {| title := "Example Domain"; description := EmptyString; h1s := ["Example Domain"];
     imgCount := 0; missingAltCount := 0; linkCount := 1;
     internalLinkCount := 0; wordCount := 28; loadTime := 200 |}.

Definition sample_uuid : string := "3b241101-e2bb-4255-8caf-4136c566a962".

(** One job, submitted and extracted with success. *)
Definition sample_run (submitted started completed : Z) : list Event :=
  [PostJobs (Some "https://example.com") sample_uuid submitted started;
   SessionEnds 0%nat (GotoResponds true 200 (inr sample_page)) completed;
   CloseEnds 0%nat true].

Definition sample_uuid' : string := "9f1c2d3e-4b5a-4c6d-8e7f-0a1b2c3d4e5f".

(** Two jobs: the first is extracted and, 61 minutes later, swept; the
    second is still with its browser. *)
Definition sample_pair : list Event :=
  [PostJobs (Some "https://example.com") sample_uuid 1000 1001;
   PostJobs (Some "https://example.org") sample_uuid' 1500 1501;
   SessionEnds 0%nat (GotoResponds true 200 (inr sample_page)) 1800;
   CloseEnds 0%nat true;
   CleanupTick (1800 + 61 * 60 * 1000)].

End JobEngine.

(* ===================================================================== *)
(** ** The Phase 1 server ([src/unnamed/part_000]) *)
(* ===================================================================== *)

Module CrawlBFF.

(** The answer of the page [fetch]: the promise rejects, or a response
    arrives with [ok], [status], [statusText] and its text. *)
Inductive FetchAnswer :=
| FetchRejects (message : string)
| FetchResponds (ok : bool) (status : Z) (statusText : string) (html : string).

Inductive Effect := Fetch (url : string).

Inductive Response (Data : Type) :=
| BadRequest (error : string)
| Upstream (status : Z) (error : string)
| Success (url : string) (statusCode : Z) (data : Data)
| ServerError (details : string).
Arguments BadRequest {Data}.
Arguments Upstream {Data}.
Arguments Success {Data}.
Arguments ServerError {Data}.

Section Handler.

(** [new URL(url)] of Node's [url] module: [None] where it throws. *)
Variable URL_hostname : string -> option string.

(** [parseHtml] (lines 14-40), the regular-expression extraction of the
    page fields; what it extracts plays no part below. *)
Context {Data : Type}.
Variable parseHtml : string -> Data.

(** [app.post('/api/crawl')]: the requests sent and the response. *)
Definition api_crawl (url : option string) (answer : FetchAnswer)
  : list Effect * Response Data :=
  match url with
  | None => ([], BadRequest "URL is required")
  | Some url =>
    if (String.length url =? 0)%nat then ([], BadRequest "URL is required")
    else
      match URL_hostname url with
      | None => ([], BadRequest "Invalid URL format")
      | Some _ =>
        match answer with
        | FetchRejects message => ([Fetch url], ServerError message)
        | FetchResponds false status statusText _ =>
          ([Fetch url],
           Upstream status ("Failed to fetch page: " +:+ statusText))
        | FetchResponds true status _ html =>
          ([Fetch url], Success url status (parseHtml html))
        end
      end
  end.

End Handler.

End CrawlBFF.

(* ===================================================================== *)
(** ** The rubrics in the specification's words *)
(* ===================================================================== *)

Module Spec.

(** A rule of the meta description rubric: whether it is triggered, the
    points it costs, the recommendation it appends. *)
Record Rule := { triggered : bool; points : Z; advice : string }.

(** Case, said without any conversion of text.  A capital is one of A to
    Z or of the Latin-1 capitals (U+00C0 to U+00DE without the
    multiplication sign); its small letter stands 32 places up.  Two code
    units are the same letter when they are equal or are the capital and
    the small form of one letter. *)
Definition capital (c : ascii) : bool :=
  let n := N_of_ascii c in
  ((65 <=? n) && (n <=? 90)
   || (192 <=? n) && (n <=? 222) && negb (n =? 215))%N.

Definition same_letter (a b : ascii) : bool :=
  Ascii.eqb a b
  || capital a && (N_of_ascii b =? N_of_ascii a + 32)%N
  || capital b && (N_of_ascii a =? N_of_ascii b + 32)%N.

(** Two texts that differ in the case of their letters at most. *)
Fixpoint equal_ci (s t : string) : bool :=
  match s, t with
  | EmptyString, EmptyString => true
  | String a s', String b t' => same_letter a b && equal_ci s' t'
  | _, _ => false
  end.

(** [word] stands at the head of [text], case apart. *)
Fixpoint starts_ci (text word : string) : bool :=
  match word, text with
  | EmptyString, _ => true
  | String _ _, EmptyString => false
  | String b word', String a text' => same_letter a b && starts_ci text' word'
  end.

(** "Case-insensitive substring match": [word] stands somewhere in
    [text], case apart. *)
Fixpoint occurs_ci (text word : string) : bool :=
  starts_ci text word ||
  match text with
  | EmptyString => false
  | String _ text' => occurs_ci text' word
  end.

(** "Missing the page's primary keyword (case-insensitive substring
    match), skipped if the keyword is empty". *)
Definition keyword_missing (content keyword : string) : bool :=
  (0 <? String.length keyword)%nat && negb (occurs_ci content keyword).

(** "Missing all of a fixed call-to-action vocabulary (case-insensitive
    substring match against a fixed word list)". *)
Definition cta_missing (content : string) : bool :=
  forallb (fun word => negb (occurs_ci content word)) Scoring.ctaWords.

(** The four rules, in the order the specification lists them. *)
Definition meta_rules (content keyword : string) : list Rule :=
  let n := String.length content in
  [ {| triggered := (n <? 120)%nat; points := 20;
       advice := Scoring.rec_short n |};
    {| triggered := (165 <? n)%nat; points := 10;
       advice := Scoring.rec_long n |};
    {| triggered := keyword_missing content keyword; points := 30;
       advice := Scoring.rec_keyword keyword |};
    {| triggered := cta_missing content; points := 30;
       advice := Scoring.rec_cta |} ].

Definition fired (content keyword : string) : list Rule :=
  List.filter triggered (meta_rules content keyword).

(** "Starts at 100 ... clamped at the floor"; "empty content: score 0,
    single recommendation, other checks skipped". *)
Definition meta_score (content keyword : string) : Z :=
  if (String.length content =? 0)%nat then 0
  else Z.max 0 (100 - fold_right Z.add 0 (map points (fired content keyword))).

Definition meta_recommendations (content keyword : string) : list string :=
  if (String.length content =? 0)%nat then [Scoring.rec_missing]
  else map advice (fired content keyword).

(** "Start at 100, -20 if >2.5s, additional -30 if >4.0s, additional -20
    if >6.0s": one penalty of the performance rubric, the load time given
    in milliseconds. *)
Definition slower_than (seconds : Q) (loadTime : Z) : bool :=
  match (seconds ?= inject_Z loadTime / 1000)%Q with
  | Lt => true
  | _ => false
  end.

Definition penalty (seconds : Q) (amount : Z) (loadTime : Z) : Z :=
  if slower_than seconds loadTime then amount else 0.

Definition performance_penalties (loadTime : Z) : Z :=
  penalty (25 # 10) 20 loadTime + penalty 4 30 loadTime + penalty 6 20 loadTime.

End Spec.

(* ===================================================================== *)
(** ** Whitespace in text ([String.prototype.trim], [split(/\s+/)]) *)
(* ===================================================================== *)

Module Text.

(** A code unit below 256 that [\s] matches and [trim] strips: TAB, LF, VT,
    FF, CR, the space and the no-break space. *)
Definition is_ws (c : ascii) : bool :=
  let n := N_of_ascii c in
  (((9 <=? n) && (n <=? 13)) || (n =? 32) || (n =? 160))%N.

(** Strip the whitespace at the start. *)
Fixpoint ltrim (s : string) : string :=
  match s with
  | EmptyString => EmptyString
  | String c s' => if is_ws c then ltrim s' else s
  end.

(** Strip the whitespace at the end. *)
Fixpoint rtrim (s : string) : string :=
  match s with
  | EmptyString => EmptyString
  | String c s' =>
    match rtrim s' with
    | EmptyString => if is_ws c then EmptyString else String c EmptyString
    | r => String c r
    end
  end.

(** [s.trim()]. *)
Definition trim (s : string) : string := rtrim (ltrim s).

(** The matches of [/\s+/g] in [s]: its maximal runs of whitespace.
    [in_ws] tells that the unit before was whitespace too. *)
Fixpoint ws_runs (in_ws : bool) (s : string) : nat :=
  match s with
  | EmptyString => 0
  | String c s' =>
    if is_ws c then ((if in_ws then 0 else 1) + ws_runs true s')%nat
    else ws_runs false s'
  end.

(** [s.split(/\s+/).length]: one piece more than there are separators. *)
Definition split_ws_length (s : string) : nat := S (ws_runs false s).

(** The words of a text: its maximal runs of units that are not
    whitespace.  [in_word] tells that the unit before was in a word. *)
Fixpoint words (in_word : bool) (s : string) : nat :=
  match s with
  | EmptyString => 0
  | String c s' =>
    if is_ws c then words false s'
    else ((if in_word then 0 else 1) + words true s')%nat
  end.

(** Whether every unit of [s] is whitespace. *)
Fixpoint blank (s : string) : bool :=
  match s with
  | EmptyString => true
  | String c s' => is_ws c && blank s'
  end.

(** Whether [s] ends with a unit that is not whitespace. *)
Fixpoint ends_word (s : string) : bool :=
  match s with
  | EmptyString => false
  | String c EmptyString => negb (is_ws c)
  | String _ s' => ends_word s'
  end.

End Text.

(* ===================================================================== *)
(** ** The extraction script ([page.evaluate] of [src/unnamed/part_001]) *)
(* ===================================================================== *)

Module Extractor.

(** What the script reads from the loaded document: [document.title], the
    [content] of the description and of the Open Graph description meta
    elements ([None] where [querySelector] finds no element), the
    [innerText] of every [h1], the [alt] of every [img] (the empty string
    without the attribute), the [href] of every [a],
    [window.location.hostname], [document.body.innerText], and
    [loadEventEnd] and [startTime] of the first navigation timing entry
    ([None] when there is none). *)
Record Document := {
  doc_title : string;
  meta_description : option string;
  og_description : option string;
  h1_innerText : list string;
  img_alt : list string;
  a_href : list string;
  location_hostname : string;
  body_innerText : string;
  navigation : option (Q * Q)
}.

(** The left operand of [||] when it is a non-empty string. *)
Definition truthy (o : option string) : option string :=
  match o with
  | Some s => if (String.length s =? 0)%nat then None else Some s
  | None => None
  end.

(** Lines 89-90. *)
Definition metaDesc (d : Document) : string :=
  match truthy (meta_description d) with
  | Some s => s
  | None => default EmptyString (truthy (og_description d))
  end.

(** Line 92. *)
Definition h1s (d : Document) : list string :=
  List.filter (fun t => (0 <? String.length t)%nat)
              (map Text.trim (h1_innerText d)).

(** Line 95: [!img.alt || img.alt.trim() === '']. *)
Definition alt_missing (alt : string) : bool :=
  (String.length alt =? 0)%nat || (String.length (Text.trim alt) =? 0)%nat.

Definition missingAlt (d : Document) : nat :=
  List.length (List.filter alt_missing (img_alt d)).

(** Line 98. *)
Definition internalLinks (d : Document) : nat :=
  List.length
    (List.filter (fun href => JS.includes href (location_hostname d)) (a_href d)).

(** Lines 100-101. *)
Definition wordCount (d : Document) : nat :=
  Text.split_ws_length (Text.trim (body_innerText d)).

(** Lines 103-104 and 115: [Math.round(loadTime) || 0]. *)
Definition loadTime (d : Document) : Z :=
  match navigation d with
  | Some (loadEventEnd, startTime) =>
    JS.Math_round (Double.sub loadEventEnd startTime)
  | None => JS.Math_round 0
  end.

(** A sample document for the examples below. *)
Definition sample_document : Document :=
  {| doc_title := "Example Domain";
     meta_description := None;
     og_description := Some "An example page";
     h1_innerText := [" Example Domain "; "  "];
     img_alt := ["logo"; EmptyString; "  "];
     a_href := ["https://example.com/more"; "https://www.iana.org/"];
     location_hostname := "example.com";
     body_innerText := "  Example   Domain ";
     navigation := Some (2005 # 10, 0)%Q |}.

(** The callback of [page.evaluate] (lines 87-117). *)
Definition evaluate (d : Document) : JobEngine.ExtractedData :=
  {| JobEngine.title := doc_title d;
     JobEngine.description := metaDesc d;
     JobEngine.h1s := h1s d;
     JobEngine.imgCount := Z.of_nat (List.length (img_alt d));
     JobEngine.missingAltCount := Z.of_nat (missingAlt d);
     JobEngine.linkCount := Z.of_nat (List.length (a_href d));
     JobEngine.internalLinkCount := Z.of_nat (internalLinks d);
     JobEngine.wordCount := Z.of_nat (wordCount d);
     JobEngine.loadTime := loadTime d |}.

End Extractor.

(* ===================================================================== *)
(** ** From the job server to the browser client *)
(* ===================================================================== *)

Module Wire.

(** The extracted data as JSON: every member is present. *)
Definition to_payload (d : JobEngine.ExtractedData) : Scoring.RawData :=
  {| Scoring.title := Some (JobEngine.title d);
     Scoring.description := Some (JobEngine.description d);
     Scoring.h1s := Some (JobEngine.h1s d);
     Scoring.imgCount := JobEngine.imgCount d;
     Scoring.missingAltCount := JobEngine.missingAltCount d;
     Scoring.linkCount := JobEngine.linkCount d;
     Scoring.internalLinkCount := JobEngine.internalLinkCount d;
     Scoring.rd_wordCount := JobEngine.wordCount d;
     Scoring.loadTime := JobEngine.loadTime d |}.

(** The body [app.get('/api/jobs/:id')] sends for a record (lines 180-187
    of the server), as the client types it. *)
Definition to_response (j : JobEngine.Job) : Assembler.JobResponse :=
  {| Assembler.jr_id := JobEngine.id j;
     Assembler.jr_status := JobEngine.status j;
     Assembler.jr_result := to_payload <$> JobEngine.result j;
     Assembler.jr_error := JobEngine.error j |}.

(** What the client's status [fetch] receives from the server in state
    [st]: 404 for an unknown id, else 200 with the record. *)
Definition poll (jobId : string) (st : JobEngine.State) : Assembler.PollAnswer :=
  match JobEngine.get_job jobId st with
  | JobEngine.Ok j => Assembler.PollResponds true (Some (to_response j))
  | _ => Assembler.PollResponds false None
  end.

End Wire.

(* ===================================================================== *)
(** ** Score colours ([src/data.ts], [src/components/UIComponents.tsx]) *)
(* ===================================================================== *)

Module Theme.

(** [a >= b] on numbers. *)
Definition ge (a b : Q) : bool := Qle_bool b a.

Definition getScoreColor (score : Q) : string :=
  if ge score 90 then "text-nexus-success border-nexus-success"
  else if ge score 60 then "text-nexus-warning border-nexus-warning"
  else "text-nexus-danger border-nexus-danger".

Definition getScoreBg (score : Q) : string :=
  if ge score 90 then "bg-nexus-success"
  else if ge score 60 then "bg-nexus-warning"
  else "bg-nexus-danger".

(** The stroke colour of [ScoreGauge] (lines 39-41 of the component). *)
Definition ScoreGauge_color (score : Q) : string :=
  let color := "stroke-rose-500" in
  let color := if JS.gt score 50 then "stroke-amber-500" else color in
  let color := if JS.gt score 85 then "stroke-emerald-500" else color in
  color.

(** The three bands the class names stand for. *)
Inductive Band := Danger | Warning | Success.

Definition band_name (b : Band) : string :=
  match b with
  | Danger => "danger" | Warning => "warning" | Success => "success"
  end.

End Theme.

(* ===================================================================== *)
(** ** The AI insight service ([src/services/geminiService.ts]) *)
(* ===================================================================== *)

Module Gemini.

Inductive ImpactLevel := HIGH | MEDIUM | LOW.
Abbreviation EffortLevel := ImpactLevel.

Record IndustryClassification := {
  primary : string; subCategory : string; confidence : Z; reasoning : string }.

Record Recommendation := {
  rec_id : string; priority : Z; rec_title : string; impact : ImpactLevel;
  effort : EffortLevel; category : string; rec_description : string;
  steps : list string; estimatedTime : string }.

Record Keyword := {
  phrase : string; volume : Z; difficulty : string; intent : string }.

(** The return type of [generateAuditInsights]. *)
Record Insights := {
  industry : IndustryClassification;
  recommendations : list Recommendation;
  keywords : list Keyword;
  summary : string
}.

Definition getMockAiResponse : Insights :=
  {| industry := {| primary := "Technology"; subCategory := "SaaS";
                    confidence := 85;
                    reasoning := "Detected technical terminology and software product schemas." |};
     recommendations :=
       [ {| rec_id := "rec_1"; priority := 1;
            rec_title := "Implement Schema.org Structured Data";
            impact := HIGH; effort := LOW; category := "Technical";
            rec_description := "Enhance rich snippets by adding Organization and Product schema.";
            steps := ["Generate JSON-LD"; "Inject into Head"];
            estimatedTime := "1 hour" |};
         {| rec_id := "rec_2"; priority := 2;
            rec_title := "Optimize LCP (Largest Contentful Paint)";
            impact := HIGH; effort := MEDIUM; category := "Performance";
            rec_description := "Your LCP is 3.2s. Aim for < 2.5s by optimizing hero images.";
            steps := ["Convert to WebP"; "Preload hero image"];
            estimatedTime := "3 hours" |} ];
     keywords :=
       [ {| phrase := "enterprise seo platform"; volume := 1200;
            difficulty := "Hard"; intent := "Commercial" |};
         {| phrase := "seo audit tools for agencies"; volume := 450;
            difficulty := "Medium"; intent := "Transactional" |} ];
     summary := "The site has a strong technical foundation but lacks semantic depth. Performance optimizations and structured data implementation will yield the highest ROI." |}.

(** How [ai.models.generateContent] turns out: it throws or rejects, or
    it resolves with a response whose [text] may be missing. *)
Inductive ApiAnswer :=
| ApiRejects (message : string)
| ApiResponds (text : option string).

(** A promise at the end of the observed run. *)
Inductive Promise (A : Type) :=
| Fulfilled (value : A)
| Rejected (error : string)
| Unsettled.
Arguments Fulfilled {A}.
Arguments Rejected {A}.
Arguments Unsettled {A}.

Section WithPlatform.

(** [process.env.API_KEY || ''] at module load. *)
Variable apiKey : string.

(** [JSON.parse(text)] read at the return type: [None] where it throws. *)
Variable JSON_parse : string -> option Insights.

(** [generateAuditInsights].  The audit only goes into the prompt; the
    answer of the API is [answer], [None] while the call has not settled. *)
Definition generateAuditInsights (auditData : Scoring.WebsiteAudit)
    (answer : option ApiAnswer) : Promise Insights :=
  if (String.length apiKey =? 0)%nat then Fulfilled getMockAiResponse
  else
    match answer with
    | None => Unsettled
    | Some (ApiRejects _) => Fulfilled getMockAiResponse
    | Some (ApiResponds None) => Fulfilled getMockAiResponse
    | Some (ApiResponds (Some text)) =>
      if (String.length text =? 0)%nat then Fulfilled getMockAiResponse
      else
        match JSON_parse text with
        | Some insights => Fulfilled insights
        | None => Fulfilled getMockAiResponse
        end
    end.

End WithPlatform.

End Gemini.

(* ===================================================================== *)
(** ** The audit form of the application ([handleStartAudit], [src/unnamed/part_006]) *)
(* ===================================================================== *)

Module App.

Inductive AuditStatus :=
| IDLE | CRAWLING | ANALYZING | AI_GENERATING | COMPLETE | ERROR.

(** [{...crawlResult, aiAnalysis: insights}]: the members of the crawl
    result, with the insights in place of its [aiAnalysis]. *)
Record FinalAudit := {
  crawlResult : Scoring.WebsiteAudit;
  insights : Gemini.Insights
}.

(** The state of the component that the handler reads and sets. *)
Record UI := {
  url : string;
  status : AuditStatus;
  progress : Z;
  activeTab : string;
  auditData : option FinalAudit
}.

(** [handleStartAudit] (lines 28-65).  [crawl] is the promise of
    [crawlWebsite(url)]; [ai] gives the promise of
    [generateAuditInsights(crawlResult)]; the 800 ms timer always fires. *)
Definition handleStartAudit (ui : UI) (crawl : Assembler.Promise)
    (ai : Scoring.WebsiteAudit -> Gemini.Promise Gemini.Insights) : UI :=
  if (String.length (url ui) =? 0)%nat then ui
  else
    let reset tab st pr data :=
      {| url := url ui; status := st; progress := pr; activeTab := tab;
         auditData := data |} in
    match crawl with
    | Assembler.Unsettled => reset "dashboard" CRAWLING 10 None
    | Assembler.Rejected _ => reset "dashboard" ERROR 10 None
    | Assembler.Fulfilled crawlResult _ =>
      match ai crawlResult with
      | Gemini.Unsettled => reset "dashboard" AI_GENERATING 70 None
      | Gemini.Rejected _ => reset "dashboard" ERROR 70 None
      | Gemini.Fulfilled insights =>
        reset "dashboard" COMPLETE 100
              (Some {| crawlResult := crawlResult; insights := insights |})
      end
    end.

(** The form with a URL typed in, before the first audit. *)
Definition sample_ui : UI :=
  {| url := "https://example.com"; status := IDLE; progress := 0;
     activeTab := "dashboard"; auditData := None |}.

End App.

(* ===================================================================== *)
(** ** Facts about rounding to doubles *)
(* ===================================================================== *)

Module DoubleFacts.
Import Double.

(** *** Powers of two *)

Lemma pow2_pos e : (0 < pow2 e)%Q.
Proof. apply Qpower_0_lt. reflexivity. Qed.

Lemma pow2_add a b : (pow2 (a + b) == pow2 a * pow2 b)%Q.
Proof. apply Qpower_plus. discriminate. Qed.

Lemma pow2_le a b : a <= b -> (pow2 a <= pow2 b)%Q.
Proof. intros H. apply Qpower_le_compat_l; [exact H | discriminate]. Qed.

Lemma pow2_lt a b : a < b -> (pow2 a < pow2 b)%Q.
Proof. intros H. apply Qpower_lt_compat_l; [exact H | reflexivity]. Qed.

Lemma pow2_Z n : 0 <= n -> (pow2 n == inject_Z (2 ^ n))%Q.
Proof.
  intros H. unfold pow2. symmetry. apply Zpower_Qpower. exact H.
Qed.

(** From a comparison to the order it reports. *)
Ltac compared H :=
  first [ apply (proj2 (Qeq_alt _ _)) in H
        | apply (proj2 (Qlt_alt _ _)) in H
        | apply (proj2 (Qgt_alt _ _)) in H ].

Lemma rne_bounds q : Qfloor q <= rne q <= Qfloor q + 1.
Proof.
  unfold rne. destruct (q - inject_Z (Qfloor q) ?= 1 # 2)%Q;
    [destruct (Z.even (Qfloor q))|..]; lia.
Qed.

Lemma rne_mono x y : (x <= y)%Q -> rne x <= rne y.
Proof.
  intros H. pose proof (Qfloor_resp_le _ _ H) as Hf.
  destruct (Z.eq_dec (Qfloor x) (Qfloor y)) as [E|N].
  - unfold rne. rewrite <- E.
    destruct (x - inject_Z (Qfloor x) ?= 1 # 2)%Q eqn:Cx;
      destruct (y - inject_Z (Qfloor x) ?= 1 # 2)%Q eqn:Cy;
      try (destruct (Z.even (Qfloor x))); try lia;
      compared Cx; compared Cy; exfalso; lra.
  - pose proof (rne_bounds x). pose proof (rne_bounds y). lia.
Qed.

Lemma rne_Z z : rne (inject_Z z) = z.
Proof.
  unfold rne. rewrite Qfloor_Z.
  assert (E : (inject_Z z - inject_Z z ?= 1 # 2)%Q = Lt).
  { rewrite <- Qlt_alt. lra. }
  now rewrite E.
Qed.

(** The integer part of the binary logarithm. *)
Lemma ilog2_spec q :
  (0 < q)%Q -> (pow2 (ilog2 q) <= q)%Q /\ (q < pow2 (ilog2 q + 1))%Q.
Proof.
  intros Hq. destruct q as [a b]. 
  assert (Ha : 0 < a) by (unfold Qlt in Hq; simpl in Hq; lia).
  unfold ilog2. simpl Qnum. simpl Qden.
  set (la := Z.log2 a). set (lb := Z.log2 (Z.pos b)).
  assert (Hla : 0 <= la) by apply Z.log2_nonneg.
  assert (Hlb : 0 <= lb) by apply Z.log2_nonneg.
  destruct (Z.log2_spec a Ha) as [Ha1 Ha2]. fold la in Ha1, Ha2.
  destruct (Z.log2_spec (Z.pos b) ltac:(lia)) as [Hb1 Hb2]. fold lb in Hb1, Hb2.
  assert (Hlow : (pow2 (la - lb - 1) <= a # b)%Q).
  { apply (Qmult_le_r _ _ (pow2 (lb + 1))); [apply pow2_pos|].
    rewrite <- pow2_add. replace (la - lb - 1 + (lb + 1)) with la by lia.
    rewrite !pow2_Z by lia.
    apply Qle_trans with (inject_Z a); [rewrite <- Zle_Qle; exact Ha1|].
    unfold Qle, Qmult, inject_Z. simpl. nia. }
  assert (Hhigh : (a # b < pow2 (la - lb + 1))%Q).
  { apply (Qmult_lt_r _ _ (pow2 lb)); [apply pow2_pos|].
    rewrite <- pow2_add. replace (la - lb + 1 + lb) with (Z.succ la) by lia.
    rewrite !pow2_Z by lia.
    apply Qle_lt_trans with (inject_Z a); [|rewrite <- Zlt_Qlt; exact Ha2].
    unfold Qle, Qmult, inject_Z. simpl. nia. }
  destruct (Qle_bool (pow2 (la - lb)) (a # b)) eqn:E.
  - apply Qle_bool_iff in E. split; [exact E | exact Hhigh].
  - split; [exact Hlow|]. replace (la - lb - 1 + 1) with (la - lb) by lia.
    apply Qnot_le_lt. intros Hle. apply Qle_bool_iff in Hle. congruence.
Qed.

Lemma ilog2_unique q k :
  (pow2 k <= q)%Q -> (q < pow2 (k + 1))%Q -> ilog2 q = k.
Proof.
  intros H1 H2.
  assert (Hq : (0 < q)%Q) by (eapply Qlt_le_trans; [apply pow2_pos | exact H1]).
  destruct (ilog2_spec q Hq) as [L1 L2].
  destruct (Z.lt_trichotomy (ilog2 q) k) as [Hlt | [E | Hgt]]; [|exact E|].
  - exfalso. assert (Hp : (pow2 (ilog2 q + 1) <= pow2 k)%Q) by (apply pow2_le; lia).
    lra.
  - exfalso. assert (Hp : (pow2 (k + 1) <= pow2 (ilog2 q))%Q) by (apply pow2_le; lia).
    lra.
Qed.

Lemma ilog2_mono x y : (0 < x)%Q -> (x <= y)%Q -> ilog2 x <= ilog2 y.
Proof.
  intros Hx Hxy.
  assert (Hy : (0 < y)%Q) by lra.
  destruct (ilog2_spec x Hx) as [X1 X2]. destruct (ilog2_spec y Hy) as [Y1 Y2].
  destruct (Z.le_gt_cases (ilog2 x) (ilog2 y)) as [H|H]; [exact H|].
  exfalso. assert (Hp : (pow2 (ilog2 y + 1) <= pow2 (ilog2 x))%Q) by (apply pow2_le; lia).
  lra.
Qed.

Lemma ulp_exponent_mono x y :
  (0 < x)%Q -> (x <= y)%Q -> ulp_exponent x <= ulp_exponent y.
Proof.
  intros Hx Hxy. unfold ulp_exponent.
  pose proof (ilog2_mono x y Hx Hxy). lia.
Qed.

(** A positive number lies below 2^53 units in the last place, and at
    or above 2^52 of them unless it is subnormal. *)
Lemma scaled_below x :
  (0 < x)%Q -> (x / pow2 (ulp_exponent x) < inject_Z (2 ^ 53))%Q.
Proof.
  intros Hx. destruct (ilog2_spec x Hx) as [_ H].
  apply Qlt_shift_div_r; [apply pow2_pos|].
  rewrite <- pow2_Z by lia. rewrite <- pow2_add.
  eapply Qlt_le_trans; [exact H|]. apply pow2_le. unfold ulp_exponent. lia.
Qed.

Lemma scaled_above x :
  (0 < x)%Q -> -1074 < ulp_exponent x ->
  (inject_Z (2 ^ 52) <= x / pow2 (ulp_exponent x))%Q.
Proof.
  intros Hx He. destruct (ilog2_spec x Hx) as [H _].
  apply Qle_shift_div_l; [apply pow2_pos|].
  rewrite <- pow2_Z by lia. rewrite <- pow2_add.
  eapply Qle_trans; [|exact H]. apply pow2_le. unfold ulp_exponent in *. lia.
Qed.

Lemma round_pos_nonneg x : (0 < x)%Q -> (0 <= round_pos x)%Q.
Proof.
  intros Hx. unfold round_pos.
  apply Qmult_le_0_compat; [|apply Qlt_le_weak, pow2_pos].
  change 0%Q with (inject_Z 0). rewrite <- Zle_Qle.
  rewrite <- (rne_Z 0). apply rne_mono.
  apply Qle_shift_div_l; [apply pow2_pos|]. 
  change (inject_Z 0) with 0%Q. lra.
Qed.

Lemma round_pos_mono x y :
  (0 < x)%Q -> (x <= y)%Q -> (round_pos x <= round_pos y)%Q.
Proof.
  intros Hx Hxy. assert (Hy : (0 < y)%Q) by lra.
  pose proof (ulp_exponent_mono x y Hx Hxy) as He.
  unfold round_pos.
  destruct (Z.eq_dec (ulp_exponent x) (ulp_exponent y)) as [E|N].
  - rewrite <- E. apply Qmult_le_compat_r; [|apply Qlt_le_weak, pow2_pos].
    rewrite <- Zle_Qle. apply rne_mono.
    apply Qmult_le_compat_r; [exact Hxy|].
    apply Qlt_le_weak, Qinv_lt_0_compat, pow2_pos.
  - assert (Hlt : ulp_exponent x < ulp_exponent y) by lia.
    assert (Hmin : -1074 <= ulp_exponent x) by (unfold ulp_exponent; lia).
    pose proof (scaled_below x Hx) as Hb.
    pose proof (scaled_above y Hy ltac:(lia)) as Ha.
    apply Qlt_le_weak, rne_mono in Hb. rewrite rne_Z in Hb.
    apply rne_mono in Ha. rewrite rne_Z in Ha.
    apply Qle_trans with (inject_Z (2 ^ 53) * pow2 (ulp_exponent x))%Q.
    { apply Qmult_le_compat_r; [|apply Qlt_le_weak, pow2_pos].
      rewrite <- Zle_Qle. exact Hb. }
    apply Qle_trans with (inject_Z (2 ^ 52) * pow2 (ulp_exponent y))%Q.
    2:{ apply Qmult_le_compat_r; [|apply Qlt_le_weak, pow2_pos].
        rewrite <- Zle_Qle. exact Ha. }
    rewrite <- !pow2_Z by lia. rewrite <- !pow2_add. apply pow2_le. lia.
Qed.

(** Rounding keeps the order of the numbers. *)
Lemma round_mono x y : (x <= y)%Q -> (round x <= round y)%Q.
Proof.
  intros H. unfold round.
  destruct x as [[|a|a] b] eqn:Ex; destruct y as [[|c|c] d] eqn:Ey;
    simpl Qnum; cbv iota;
    try (exfalso; unfold Qle in H; simpl in H; lia).
  - apply Qle_refl.
  - apply round_pos_nonneg. reflexivity.
  - apply round_pos_mono; [reflexivity | exact H].
  - assert (0 <= round_pos (- (Z.neg a # b)))%Q
      by (apply round_pos_nonneg; reflexivity). lra.
  - assert (0 <= round_pos (- (Z.neg a # b)))%Q
      by (apply round_pos_nonneg; reflexivity).
    assert (0 <= round_pos (Z.pos c # d))%Q
      by (apply round_pos_nonneg; reflexivity). lra.
  - assert (round_pos (- (Z.neg c # d)) <= round_pos (- (Z.neg a # b)))%Q.
    { apply round_pos_mono; [reflexivity | lra]. }
    lra.
Qed.

Lemma round_compat x y : (x == y)%Q -> (round x == round y)%Q.
Proof.
  intros H. apply Qle_antisym; apply round_mono; rewrite H; apply Qle_refl.
Qed.

Lemma round_0 : (round 0 == 0)%Q.
Proof. reflexivity. Qed.

Lemma round_1 : (round 1 == 1)%Q.
Proof. vm_compute. reflexivity. Qed.

Lemma round_100 : (round 100 == 100)%Q.
Proof. vm_compute. reflexivity. Qed.

Lemma round_range lo hi x :
  (round lo == lo)%Q -> (round hi == hi)%Q ->
  (lo <= x)%Q -> (x <= hi)%Q -> (lo <= round x)%Q /\ (round x <= hi)%Q.
Proof.
  intros Hlo Hhi H1 H2. rewrite <- Hlo at 1. rewrite <- Hhi.
  split; now apply round_mono.
Qed.

End DoubleFacts.

(* ===================================================================== *)
(** ** Facts about the scoring engine *)
(* ===================================================================== *)

Module ScoringFacts.
Import Scoring.

Lemma lower_unit_eqb a b :
  Ascii.eqb a b = true -> Ascii.eqb (JS.lower_unit a) (JS.lower_unit b) = true.
Proof.
  intros H. apply Ascii.eqb_eq in H. subst b. apply Ascii.eqb_refl.
Qed.

Lemma startsWith_toLowerCase p : forall s,
  JS.startsWith s p = true ->
  JS.startsWith (JS.toLowerCase s) (JS.toLowerCase p) = true.
Proof.
  induction p as [|b p IH]; intros s H; [destruct s; reflexivity|].
  destruct s as [|a s]; simpl in *; [discriminate|].
  destruct (Ascii.eqb a b) eqn:E; [|discriminate].
  rewrite (lower_unit_eqb _ _ E). auto.
Qed.

(** A literal occurrence is also a case-insensitive one. *)
Lemma includes_toLowerCase sub : forall s,
  JS.includes s sub = true ->
  JS.includes (JS.toLowerCase s) (JS.toLowerCase sub) = true.
Proof.
  induction s as [|a s IH]; simpl; intros H.
  - rewrite orb_false_r in *. now apply (startsWith_toLowerCase sub EmptyString).
  - apply orb_true_iff in H. apply orb_true_iff. destruct H as [H|H].
    + left. now apply (startsWith_toLowerCase sub (String a s)).
    + right. auto.
Qed.

Lemma includes_empty s : JS.includes s EmptyString = true.
Proof. destruct s; reflexivity. Qed.

(** *** Lower case against case in the specification's sense *)

Lemma units_all (a : ascii) : In a JS.units.
Proof.
  rewrite <- (ascii_nat_embedding a). apply in_map, in_seq.
  pose proof (nat_ascii_bounded a). lia.
Qed.

(** Two code units have the same lower case exactly when they are the
    same letter. *)
Lemma lower_unit_same_letter a b :
  Ascii.eqb (JS.lower_unit a) (JS.lower_unit b) = Spec.same_letter a b.
Proof.
  assert (H : forallb (fun a => forallb (fun b =>
                Bool.eqb (Ascii.eqb (JS.lower_unit a) (JS.lower_unit b))
                         (Spec.same_letter a b)) JS.units) JS.units = true)
    by (vm_compute; reflexivity).
  rewrite forallb_forall in H. specialize (H a (units_all a)).
  rewrite forallb_forall in H. specialize (H b (units_all b)).
  now apply eqb_prop in H.
Qed.

Lemma startsWith_starts_ci word : forall text,
  JS.startsWith (JS.toLowerCase text) (JS.toLowerCase word)
  = Spec.starts_ci text word.
Proof.
  induction word as [|b word IH]; intros text; [destruct text; reflexivity|].
  destruct text as [|a text]; [reflexivity|]. simpl.
  rewrite lower_unit_same_letter, IH.
  now destruct (Spec.same_letter a b).
Qed.

(** What the code tests, an occurrence of the lower case of the word in
    the lower case of the text, is an occurrence of the word case apart. *)
Lemma includes_occurs_ci word : forall text,
  JS.includes (JS.toLowerCase text) (JS.toLowerCase word)
  = Spec.occurs_ci text word.
Proof.
  induction text as [|a text IH].
  - change (JS.startsWith (JS.toLowerCase EmptyString) (JS.toLowerCase word)
            || false = Spec.starts_ci EmptyString word || false).
    now rewrite startsWith_starts_ci.
  - change (JS.includes (JS.toLowerCase (String a text)) (JS.toLowerCase word))
      with (JS.startsWith (JS.toLowerCase (String a text)) (JS.toLowerCase word)
            || JS.includes (JS.toLowerCase text) (JS.toLowerCase word)).
    rewrite startsWith_starts_ci, IH. reflexivity.
Qed.

(** The call-to-action words are written in lower case. *)
Lemma ctaWords_lower word :
  In word ctaWords -> JS.toLowerCase word = word.
Proof.
  unfold ctaWords. simpl. intros H.
  repeat (destruct H as [<- | H]; [reflexivity|]). contradiction.
Qed.

Lemma some_occurs_ci content :
  JS.some (fun word => JS.includes (JS.toLowerCase content) word) ctaWords
  = existsb (Spec.occurs_ci content) ctaWords.
Proof.
  unfold JS.some. pose proof ctaWords_lower as Hlow.
  induction ctaWords as [|w l IH]; [reflexivity|]. simpl.
  rewrite <- (includes_occurs_ci w content), (Hlow w) by now left.
  rewrite IH; [reflexivity|]. intros word Hin. apply Hlow. now right.
Qed.

Lemma cta_missing_some content :
  Spec.cta_missing content
  = negb (JS.some (fun word => JS.includes (JS.toLowerCase content) word) ctaWords).
Proof.
  rewrite some_occurs_ci. unfold Spec.cta_missing.
  induction ctaWords as [|w l IH]; simpl; [reflexivity|].
  rewrite IH, negb_orb. reflexivity.
Qed.

Lemma some_cta_word content word :
  In word ctaWords ->
  JS.includes (JS.toLowerCase content) word = true ->
  JS.some (fun word => JS.includes (JS.toLowerCase content) word) ctaWords = true.
Proof.
  intros Hin H. unfold JS.some. apply existsb_exists. eauto.
Qed.

(** The code computes the rubric of the specification. *)
Lemma analyzeMetaDescription_rubric content keyword :
  mt_score (analyzeMetaDescription content keyword)
    = Spec.meta_score content keyword
  /\ mt_recommendations (analyzeMetaDescription content keyword)
    = Spec.meta_recommendations content keyword.
Proof.
  unfold analyzeMetaDescription, Spec.meta_score, Spec.meta_recommendations,
    Spec.fired, Spec.meta_rules, Spec.keyword_missing.
  rewrite cta_missing_some, <- includes_occurs_ci.
  destruct (String.length content =? 0)%nat eqn:E0; [split; reflexivity|].
  destruct (String.length content <? 120)%nat eqn:E1;
    destruct (165 <? String.length content)%nat eqn:E2;
    try (apply Nat.ltb_lt in E1; apply Nat.ltb_lt in E2; lia);
    destruct (JS.includes (JS.toLowerCase content) (JS.toLowerCase keyword));
    destruct (0 <? String.length keyword)%nat;
    destruct (JS.some _ ctaWords); split; reflexivity.
Qed.

(** The two flags of the analysis of a description that is not empty. *)
Lemma analyzeMetaDescription_flags content keyword :
  content <> EmptyString ->
  mt_hasKeyword (analyzeMetaDescription content keyword)
    = Some (Spec.occurs_ci content keyword)
  /\ mt_hasCTA (analyzeMetaDescription content keyword)
    = Some (existsb (Spec.occurs_ci content) ctaWords).
Proof.
  intros Hne. unfold analyzeMetaDescription.
  rewrite some_occurs_ci, includes_occurs_ci.
  destruct content as [|c content]; [congruence|].
  change (String.length (String c content) =? 0)%nat with false. cbv iota.
  destruct (String.length (String c content) <? 120)%nat;
    destruct (165 <? String.length (String c content))%nat;
    destruct (Spec.occurs_ci (String c content) keyword);
    destruct (0 <? String.length keyword)%nat;
    destruct (existsb _ ctaWords); split; reflexivity.
Qed.

(** C4.  The meta description analyzer computes the rubric of the
    specification for every content and keyword: the score is 100 minus
    20 (shorter than 120), 10 (longer than 165), 30 (non-empty keyword
    that does not stand in the content, case apart) and 30 (no
    call-to-action word stands in the content, case apart), clamped at 0,
    and every triggered rule appends exactly one recommendation; the two
    flags report the two occurrences, case apart.  Empty content gives
    score 0 and the single "missing" recommendation with both flags
    false; 50 characters without keyword and without call-to-action word
    score 20; 140 characters containing the keyword and "learn", in
    whatever case, score 100 with no recommendation.  Case is that of
    text whose code units lie below 256. *)
Theorem analyzeMetaDescription_spec (content keyword : string) :
  let tag := analyzeMetaDescription content keyword in
  mt_score tag = Spec.meta_score content keyword
  /\ mt_recommendations tag = Spec.meta_recommendations content keyword
  /\ (content = EmptyString
      -> mt_score tag = 0 /\ mt_recommendations tag = [rec_missing]
         /\ mt_hasKeyword tag = Some false /\ mt_hasCTA tag = Some false)
  /\ (content <> EmptyString
      -> List.length (mt_recommendations tag)
         = List.length (Spec.fired content keyword)
         /\ mt_hasKeyword tag = Some (Spec.occurs_ci content keyword)
         /\ mt_hasCTA tag = Some (existsb (Spec.occurs_ci content) ctaWords))
  /\ (String.length content = 50%nat
      -> Spec.occurs_ci content keyword = false
      -> Spec.cta_missing content = true
      -> mt_score tag = 20)
  /\ (String.length content = 140%nat
      -> Spec.occurs_ci content keyword = true
      -> Spec.occurs_ci content "learn" = true
      -> mt_score tag = 100 /\ mt_recommendations tag = []).
Proof.
  cbv zeta.
  destruct (analyzeMetaDescription_rubric content keyword) as [Hs Hr].
  split; [exact Hs|]. split; [exact Hr|].
  split; [intros ->; repeat split; reflexivity|].
  split.
  { intros Hne. split; [|now apply analyzeMetaDescription_flags].
    rewrite Hr. unfold Spec.meta_recommendations.
    destruct content; [congruence|]. simpl. now rewrite length_map. }
  split.
  - intros Hlen Hkw Hcta. rewrite Hs.
    unfold Spec.meta_score, Spec.fired, Spec.meta_rules, Spec.keyword_missing.
    rewrite Hlen, Hkw, Hcta.
    destruct keyword; [destruct content; discriminate|].
    reflexivity.
  - intros Hlen Hkw Hcta.
    assert (Hnone : Spec.cta_missing content = false).
    { unfold Spec.cta_missing. apply not_true_iff_false. intros Hall.
      rewrite forallb_forall in Hall.
      specialize (Hall "learn" ltac:(unfold ctaWords; simpl; tauto)).
      rewrite Hcta in Hall. discriminate. }
    rewrite Hs, Hr.
    unfold Spec.meta_score, Spec.meta_recommendations, Spec.fired,
      Spec.meta_rules, Spec.keyword_missing.
    rewrite Hlen, Hkw, Hnone, andb_false_r. split; reflexivity.
Qed.

Lemma analyzeMetaDescription_spec_witness :
  mt_score (analyzeMetaDescription EmptyString "example") = 0
  /\ List.length (mt_recommendations (analyzeMetaDescription fifty "Example"))
     = 3%nat
  /\ mt_score (analyzeMetaDescription fifty "Example") = 20
  /\ mt_score (analyzeMetaDescription hundred_forty "example") = 100
  /\ mt_score (analyzeMetaDescription hundred_forty_capitals "eXample") = 100
  /\ mt_hasKeyword (analyzeMetaDescription hundred_forty_capitals "eXample")
     = Some true.
Proof.
  split; [|split; [|split; [|split; [|split]]]].
  - now apply (analyzeMetaDescription_spec EmptyString "example").
  - pose proof (analyzeMetaDescription_spec fifty "Example") as H.
    cbv zeta in H. destruct H as (_ & _ & _ & H & _).
    destruct H as [H _]; [discriminate|]. rewrite H. reflexivity.
  - pose proof (analyzeMetaDescription_spec fifty "Example") as H.
    cbv zeta in H. destruct H as (_ & _ & _ & _ & H & _).
    apply H; reflexivity.
  - pose proof (analyzeMetaDescription_spec hundred_forty "example") as H.
    cbv zeta in H. destruct H as (_ & _ & _ & _ & _ & H).
    destruct H as [H _]; [reflexivity..|].
    exact H.
  - pose proof (analyzeMetaDescription_spec hundred_forty_capitals "eXample")
      as H.
    cbv zeta in H. destruct H as (_ & _ & _ & _ & _ & H).
    destruct H as [H _]; [reflexivity..|].
    exact H.
  - pose proof (analyzeMetaDescription_spec hundred_forty_capitals "eXample")
      as H.
    cbv zeta in H. destruct H as (_ & _ & _ & H & _).
    destruct H as (_ & H & _); [discriminate|]. rewrite H. reflexivity.
Defined.

(** Dividing by 1000 on doubles keeps the order of the load times. *)
Lemma loadTimeSec_mono (a b : Z) :
  a <= b -> (loadTimeSec a <= loadTimeSec b)%Q.
Proof.
  intros H. unfold loadTimeSec, Double.div. apply DoubleFacts.round_mono.
  apply Qmult_le_compat_r; [now rewrite <- Zle_Qle | discriminate].
Qed.

(** A threshold [q] that lies between the quotients of [k] and [k + 1]
    milliseconds is passed from [k + 1] milliseconds on. *)
Lemma gt_threshold (loadTime k : Z) (q : Q) :
  Qle_bool (loadTimeSec k) q = true ->
  Qle_bool (loadTimeSec (k + 1)) q = false ->
  JS.gt (loadTimeSec loadTime) q = (k <? loadTime).
Proof.
  intros Hk Hk1. apply Qle_bool_iff in Hk. unfold JS.gt.
  destruct (k <? loadTime) eqn:E; [apply Z.ltb_lt in E | apply Z.ltb_ge in E].
  - apply negb_true_iff.
    destruct (Qle_bool (loadTimeSec loadTime) q) eqn:C; [|reflexivity].
    apply Qle_bool_iff in C.
    pose proof (loadTimeSec_mono (k + 1) loadTime ltac:(lia)) as Hm.
    assert (Hq : Qle_bool (loadTimeSec (k + 1)) q = true)
      by (apply Qle_bool_iff; lra).
    congruence.
  - apply negb_false_iff, Qle_bool_iff.
    pose proof (loadTimeSec_mono loadTime k E). lra.
Qed.

(** The comparisons of the performance rubric, on whole milliseconds. *)
Lemma gt_loadTimeSec (loadTime : Z) :
  JS.gt (loadTimeSec loadTime) (25 # 10) = (2500 <? loadTime)
  /\ JS.gt (loadTimeSec loadTime) 4 = (4000 <? loadTime)
  /\ JS.gt (loadTimeSec loadTime) 6 = (6000 <? loadTime).
Proof.
  split; [|split]; apply gt_threshold; vm_compute; reflexivity.
Qed.

Lemma slower_than_true (q : Q) (loadTime : Z) :
  (q < inject_Z loadTime / 1000)%Q -> Spec.slower_than q loadTime = true.
Proof.
  intros H. unfold Spec.slower_than.
  now rewrite (proj1 (Qlt_alt q (inject_Z loadTime / 1000)) H).
Qed.

Lemma slower_than_false (q : Q) (loadTime : Z) :
  (inject_Z loadTime / 1000 <= q)%Q -> Spec.slower_than q loadTime = false.
Proof.
  intros H. unfold Spec.slower_than.
  pose proof (proj1 (Qge_alt q (inject_Z loadTime / 1000)) H) as C.
  destruct (q ?= inject_Z loadTime / 1000)%Q; congruence.
Qed.

(** Settles one threshold of the performance rubric by arithmetic on
    numerators and denominators. *)
Ltac threshold :=
  match goal with
  | |- Spec.slower_than ?q ?t = (?k <? ?t) =>
    destruct (k <? t) eqn:E;
    [ apply Z.ltb_lt in E; apply slower_than_true; unfold Qlt; simpl; lia
    | apply Z.ltb_ge in E; apply slower_than_false; unfold Qle; simpl; lia ]
  end.

Lemma slower_than_ms (loadTime : Z) :
  Spec.slower_than (25 # 10) loadTime = (2500 <? loadTime)
  /\ Spec.slower_than 4 loadTime = (4000 <? loadTime)
  /\ Spec.slower_than 6 loadTime = (6000 <? loadTime).
Proof. repeat split; threshold. Qed.

Lemma performanceScore_ms (loadTime : Z) :
  performanceScore loadTime
  = if 6000 <? loadTime then 30
    else if 4000 <? loadTime then 50
    else if 2500 <? loadTime then 80 else 100.
Proof.
  unfold performanceScore.
  destruct (gt_loadTimeSec loadTime) as (-> & -> & ->).
  destruct (2500 <? loadTime) eqn:E1; destruct (4000 <? loadTime) eqn:E2;
    destruct (6000 <? loadTime) eqn:E3; try reflexivity;
    repeat match goal with
           | H : (_ <? _) = true |- _ => apply Z.ltb_lt in H
           | H : (_ <? _) = false |- _ => apply Z.ltb_ge in H
           end; lia.
Qed.

(** Ten seconds of load time do not score 10. *)
Lemma performanceScore_10000_is_not_10 : performanceScore 10000 <> 10.
Proof. vm_compute. discriminate. Qed.

(** C5, amended.  For every load time in milliseconds the desktop
    performance score is 100 minus 20 if loadTime/1000 > 2.5, minus a
    further 30 if > 4.0, minus a further 20 if > 6.0; the floor of 10 is
    applied but never binds, the score being at least 30: 1500 gives 100,
    3000 gives 80, 5000 gives 50 and 10000 gives 30.  The mobile score of
    the audit is the desktop score minus 15, not floored again, and is
    never below 15. *)
Theorem performanceScore_spec (loadTime : Z) :
  performanceScore loadTime = Z.max 10 (100 - Spec.performance_penalties loadTime)
  /\ performanceScore loadTime = 100 - Spec.performance_penalties loadTime
  /\ 30 <= performanceScore loadTime <= 100
  /\ performanceScore 1500 = 100 /\ performanceScore 3000 = 80
  /\ performanceScore 5000 = 50 /\ performanceScore 10000 = 30
  /\ forall URL_hostname pf url data audit,
       Scoring.loadTime data = loadTime ->
       processRealData URL_hostname pf url data = inr audit ->
       desktop (pageSpeed (technical audit)) = inject_Z (performanceScore loadTime)
       /\ mobile (pageSpeed (technical audit))
          = inject_Z (performanceScore loadTime - 15)
       /\ 15 <= performanceScore loadTime - 15.
Proof.
  assert (Hp : performanceScore loadTime
               = 100 - Spec.performance_penalties loadTime).
  { rewrite performanceScore_ms.
    unfold Spec.performance_penalties, Spec.penalty.
    destruct (slower_than_ms loadTime) as (-> & -> & ->).
    destruct (2500 <? loadTime) eqn:E1; destruct (4000 <? loadTime) eqn:E2;
      destruct (6000 <? loadTime) eqn:E3; try reflexivity;
      repeat match goal with
             | H : (_ <? _) = true |- _ => apply Z.ltb_lt in H
             | H : (_ <? _) = false |- _ => apply Z.ltb_ge in H
             end; lia. }
  assert (Hb : 30 <= performanceScore loadTime <= 100).
  { rewrite performanceScore_ms.
    destruct (6000 <? loadTime), (4000 <? loadTime), (2500 <? loadTime); lia. }
  split; [lia|]. split; [exact Hp|]. split; [exact Hb|].
  do 4 (split; [reflexivity|]).
  intros h pf url data audit <- Hrun.
  unfold processRealData in Hrun.
  destruct (title data); [|discriminate].
  destruct (h1s data); [|discriminate].
  injection Hrun as <-. simpl. repeat split; lia.
Qed.

Lemma performanceScore_spec_witness :
  exists audit,
    processRealData sample_hostname sample_platform "https://example.com"
                    sample_data = inr audit
    /\ desktop (pageSpeed (technical audit)) = inject_Z 30
    /\ mobile (pageSpeed (technical audit)) = inject_Z 15.
Proof.
  eexists. split; [reflexivity|].
  pose proof (performanceScore_spec 10000) as H.
  destruct H as (_ & _ & _ & _ & _ & _ & _ & H).
  destruct (H sample_hostname sample_platform "https://example.com"
              sample_data _ eq_refl eq_refl) as (Hd & Hm & _).
  split; [exact Hd | exact Hm].
Defined.

(** Two constructions of the audit of one [(url, data)] differ when the
    platform hands out another UUID. *)
Lemma processRealData_not_deterministic :
  processRealData sample_hostname sample_platform "https://example.com"
                  sample_data
  <> processRealData sample_hostname
       {| randomUUID := "9f0e2c6a-51d7-4c1b-a0ad-0f3c2b7d1e55";
          date_toISOString := "2024-01-01T00:00:02.000Z" |}
       "https://example.com" sample_data.
Proof. vm_compute. discriminate. Qed.

(** C9, amended.  The transformation from a request URL and the extracted
    page data to the audit depends on nothing but [(url, data)] except
    through two fields: [id] is the UUID and [auditDate] the time the
    platform returns at that construction.  Two runs on one [(url, data)]
    both fail or both produce audits that agree on the URL, every
    sub-score, flag and recommendation list; with the same UUID and time
    they are identical. *)
Theorem processRealData_deterministic_up_to_stamp
    (URL_hostname : string -> option string) (pf pf' : Platform)
    (url : string) (data : RawData) :
  processRealData URL_hostname pf url data
  = sum_map (fun e : unit => e) (restamp pf)
            (processRealData URL_hostname pf' url data)
  /\ match processRealData URL_hostname pf url data,
           processRealData URL_hostname pf' url data with
     | inr a, inr a' =>
       id a = randomUUID pf /\ auditDate a = date_toISOString pf
       /\ websiteUrl a = websiteUrl a' /\ technical a = technical a'
       /\ onPage a = onPage a' /\ aiAnalysis a = aiAnalysis a'
       /\ scores a = scores a'
     | inl _, inl _ => True
     | _, _ => False
     end.
Proof.
  unfold processRealData.
  destruct (title data); [|split; [reflexivity|exact I]].
  destruct (h1s data); [|split; [reflexivity|exact I]].
  split; [reflexivity|]. simpl. repeat split; reflexivity.
Qed.

End ScoringFacts.

(* ===================================================================== *)
(** ** Facts about the audit assembler *)
(* ===================================================================== *)

Module AssemblerFacts.
Import Scoring Assembler.

Section Polling.

Variable URL_hostname : string -> option string.
Variable pf : Platform.
Variable url : string.

(** An answer that is not [ok] leaves [attempts] where it is. *)
Lemma poll_loop_not_ok_from (n : nat) : forall ls,
  (attempts ls < MAX_POLLING_ATTEMPTS)%nat ->
  poll_loop URL_hostname pf url ls (repeat not_ok n)
  = (Suspended,
     {| attempts := attempts ls; polls := (polls ls + n)%nat;
        slept := slept ls + POLLING_INTERVAL_MS * Z.of_nat n |}).
Proof.
  induction n as [|n IH]; intros ls Hlt.
  - simpl. apply Nat.ltb_lt in Hlt. rewrite Hlt.
    destruct ls as [na np ns]. simpl. f_equal. f_equal; lia.
  - simpl. pose proof Hlt as Hb. apply Nat.ltb_lt in Hb. rewrite Hb.
    rewrite IH by exact Hlt. simpl. f_equal. f_equal; lia.
Qed.

(** Answers that are [ok] and in flight use up the budget: the loop ends
    after exactly [MAX_POLLING_ATTEMPTS - attempts] requests. *)
Lemma poll_loop_in_flight_from (budget : nat) : forall ls answers,
  (attempts ls + budget = MAX_POLLING_ATTEMPTS)%nat ->
  (budget <= List.length answers)%nat ->
  Forall in_flight answers ->
  poll_loop URL_hostname pf url ls answers
  = (Abrupt "Crawl timed out after 60 seconds",
     {| attempts := MAX_POLLING_ATTEMPTS; polls := (polls ls + budget)%nat;
        slept := slept ls + POLLING_INTERVAL_MS * Z.of_nat budget |}).
Proof.
  induction budget as [|budget IH]; intros ls answers Hsum Hlen Hall.
  - assert (Hge : (attempts ls <? MAX_POLLING_ATTEMPTS)%nat = false)
      by (apply Nat.ltb_ge; lia).
    destruct answers; simpl; rewrite Hge;
      destruct ls as [na np ns]; simpl in *; f_equal; f_equal; lia.
  - assert (Hlt : (attempts ls <? MAX_POLLING_ATTEMPTS)%nat = true)
      by (apply Nat.ltb_lt; lia).
    destruct answers as [|answer answers]; [simpl in Hlen; lia|].
    apply Forall_cons_iff in Hall as [(job & -> & Hst) Hall].
    simpl. rewrite Hlt.
    assert (Hnext : forall r : Completion * LoopState,
      r = poll_loop URL_hostname pf url (attempts_incr (after_poll ls)) answers ->
      match jr_status job, jr_result job with
      | COMPLETED, Some result =>
        match processRealData URL_hostname pf url result with
        | inr audit => (Normal audit, after_poll ls)
        | inl _ => (Abrupt "Cannot read properties of undefined", after_poll ls)
        end
      | FAILED, _ => (Abrupt (error_or_default (jr_error job)), after_poll ls)
      | _, _ => r
      end = r).
    { intros r _. destruct Hst as [-> | ->]; destruct (jr_result job); reflexivity. }
    rewrite (Hnext _ eq_refl).
    rewrite IH; simpl in *; try lia; [|exact Hall].
    f_equal. f_equal; lia.
Qed.

End Polling.

(** With answers that are [ok] and in flight the loop raises the timeout
    error after exactly 30 requests and 60 seconds of sleep. *)
Lemma poll_loop_times_out URL_hostname pf url (answers : list PollAnswer) :
  (MAX_POLLING_ATTEMPTS <= List.length answers)%nat ->
  Forall in_flight answers ->
  poll_loop URL_hostname pf url loop_start answers
  = (Abrupt "Crawl timed out after 60 seconds",
     {| attempts := 30; polls := 30; slept := 60000 |}).
Proof.
  intros Hlen Hall.
  now rewrite (poll_loop_in_flight_from URL_hostname pf url 30 loop_start answers).
Qed.

(** C6.  Where the status endpoint answers every request with a response
    that is not [ok], the loop has sent [n] requests after [n] rounds, for
    every [n]: its [attempts] counter is still 0 and it has neither
    returned nor thrown.  It polls past 30 requests and never raises the
    timeout error. *)
Theorem poll_loop_not_ok_never_times_out
    (URL_hostname : string -> option string) (pf : Platform) (url : string)
    (n : nat) :
  poll_loop URL_hostname pf url loop_start (repeat not_ok n)
  = (Suspended,
     {| attempts := 0; polls := n; slept := 2000 * Z.of_nat n |}).
Proof.
  rewrite poll_loop_not_ok_from by (unfold MAX_POLLING_ATTEMPTS; simpl; lia).
  reflexivity.
Qed.

(** No run of [crawlWebsite] ends in a rejected promise. *)
Lemma crawlWebsite_never_rejects URL_hostname pf url submit answers error :
  crawlWebsite URL_hostname pf url submit answers <> Rejected error.
Proof.
  unfold crawlWebsite.
  destruct (fst (try_block URL_hostname pf url submit answers)); discriminate.
Qed.

(** Whatever is thrown inside the [try] block becomes the mock audit,
    resolved from the 2000 ms timer. *)
Lemma crawlWebsite_fallback URL_hostname pf url submit answers error ls :
  try_block URL_hostname pf url submit answers = (Abrupt error, ls) ->
  crawlWebsite URL_hostname pf url submit answers
  = Fulfilled (generateMockAudit URL_hostname pf url) 2000.
Proof. unfold crawlWebsite. now intros ->. Qed.

(** The failure paths the specification names end in the mock audit:
    a rejected submission, a network failure at submission or at a status
    request, a job reported FAILED, an exhausted polling budget, a
    COMPLETED job whose payload lacks its title. *)
Lemma crawlWebsite_failure_paths URL_hostname pf url :
  let mock := Fulfilled (generateMockAudit URL_hostname pf url) 2000 in
  (forall statusText jobId answers,
      crawlWebsite URL_hostname pf url
        (SubmitResponds false statusText jobId) answers = mock)
  /\ (forall reason answers,
      crawlWebsite URL_hostname pf url (SubmitRejects reason) answers = mock)
  /\ (forall statusText jobId reason answers,
      crawlWebsite URL_hostname pf url
        (SubmitResponds true statusText (Some jobId))
        (PollRejects reason :: answers) = mock)
  /\ (forall statusText jobId job answers,
      jr_status job = FAILED ->
      crawlWebsite URL_hostname pf url
        (SubmitResponds true statusText (Some jobId))
        (PollResponds true (Some job) :: answers) = mock)
  /\ (forall statusText jobId answers,
      (MAX_POLLING_ATTEMPTS <= List.length answers)%nat ->
      Forall in_flight answers ->
      crawlWebsite URL_hostname pf url
        (SubmitResponds true statusText (Some jobId)) answers = mock)
  /\ (forall statusText jobId job data answers,
      jr_status job = COMPLETED -> jr_result job = Some data ->
      title data = None ->
      crawlWebsite URL_hostname pf url
        (SubmitResponds true statusText (Some jobId))
        (PollResponds true (Some job) :: answers) = mock).
Proof.
  cbv zeta. split; [|split; [|split; [|split; [|split]]]]; intros.
  - reflexivity.
  - reflexivity.
  - reflexivity.
  - unfold crawlWebsite. simpl. rewrite H. reflexivity.
  - unfold crawlWebsite. simpl try_block.
    now rewrite poll_loop_times_out.
  - unfold crawlWebsite. simpl. rewrite H, H0.
    unfold processRealData. rewrite H1. reflexivity.
Qed.

(** C7.  After an accepted submission, where the status endpoint answers
    every request with a response that is not [ok], the promise of
    [crawlWebsite] is still unsettled after [n] answers, for every [n]:
    no error reaches the caller, and no audit either. *)
Theorem crawlWebsite_unsettled_while_not_ok
    (URL_hostname : string -> option string) (pf : Platform) (url : string)
    (statusText jobId : string) (n : nat) :
  crawlWebsite URL_hostname pf url
    (SubmitResponds true statusText (Some jobId)) (repeat not_ok n)
  = Unsettled.
Proof.
  unfold crawlWebsite. simpl try_block.
  rewrite poll_loop_not_ok_from by (unfold MAX_POLLING_ATTEMPTS; simpl; lia).
  reflexivity.
Qed.

End AssemblerFacts.

(* ===================================================================== *)
(** ** Facts about the job engine *)
(* ===================================================================== *)

Module JobEngineFacts.
Import JobEngine.

(** *** The trace of one job object *)

Lemma lifecycle_of_app job tr tr' :
  lifecycle_of job (tr ++ tr') = lifecycle_of job tr ++ lifecycle_of job tr'.
Proof. apply List.filter_app. Qed.

(** *** The state after each turn *)

Lemma post_jobs_state url uuid submitted started st :
  String.length url <> 0%nat ->
  let job := List.length (heap st) in
  fst (post_jobs (Some url) uuid submitted started st)
  = {| heap := alter (fun j => set_startedAt started (set_status PROCESSING j))
                     job (heap st ++ [newJob uuid url submitted]);
       jobStore := <[uuid := job]> (<[uuid := job]> (jobStore st));
       workers := <[job := {| w_jobId := uuid; w_url := url;
                              w_pc := InBrowserSession |}]> (workers st);
       trace := (trace st ++ [StatusWrite job PENDING])
                  ++ [StatusWrite job PROCESSING; PuppeteerLaunch job] |}.
Proof.
  intros Hne. cbv zeta. unfold post_jobs, falsy_url.
  apply Nat.eqb_neq in Hne. rewrite Hne. simpl.
  unfold processJob, enqueue. simpl.
  rewrite lookup_insert_eq. reflexivity.
Qed.

Lemma new_object_lookup (objects : list Job) j f :
  alter f (List.length objects) (objects ++ [j]) !! List.length objects
  = Some (f j).
Proof.
  rewrite list_lookup_alter_eq, lookup_app_r by lia.
  now rewrite Nat.sub_diag.
Qed.

Lemma old_object_lookup (objects : list Job) j f job :
  job <> List.length objects ->
  alter f (List.length objects) (objects ++ [j]) !! job = objects !! job.
Proof.
  intros Hne. rewrite list_lookup_alter_ne by congruence.
  destruct (Nat.lt_ge_cases job (List.length objects)) as [Hlt | Hge].
  - now rewrite lookup_app_l.
  - rewrite (lookup_ge_None_2 objects job) by lia.
    apply lookup_ge_None_2. rewrite length_app. simpl. lia.
Qed.

Lemma post_jobs_consistent url uuid submitted started st :
  consistent st ->
  consistent (fst (post_jobs url uuid submitted started st)).
Proof.
  intros Hst.
  destruct (falsy_url url) eqn:Hf.
  { unfold post_jobs. now rewrite Hf. }
  destruct url as [url|]; [|discriminate]. simpl in Hf.
  apply Nat.eqb_neq in Hf.
  rewrite post_jobs_state by exact Hf.
  intros job. pose proof (Hst job) as Hj. unfold job_inv in *.
  unfold lifecycle in *. simpl.
  destruct (decide (job = List.length (heap st))) as [-> | Hne].
  - rewrite new_object_lookup, lookup_insert_eq. simpl.
    rewrite (lookup_ge_None_2 (heap st)) in Hj by lia.
    destruct (workers st !! List.length (heap st)); [contradiction|].
    rewrite !lifecycle_of_app, Hj. simpl.
    rewrite Nat.eqb_refl. simpl. repeat split; eauto.
  - rewrite old_object_lookup, lookup_insert_ne by congruence.
    rewrite !lifecycle_of_app. simpl.
    assert (E : (List.length (heap st) =? job)%nat = false)
      by (apply Nat.eqb_neq; congruence).
    rewrite E. simpl. rewrite !app_nil_r. exact Hj.
Qed.

Lemma settle_consistent job s now st :
  consistent st -> consistent (processJob_settle job s now st).
Proof.
  intros Hst. unfold processJob_settle.
  destruct (workers st !! job) as [[jobId url []]|] eqn:Hw; try exact Hst.
  pose proof (Hst job) as Hj. unfold job_inv in Hj. rewrite Hw in Hj.
  destruct (heap st !! job) as [j|] eqn:Hh; [|contradiction].
  simpl in Hj. destruct Hj as (Hs & Hstart & Hr & He & Hc & Hl).
  assert (Hgoto : forall job', lifecycle_of job'
                    (if navigated s then [PageGoto job url] else []) = []).
  { intros job'. destruct (navigated s); reflexivity. }
  destruct (session_outcome s) as [message|extractedData];
    destruct (browser_launched s);
    intros job'; unfold job_inv, lifecycle; simpl;
    (destruct (decide (job' = job)) as [-> | Hne];
     [ rewrite list_lookup_alter_eq, Hh, lookup_insert_eq; simpl;
       rewrite !lifecycle_of_app; fold (lifecycle job st);
       rewrite Hl, Hgoto; simpl; rewrite Nat.eqb_refl; simpl;
       refine (ex_intro _ _ (conj _ eq_refl));
       unfold settled_as; simpl; rewrite ?Hr, ?He;
       repeat split; eauto
     | rewrite list_lookup_alter_ne, lookup_insert_ne by congruence;
       rewrite !lifecycle_of_app, Hgoto; simpl;
       assert (E : (job =? job')%nat = false)
         by (apply Nat.eqb_neq; congruence);
       rewrite E; simpl; rewrite ?app_nil_r; apply (Hst job') ]).
Qed.

Lemma finish_consistent job closed st :
  consistent st -> consistent (processJob_finish job closed st).
Proof.
  intros Hst. unfold processJob_finish.
  destruct (workers st !! job) as [[jobId url []]|] eqn:Hw; try exact Hst.
  intros job'. pose proof (Hst job') as Hj. unfold job_inv, lifecycle in *.
  simpl. destruct (decide (job' = job)) as [-> | Hne].
  - rewrite lookup_insert_eq. rewrite Hw in Hj. exact Hj.
  - rewrite lookup_insert_ne by congruence. exact Hj.
Qed.

Lemma cleanup_consistent now st :
  consistent st -> consistent (cleanup now st).
Proof. intros Hst job. exact (Hst job). Qed.

Lemma step_consistent st e : consistent st -> consistent (step st e).
Proof.
  destruct e; simpl.
  - apply post_jobs_consistent.
  - trivial.
  - apply settle_consistent.
  - apply finish_consistent.
  - apply cleanup_consistent.
Qed.

Lemma foldl_step_consistent events : forall st,
  consistent st -> consistent (foldl step st events).
Proof.
  induction events as [|e events IH]; intros st Hst; [exact Hst|].
  simpl. apply IH, step_consistent, Hst.
Qed.

(** Every state between two turns is consistent. *)
Lemma run_consistent events : consistent (run events).
Proof.
  apply foldl_step_consistent. intros job. unfold job_inv. simpl.
  rewrite lookup_empty. destruct job; reflexivity.
Qed.

(** *** The status of a job record *)

Lemma settled_terminal t j : settled_as t j -> terminal t = true.
Proof. intros (_ & _ & H). destruct t; simpl in *; tauto. Qed.

(** What a turn does to the status of an object that exists. *)
Lemma step_status events e job j j' :
  heap (run events) !! job = Some j ->
  heap (step (run events) e) !! job = Some j' ->
  status j' = status j
  \/ (status j = PROCESSING /\ terminal (status j') = true).
Proof.
  intros Hj Hj'. pose proof (run_consistent events job) as Hinv.
  set (st := run events) in *.
  assert (Hsame : heap (step st e) = heap st -> status j' = status j).
  { intros E. rewrite E in Hj'. congruence. }
  destruct e as [url uuid submitted started| |job0 s now|job0 closed|now];
    simpl in *.
  - left. destruct (falsy_url url) eqn:Hf.
    { apply Hsame. unfold post_jobs. now rewrite Hf. }
    destruct url as [url|]; [|discriminate]. simpl in Hf.
    apply Nat.eqb_neq in Hf. rewrite post_jobs_state in Hj' by exact Hf.
    simpl in Hj'. apply lookup_lt_Some in Hj as Hlt.
    rewrite old_object_lookup in Hj' by lia. congruence.
  - left. auto.
  - unfold processJob_settle in *.
    destruct (workers st !! job0) as [[jobId url []]|] eqn:Hw;
      try (left; apply Hsame; reflexivity).
    assert (Hupd : exists f, (forall x, terminal (status (f x)) = true)
                             /\ heap (processJob_settle job0 s now st)
                                = alter f job0 (heap st)).
    { unfold processJob_settle. rewrite Hw.
      destruct (session_outcome s); destruct (browser_launched s);
        eexists; (split; [|reflexivity]); reflexivity. }
    destruct Hupd as (f & Hterm & Hheap).
    unfold processJob_settle in Hheap. rewrite Hw in Hheap.
    rewrite Hheap in Hj'.
    destruct (decide (job = job0)) as [-> | Hne].
    + right. rewrite list_lookup_alter_eq, Hj in Hj'. simpl in Hj'.
      injection Hj' as <-. split; [|apply Hterm].
      unfold job_inv in Hinv. rewrite Hj, Hw in Hinv. simpl in Hinv. tauto.
    + left. rewrite list_lookup_alter_ne in Hj' by congruence. congruence.
  - left. apply Hsame. unfold processJob_finish.
    destruct (workers st !! job0) as [[jobId url []]|]; reflexivity.
  - left. auto.
Qed.

(** C1.  For every job record, in every state the server reaches: the
    status writes and the browser launch that concern the record are, in
    order, a prefix of PENDING, PROCESSING, launch, COMPLETED-or-FAILED,
    so PROCESSING is written before any extraction work, nothing is
    written after a terminal status and no terminal status is written
    without PROCESSING before it; the status the record carries is the one
    written last; a turn leaves the status of an existing record as it is
    or moves it from PROCESSING to COMPLETED or FAILED; and a record that a
    turn creates is PROCESSING with its start time at the end of that turn,
    the browser launch being the last thing recorded for it. *)
Theorem status_lifecycle (events : list Event) (job : ref) :
  (exists t, terminal t = true
             /\ lifecycle job (run events) `prefix_of` full_lifecycle job t)
  /\ (forall j, heap (run events) !! job = Some j ->
                last_status (lifecycle job (run events)) = Some (status j))
  /\ (forall e j j',
        heap (run events) !! job = Some j ->
        heap (step (run events) e) !! job = Some j' ->
        status j' = status j
        \/ (status j = PROCESSING /\ terminal (status j') = true))
  /\ (forall e j',
        heap (run events) !! job = None ->
        heap (step (run events) e) !! job = Some j' ->
        status j' = PROCESSING /\ is_Some (startedAt j')
        /\ lifecycle job (step (run events) e)
           = [StatusWrite job PENDING; StatusWrite job PROCESSING;
              PuppeteerLaunch job]).
Proof.
  pose proof (run_consistent events job) as Hinv. unfold job_inv in Hinv.
  split; [|split; [|split]].
  - destruct (heap (run events) !! job) as [j|];
      destruct (workers (run events) !! job) as [w|]; try contradiction.
    + destruct (w_pc w).
      * destruct Hinv as (_ & _ & _ & _ & _ & ->).
        exists COMPLETED. split; [reflexivity|].
        now exists [StatusWrite job COMPLETED].
      * destruct Hinv as (t & Ht & ->). exists t.
        split; [eapply settled_terminal; eauto | reflexivity].
      * destruct Hinv as (t & Ht & ->). exists t.
        split; [eapply settled_terminal; eauto | reflexivity].
    + rewrite Hinv. exists COMPLETED. split; [reflexivity|].
      apply prefix_nil.
  - intros j Hj. rewrite Hj in Hinv.
    destruct (workers (run events) !! job) as [w|]; [|contradiction].
    destruct (w_pc w).
    + destruct Hinv as (-> & _ & _ & _ & _ & ->). reflexivity.
    + destruct Hinv as (t & (<- & _) & ->). reflexivity.
    + destruct Hinv as (t & (<- & _) & ->). reflexivity.
  - intros e j j'. apply step_status.
  - intros e j' Hnone Hj'.
    pose proof (run_consistent (events ++ [e]) job) as Hinv'.
    unfold run in Hinv'. rewrite foldl_snoc in Hinv'.
    fold (run events) in Hinv'. unfold job_inv in Hinv'.
    rewrite Hj' in Hinv'. rewrite Hnone in Hinv.
    destruct (workers (run events) !! job) as [w|] eqn:Hw; [contradiction|].
    destruct e as [url uuid submitted started| |job0 s now|job0 closed|now];
      simpl in *; try congruence.
    + destruct (falsy_url url) eqn:Hf.
      { unfold post_jobs in Hj'. rewrite Hf in Hj'. simpl in Hj'. congruence. }
      destruct url as [url|]; [|discriminate]. simpl in Hf.
      apply Nat.eqb_neq in Hf. rewrite post_jobs_state in * by exact Hf.
      simpl in *. apply lookup_ge_None_1 in Hnone.
      apply lookup_lt_Some in Hj'. rewrite length_alter, length_app in Hj'.
      simpl in Hj'. assert (job = List.length (heap (run events))) as -> by lia.
      rewrite lookup_insert_eq in Hinv'. simpl in Hinv'. tauto.
    + unfold processJob_settle in Hj'.
      destruct (workers (run events) !! job0) as [[jobId url []]|] eqn:Hw0;
        try congruence.
      assert (Hlen : (job < List.length (heap (processJob_settle job0 s now (run events))))%nat).
      { unfold processJob_settle. rewrite Hw0.
        apply lookup_lt_Some with (x := j').
        destruct (session_outcome s); destruct (browser_launched s);
          exact Hj'. }
      apply lookup_ge_None_1 in Hnone.
      unfold processJob_settle in Hlen. rewrite Hw0 in Hlen.
      destruct (session_outcome s); destruct (browser_launched s);
        simpl in Hlen; rewrite length_alter in Hlen; lia.
    + unfold processJob_finish in Hj'.
      destruct (workers (run events) !! job0) as [[jobId url []]|];
        simpl in Hj'; congruence.
Qed.

Lemma status_lifecycle_witness :
  let before := [PostJobs (Some "https://example.com") sample_uuid 1000 1001] in
  let e := SessionEnds 0%nat (GotoResponds true 200 (inr sample_page)) 1800 in
  (exists j, heap (run before) !! 0%nat = Some j /\ status j = PROCESSING)
  /\ (exists j', heap (step (run before) e) !! 0%nat = Some j'
                 /\ status j' = COMPLETED)
  /\ last_status (lifecycle 0%nat (run before)) = Some PROCESSING
  /\ lifecycle 0%nat (run before)
     = [StatusWrite 0%nat PENDING; StatusWrite 0%nat PROCESSING;
        PuppeteerLaunch 0%nat].
Proof.
  cbv zeta.
  destruct (status_lifecycle
              [PostJobs (Some "https://example.com") sample_uuid 1000 1001]
              0%nat) as (_ & Hlast & Hstep & _).
  destruct (status_lifecycle [] 0%nat) as (_ & _ & _ & Hnew).
  split; [eexists; split; reflexivity|].
  split; [eexists; split; reflexivity|].
  split.
  - exact (Hlast _ eq_refl).
  - exact (proj2 (proj2 (Hnew (PostJobs (Some "https://example.com")
                                        sample_uuid 1000 1001)
                              _ eq_refl eq_refl))).
Defined.

(** *** Result and error *)

Lemma consistent_faces st job j :
  consistent st -> heap st !! job = Some j ->
  result_iff_completed j
  /\ (status j = COMPLETED -> is_Some (result j) /\ error j = None)
  /\ (status j = FAILED -> is_Some (error j) /\ result j = None)
  /\ status j <> PENDING.
Proof.
  intros Hst Hj. pose proof (Hst job) as Hinv. unfold job_inv in Hinv.
  rewrite Hj in Hinv.
  destruct (workers st !! job) as [w|]; [|contradiction].
  assert (Hsettled : (exists t, settled_as t j /\
                         lifecycle job st = full_lifecycle job t) ->
    result_iff_completed j
    /\ (status j = COMPLETED -> is_Some (result j) /\ error j = None)
    /\ (status j = FAILED -> is_Some (error j) /\ result j = None)
    /\ status j <> PENDING).
  { intros (t & (Ht & _ & Hface) & _). unfold result_iff_completed.
    destruct t; try contradiction; destruct Hface as [Hsome Hnone];
      rewrite Ht, Hnone; repeat split; intros; try congruence; auto;
      try (exfalso; eapply is_Some_None; eassumption). }
  destruct (w_pc w); [|exact (Hsettled Hinv)..].
  destruct Hinv as (Hs & _ & Hr & He & _). unfold result_iff_completed.
  rewrite Hs, Hr, He. repeat split; intros; try congruence;
    exfalso; eapply is_Some_None; eassumption.
Qed.

Lemma get_job_lookup jobId st j :
  get_job jobId st = Ok j ->
  exists job, jobStore st !! jobId = Some job /\ heap st !! job = Some j.
Proof.
  unfold get_job. destruct (jobStore st !! jobId) as [job|]; [|discriminate].
  destruct (heap st !! job) as [j0|] eqn:Hh; [|discriminate].
  intros [= <-]. eauto.
Qed.

Lemma newJob_faces uuid url now : result_iff_completed (newJob uuid url now).
Proof.
  unfold result_iff_completed. simpl.
  repeat split; intros H; try discriminate;
    exfalso; eapply is_Some_None; eassumption.
Qed.

Lemma enqueue_faces st uuid url now job j :
  consistent st ->
  heap (enqueue uuid url now st) !! job = Some j ->
  result_iff_completed j.
Proof.
  intros Hst H. simpl in H.
  destruct (Nat.lt_ge_cases job (List.length (heap st))) as [Hlt|Hge].
  - rewrite lookup_app_l in H by exact Hlt.
    now destruct (consistent_faces _ _ _ Hst H).
  - rewrite lookup_app_r in H by exact Hge.
    destruct (job - List.length (heap st))%nat as [|k];
      simpl in H; [|discriminate].
    injection H as <-. apply newJob_faces.
Qed.

(** C2.  In every state the server reaches, every job record (every one
    the status endpoint can serve, in particular) has a non-null result
    exactly when its status is COMPLETED and a non-null error exactly when
    its status is FAILED: a completed job has a result and a null error, a
    failed job an error and a null result.  The same holds at the moment a
    new record has been filed and the worker has not yet run, when the new
    record is PENDING with null result and null error. *)
Theorem result_error_iff_status (events : list Event) :
  (forall job j,
      heap (run events) !! job = Some j ->
      result_iff_completed j
      /\ (status j = COMPLETED -> is_Some (result j) /\ error j = None)
      /\ (status j = FAILED -> is_Some (error j) /\ result j = None))
  /\ (forall jobId j,
        get_job jobId (run events) = Ok j -> result_iff_completed j)
  /\ (forall uuid url now,
        let st := enqueue uuid url now (run events) in
        get_job uuid st = Ok (newJob uuid url now)
        /\ status (newJob uuid url now) = PENDING
        /\ result (newJob uuid url now) = None
        /\ error (newJob uuid url now) = None
        /\ forall job j, heap st !! job = Some j -> result_iff_completed j).
Proof.
  pose proof (run_consistent events) as Hst.
  split; [|split].
  - intros job j Hj.
    destruct (consistent_faces _ _ _ Hst Hj) as (H1 & H2 & H3 & _). auto.
  - intros jobId j Hget.
    destruct (get_job_lookup _ _ _ Hget) as (job & _ & Hj).
    now destruct (consistent_faces _ _ _ Hst Hj).
  - intros uuid url now. cbv zeta.
    split; [|split; [|split; [|split]]]; try reflexivity.
    + unfold get_job, enqueue. simpl. rewrite lookup_insert_eq.
      rewrite lookup_app_r, Nat.sub_diag by lia. reflexivity.
    + intros job j. now apply enqueue_faces.
Qed.

Lemma result_error_iff_status_witness :
  exists j,
    get_job sample_uuid (run (sample_run 1000 1001 1800)) = Ok j
    /\ status j = COMPLETED
    /\ is_Some (result j) /\ error j = None
    /\ result_iff_completed j.
Proof.
  destruct (result_error_iff_status (sample_run 1000 1001 1800))
    as (Hheap & Hget & _).
  eexists. split; [reflexivity|]. split; [reflexivity|].
  destruct (Hheap 0%nat _ eq_refl) as (_ & Hc & _).
  destruct (Hc eq_refl) as [Hr He].
  split; [exact Hr|]. split; [exact He|].
  exact (Hget sample_uuid _ eq_refl).
Defined.

(** *** The cleanup routine *)

Lemma cleanup_fold_lookup now objects id : forall entries store,
  foldl (cleanup_entry now objects) store entries !! id
  = if existsb (fun e : string * ref =>
                  String.eqb e.1 id && swept now objects e.2) entries
    then None else store !! id.
Proof.
  induction entries as [|[id' job] entries IH]; intros store; [reflexivity|].
  simpl. rewrite IH. unfold cleanup_entry, swept. simpl.
  destruct (String.eqb id' id) eqn:E; simpl.
  - apply String.eqb_eq in E. subst id'.
    destruct (objects !! job) as [j|]; [|reflexivity].
    destruct (expired now j); simpl; [|reflexivity].
    rewrite lookup_delete_eq. now destruct (existsb _ entries).
  - apply String.eqb_neq in E.
    destruct (objects !! job) as [j|]; [|reflexivity].
    destruct (expired now j); [|reflexivity].
    now rewrite lookup_delete_ne.
Qed.

Lemma swept_entry now objects (store : gmap string ref) id :
  existsb (fun e : string * ref =>
             String.eqb e.1 id && swept now objects e.2) (map_to_list store)
  = match store !! id with
    | Some job => swept now objects job
    | None => false
    end.
Proof.
  destruct (existsb _ (map_to_list store)) eqn:E.
  - apply existsb_exists in E as ([id' job] & Hin & Hb).
    apply andb_true_iff in Hb as [Hid Hs]. simpl in *.
    apply String.eqb_eq in Hid. subst id'.
    apply list_elem_of_In, elem_of_map_to_list in Hin. now rewrite Hin.
  - destruct (store !! id) as [job|] eqn:Hl; [|reflexivity].
    destruct (swept now objects job) eqn:Hs; [|reflexivity].
    exfalso. apply not_true_iff_false in E. apply E.
    apply existsb_exists. exists (id, job).
    split; [apply list_elem_of_In, elem_of_map_to_list, Hl|].
    simpl. now rewrite String.eqb_refl.
Qed.

Lemma cleanup_lookup now st id :
  jobStore (cleanup now st) !! id
  = match jobStore st !! id with
    | Some job => if swept now (heap st) job then None else Some job
    | None => None
    end.
Proof.
  unfold cleanup. simpl. rewrite cleanup_fold_lookup, swept_entry.
  destruct (jobStore st !! id) as [job|]; [|reflexivity].
  now destruct (swept now (heap st) job).
Qed.

Lemma expired_iff now j :
  expired now j = true
  <-> exists t, completedAt j = Some t /\ t <> 0 /\ now - t > ONE_HOUR.
Proof.
  unfold expired. destruct (completedAt j) as [t|]; split.
  - intros H. apply andb_true_iff in H as [H0 H1].
    apply negb_true_iff, Z.eqb_neq in H0. apply Z.ltb_lt in H1.
    exists t. repeat split; [exact H0 | lia].
  - intros (t' & [= <-] & H0 & H1). apply andb_true_iff. split.
    + now apply negb_true_iff, Z.eqb_neq.
    + apply Z.ltb_lt. lia.
  - discriminate.
  - intros (t' & Habsurd & _). discriminate.
Qed.

(** For a stamp read from the clock the truthiness test of the guard is
    the test that the stamp is set. *)
Lemma expired_after_epoch now j :
  after_epoch j ->
  (expired now j = true
   <-> exists t, completedAt j = Some t /\ now - t > ONE_HOUR).
Proof.
  intros Hreal. rewrite expired_iff. split.
  - intros (t & Hc & _ & Hold). eauto.
  - intros (t & Hc & Hold). exists t. specialize (Hreal t Hc).
    repeat split; [exact Hc | lia | exact Hold].
Qed.

(** C3.  One pass of the cleanup routine at time [now], over any store
    and for any entry whose record carries no completion stamp or one
    read from the clock (a time after the epoch): the job records
    themselves are untouched, and the entry is removed exactly when the
    stamp is set and satisfies [now - completedAt > ONE_HOUR]; otherwise
    it stays as it is.  A record without [completedAt] (PENDING or
    PROCESSING) is never removed, whatever its age; a job completed 61
    minutes ago is removed and one completed 59 minutes ago is kept; and
    the pass adds no entry. *)
Theorem cleanup_spec (now : Z) (st : State) (jobId : string) (job : ref)
    (j : Job) :
  jobStore st !! jobId = Some job ->
  heap st !! job = Some j ->
  after_epoch j ->
  heap (cleanup now st) = heap st
  /\ (jobStore (cleanup now st) !! jobId = None
      <-> exists t, completedAt j = Some t /\ now - t > ONE_HOUR)
  /\ (jobStore (cleanup now st) !! jobId = None
      \/ jobStore (cleanup now st) !! jobId = Some job)
  /\ (completedAt j = None -> jobStore (cleanup now st) !! jobId = Some job)
  /\ (completedAt j = Some (now - 61 * 60 * 1000) ->
      jobStore (cleanup now st) !! jobId = None)
  /\ (completedAt j = Some (now - 59 * 60 * 1000) ->
      jobStore (cleanup now st) !! jobId = Some job)
  /\ (forall other, jobStore st !! other = None ->
                    jobStore (cleanup now st) !! other = None).
Proof.
  intros Hs Hh Hreal.
  assert (Hl : jobStore (cleanup now st) !! jobId
               = if expired now j then None else Some job).
  { rewrite cleanup_lookup, Hs. unfold swept. now rewrite Hh. }
  rewrite Hl. split; [reflexivity|].
  split.
  { rewrite <- (expired_after_epoch now j Hreal).
    destruct (expired now j); split; congruence. }
  split; [destruct (expired now j); auto|].
  split.
  { intros Hc. unfold expired. now rewrite Hc. }
  split.
  { intros Hc.
    assert (E : expired now j = true).
    { apply (expired_after_epoch now j Hreal). exists (now - 61 * 60 * 1000).
      split; [exact Hc | unfold ONE_HOUR; lia]. }
    now rewrite E. }
  split.
  { intros Hc. unfold expired. rewrite Hc.
    assert (E : (ONE_HOUR <? now - (now - 59 * 60 * 1000)) = false)
      by (apply Z.ltb_ge; unfold ONE_HOUR; lia).
    now rewrite E, andb_false_r. }
  intros other Ho. now rewrite cleanup_lookup, Ho.
Qed.

Lemma cleanup_spec_witness :
  let st := run (sample_run 1000 1001 1800) in
  let now := 1800 + 61 * 60 * 1000 in
  jobStore st !! sample_uuid = Some 0%nat
  /\ jobStore (cleanup now st) !! sample_uuid = None
  /\ jobStore (cleanup (1800 + 59 * 60 * 1000) st) !! sample_uuid = Some 0%nat.
Proof.
  cbv zeta. split; [vm_compute; reflexivity|]. split.
  - destruct (cleanup_spec (1800 + 61 * 60 * 1000)
                (run (sample_run 1000 1001 1800)) sample_uuid 0%nat
                _ ltac:(vm_compute; reflexivity) eq_refl
                ltac:(intros t [= <-]; lia))
      as (_ & _ & _ & _ & H & _).
    apply H. reflexivity.
  - destruct (cleanup_spec (1800 + 59 * 60 * 1000)
                (run (sample_run 1000 1001 1800)) sample_uuid 0%nat
                _ ltac:(vm_compute; reflexivity) eq_refl
                ltac:(intros t [= <-]; lia))
      as (_ & _ & _ & _ & _ & H & _).
    apply H. reflexivity.
Defined.

(** *** The worker and the URL *)

(** Whatever the text of a non-empty [url], the submission turn ends
    with the browser launch requested for the new record: no check of the
    URL stands between the two. *)
Lemma post_jobs_launches url uuid submitted started st :
  String.length url <> 0%nat ->
  let job := List.length (heap st) in
  trace (fst (post_jobs (Some url) uuid submitted started st))
  = trace st ++ [StatusWrite job PENDING; StatusWrite job PROCESSING;
                 PuppeteerLaunch job]
  /\ snd (post_jobs (Some url) uuid submitted started st)
     = Accepted uuid PENDING "Job queued successfully".
Proof.
  intros Hne. cbv zeta. rewrite post_jobs_state by exact Hne. simpl.
  rewrite <- app_assoc. split; [reflexivity|].
  unfold post_jobs, falsy_url. apply Nat.eqb_neq in Hne. now rewrite Hne.
Qed.

(** The Phase 1 handler does check: a URL the parser refuses is answered
    with 400 and no request is sent. *)
Lemma api_crawl_rejects_malformed_url
    (URL_hostname : string -> option string) {Data} (parseHtml : string -> Data)
    url answer :
  String.length url <> 0%nat ->
  URL_hostname url = None ->
  CrawlBFF.api_crawl URL_hostname parseHtml (Some url) answer
  = ([], CrawlBFF.BadRequest "Invalid URL format").
Proof.
  intros Hne Hbad. unfold CrawlBFF.api_crawl.
  apply Nat.eqb_neq in Hne. now rewrite Hne, Hbad.
Qed.

(** C8.  Submitting the text "not a url": the job is accepted, its record
    goes to PROCESSING and the browser launch is requested in the same
    turn; the worker then navigates to the text as it is, and the job
    fails with the message of the browser, the browser having been
    launched and closed.  No validation of the URL precedes any of it. *)
Theorem processJob_does_not_validate_url :
  let submit := PostJobs (Some "not a url") sample_uuid 1000 1001 in
  let message :=
    "Protocol error (Page.navigate): Cannot navigate to invalid URL" in
  let ends := SessionEnds 0%nat (GotoRejects message) 1500 in
  snd (post_jobs (Some "not a url") sample_uuid 1000 1001 init)
  = Accepted sample_uuid PENDING "Job queued successfully"
  /\ trace (run [submit])
     = [StatusWrite 0%nat PENDING; StatusWrite 0%nat PROCESSING;
        PuppeteerLaunch 0%nat]
  /\ trace (run [submit; ends])
     = [StatusWrite 0%nat PENDING; StatusWrite 0%nat PROCESSING;
        PuppeteerLaunch 0%nat; PageGoto 0%nat "not a url";
        StatusWrite 0%nat FAILED; BrowserClose 0%nat]
  /\ (status <$> heap (run [submit; ends]) !! 0%nat) = Some FAILED
  /\ (error <$> heap (run [submit; ends]) !! 0%nat) = Some (Some message).
Proof. cbv zeta. repeat split; vm_compute; reflexivity. Qed.

(** C10.  For a job identifier that is not in the store, [processJob]
    returns at once and changes nothing: the records, the store, the
    suspended workers and the trace of status writes, browser launches,
    navigations and closes are what they were. *)
Theorem processJob_unknown_job_is_noop
    (jobId url : string) (now : Z) (st : State) :
  jobStore st !! jobId = None ->
  processJob jobId url now st = st.
Proof. intros H. unfold processJob. now rewrite H. Qed.

Lemma processJob_unknown_job_is_noop_witness :
  let st := run (sample_run 1000 1001 1800) in
  jobStore st !! "no-such-job" = None
  /\ processJob "no-such-job" "https://example.com" 2000 st = st.
Proof.
  cbv zeta.
  assert (H : jobStore (run (sample_run 1000 1001 1800)) !! "no-such-job"
              = None) by (vm_compute; reflexivity).
  split; [exact H|].
  exact (processJob_unknown_job_is_noop "no-such-job" "https://example.com"
           2000 _ H).
Defined.

End JobEngineFacts.

(* ===================================================================== *)
(** ** Facts about the extraction script *)
(* ===================================================================== *)

Module ExtractorFacts.
Import Text Extractor.

Lemma words_ltrim s : words false (ltrim s) = words false s.
Proof.
  induction s as [|c s IH]; [reflexivity|]. simpl.
  destruct (is_ws c) eqn:E; [exact IH|]. simpl. now rewrite E.
Qed.

Lemma blank_words s : blank s = true -> forall b, words b s = 0%nat.
Proof.
  induction s as [|c s IH]; intros H b; [reflexivity|]. simpl in *.
  apply andb_true_iff in H as [-> H]. auto.
Qed.

Lemma rtrim_empty_blank s : rtrim s = EmptyString -> blank s = true.
Proof.
  induction s as [|c s IH]; [reflexivity|]. simpl.
  destruct (rtrim s); [|discriminate].
  destruct (is_ws c); [intros _; now rewrite IH | discriminate].
Qed.

Lemma words_rtrim s : forall b, words b (rtrim s) = words b s.
Proof.
  induction s as [|c s IH]; intros b; [reflexivity|]. simpl.
  destruct (rtrim s) as [|d r] eqn:E.
  - pose proof (blank_words s (rtrim_empty_blank s E)) as Hz.
    destruct (is_ws c) eqn:Ec; simpl; rewrite ?Ec, !Hz; reflexivity.
  - simpl. destruct (is_ws c); now rewrite <- IH.
Qed.

Lemma ltrim_head s c r : ltrim s = String c r -> is_ws c = false.
Proof.
  induction s as [|a s IH]; [discriminate|]. simpl.
  destruct (is_ws a) eqn:E; [exact IH|]. now intros [= <- _].
Qed.

Lemma rtrim_ends_word s :
  rtrim s <> EmptyString -> ends_word (rtrim s) = true.
Proof.
  induction s as [|c s IH]; [intros H; now elim H|]. simpl.
  destruct (rtrim s) as [|d r] eqn:E.
  - destruct (is_ws c) eqn:Ec; [intros H; now elim H|].
    intros _. simpl. now rewrite Ec.
  - intros _. change (ends_word (String d r) = true). now apply IH.
Qed.

Lemma rtrim_head c s :
  is_ws c = false -> exists r, rtrim (String c s) = String c r.
Proof.
  intros E. simpl. destruct (rtrim s); rewrite ?E; eauto.
Qed.

(** In a text that ends inside a word, separators and words alternate. *)
Lemma ws_runs_words s :
  ends_word s = true ->
  ws_runs false s = words true s /\ S (ws_runs true s) = words false s.
Proof.
  induction s as [|c s IH]; [discriminate|]. intros H.
  destruct s as [|d s'].
  - simpl in *. apply negb_true_iff in H. rewrite H. split; reflexivity.
  - change (ends_word (String d s') = true) in H.
    destruct (IH H) as [IH1 IH2].
    change (ws_runs false (String c (String d s')))
      with (if is_ws c then (1 + ws_runs true (String d s'))%nat
            else ws_runs false (String d s')).
    change (ws_runs true (String c (String d s')))
      with (if is_ws c then (0 + ws_runs true (String d s'))%nat
            else ws_runs false (String d s')).
    change (words true (String c (String d s')))
      with (if is_ws c then words false (String d s')
            else (0 + words true (String d s'))%nat).
    change (words false (String c (String d s')))
      with (if is_ws c then words false (String d s')
            else (1 + words true (String d s'))%nat).
    destruct (is_ws c); split; lia.
Qed.

(** [text.trim().split(/\s+/).length] counts the words of a text, and
    counts one for a text without words. *)
Lemma split_trim_words s :
  split_ws_length (trim s) = Nat.max 1 (words false s).
Proof.
  unfold split_ws_length, trim.
  rewrite <- (words_ltrim s), <- (words_rtrim (ltrim s) false).
  destruct (ltrim s) as [|c r] eqn:El; [reflexivity|].
  pose proof (ltrim_head _ _ _ El) as Ec.
  destruct (rtrim_head c r Ec) as [r' Er]. rewrite Er.
  assert (Hend : ends_word (String c r') = true).
  { rewrite <- Er. apply rtrim_ends_word. rewrite Er. discriminate. }
  destruct (ws_runs_words _ Hend) as [H1 _].
  rewrite H1. simpl. rewrite Ec. simpl. lia.
Qed.

Lemma filter_shorter {A} (f : A -> bool) (l : list A) :
  (List.length (List.filter f l) <= List.length l)%nat.
Proof.
  induction l as [|x l IH]; [reflexivity|]. simpl.
  destruct (f x); simpl; lia.
Qed.

(** X1.  What the extraction script reports is consistent, whatever the
    document: the images without alternative text are no more than the
    images, the internal links no more than the links, the headings no more
    than the [h1] elements, every heading reported is the trimmed text of
    one of them and is not empty, and the word count is at least 1. *)
Theorem evaluate_counts (d : Document) :
  let data := evaluate d in
  0 <= JobEngine.missingAltCount data <= JobEngine.imgCount data
  /\ 0 <= JobEngine.internalLinkCount data <= JobEngine.linkCount data
  /\ (List.length (JobEngine.h1s data) <= List.length (h1_innerText d))%nat
  /\ (forall h, In h (JobEngine.h1s data) ->
        h <> EmptyString /\ exists raw, In raw (h1_innerText d) /\ h = trim raw)
  /\ 1 <= JobEngine.wordCount data.
Proof.
  cbv zeta. unfold evaluate. simpl.
  split; [|split; [|split; [|split]]].
  - unfold missingAlt. pose proof (filter_shorter alt_missing (img_alt d)). lia.
  - unfold internalLinks.
    pose proof (filter_shorter
                  (fun href => JS.includes href (location_hostname d))
                  (a_href d)). lia.
  - unfold h1s. etransitivity; [apply filter_shorter|].
    now rewrite length_map.
  - unfold h1s. intros h Hin. apply filter_In in Hin as [Hin Hlen].
    apply in_map_iff in Hin as (raw & <- & Hraw). split.
    + intros E. rewrite E in Hlen. discriminate.
    + eauto.
  - unfold wordCount, split_ws_length. lia.
Qed.

Lemma evaluate_counts_witness :
  exists raw, In raw (h1_innerText sample_document)
              /\ "Example Domain" = trim raw.
Proof.
  destruct (evaluate_counts sample_document) as (_ & _ & _ & H & _).
  apply (H "Example Domain"). left. reflexivity.
Defined.

(** X2.  The word count the script reports is the number of words of the
    body text, its maximal runs of units that are not whitespace, except
    that a body without any word (empty or all whitespace) counts as one
    word. *)
Theorem wordCount_counts_words (d : Document) :
  JobEngine.wordCount (evaluate d)
  = Z.of_nat (Nat.max 1 (words false (body_innerText d)))
  /\ (blank (body_innerText d) = true -> JobEngine.wordCount (evaluate d) = 1)
  /\ (blank (body_innerText d) = false ->
      JobEngine.wordCount (evaluate d)
      = Z.of_nat (words false (body_innerText d))).
Proof.
  unfold evaluate. simpl. unfold wordCount.
  rewrite split_trim_words.
  split; [reflexivity|]. split.
  - intros Hb. now rewrite (blank_words _ Hb).
  - intros Hb.
    assert (H : (1 <= words false (body_innerText d))%nat).
    { induction (body_innerText d) as [|c s IH]; [discriminate|].
      simpl in *. destruct (is_ws c); simpl in *; [auto | lia]. }
    f_equal. lia.
Qed.

Lemma wordCount_counts_words_witness :
  JobEngine.wordCount (evaluate sample_document) = 2.
Proof.
  destruct (wordCount_counts_words sample_document) as (_ & _ & H).
  rewrite H; reflexivity.
Defined.

End ExtractorFacts.

(* ===================================================================== *)
(** ** More facts about the scoring engine *)
(* ===================================================================== *)

Module ScoringMore.
Import Scoring.

(** *** The image rubric *)

Lemma imageScore_no_images imgCount missingAltCount :
  imgCount <= 0 -> imageScore imgCount missingAltCount = 100.
Proof.
  intros H. unfold imageScore.
  assert (E : (0 <? imgCount) = false) by (apply Z.ltb_ge; lia).
  now rewrite E.
Qed.

Lemma Math_round_mono x y : (x <= y)%Q -> JS.Math_round x <= JS.Math_round y.
Proof. intros H. unfold JS.Math_round. apply Qfloor_resp_le. lra. Qed.

Lemma Math_round_compat x y : (x == y)%Q -> JS.Math_round x = JS.Math_round y.
Proof. intros H. unfold JS.Math_round. apply Qfloor_comp. now rewrite H. Qed.

Lemma inject_Z_pos n : 0 < n -> (0 < inject_Z n)%Q.
Proof. intros H. unfold Qlt. simpl. lia. Qed.

(** The percentage before [Math.round]: three operations on doubles. *)
Lemma imageScore_percent n m :
  0 < n ->
  imageScore n m
  = JS.Math_round
      (Double.mul 100 (Double.sub 1 (Double.div (inject_Z m) (inject_Z n)))).
Proof.
  intros Hn. unfold imageScore.
  assert (E : (0 <? n) = true) by (apply Z.ltb_lt; lia).
  now rewrite E.
Qed.

Lemma percent_mono n m m' :
  0 < n -> m <= m' ->
  (Double.mul 100 (Double.sub 1 (Double.div (inject_Z m') (inject_Z n)))
   <= Double.mul 100 (Double.sub 1 (Double.div (inject_Z m) (inject_Z n))))%Q.
Proof.
  intros Hn Hm. unfold Double.mul, Double.sub, Double.div.
  assert (Hr : (Double.round (inject_Z m / inject_Z n)
                <= Double.round (inject_Z m' / inject_Z n))%Q).
  { apply DoubleFacts.round_mono.
    apply Qmult_le_compat_r; [now rewrite <- Zle_Qle|].
    apply Qlt_le_weak, Qinv_lt_0_compat, inject_Z_pos, Hn. }
  apply DoubleFacts.round_mono.
  assert (Hs : (Double.round (1 - Double.round (inject_Z m' / inject_Z n))
                <= Double.round (1 - Double.round (inject_Z m / inject_Z n)))%Q)
    by (apply DoubleFacts.round_mono; lra).
  lra.
Qed.

Lemma percent_range n m :
  0 < n -> 0 <= m <= n ->
  (0 <= Double.mul 100 (Double.sub 1 (Double.div (inject_Z m) (inject_Z n))))%Q
  /\ (Double.mul 100 (Double.sub 1 (Double.div (inject_Z m) (inject_Z n)))
      <= 100)%Q.
Proof.
  intros Hn Hm. unfold Double.mul, Double.sub, Double.div.
  pose proof (inject_Z_pos n Hn) as Hnq.
  destruct (DoubleFacts.round_range 0 1 (inject_Z m / inject_Z n)
              DoubleFacts.round_0 DoubleFacts.round_1) as [R1 R2].
  { apply Qle_shift_div_l; [exact Hnq|]. rewrite Qmult_0_l.
    change 0%Q with (inject_Z 0). rewrite <- Zle_Qle. lia. }
  { apply Qle_shift_div_r; [exact Hnq|]. rewrite Qmult_1_l.
    rewrite <- Zle_Qle. lia. }
  destruct (DoubleFacts.round_range 0 1
              (1 - Double.round (inject_Z m / inject_Z n))
              DoubleFacts.round_0 DoubleFacts.round_1) as [S1 S2];
    [lra | lra |].
  apply (DoubleFacts.round_range 0 100);
    [exact DoubleFacts.round_0 | exact DoubleFacts.round_100 | lra | lra].
Qed.

Lemma percent_none n :
  0 < n ->
  (Double.mul 100 (Double.sub 1 (Double.div (inject_Z 0) (inject_Z n)))
   == 100)%Q.
Proof.
  intros Hn. destruct n as [|p|p]; try lia. reflexivity.
Qed.

Lemma percent_all n :
  0 < n ->
  (Double.mul 100 (Double.sub 1 (Double.div (inject_Z n) (inject_Z n)))
   == 0)%Q.
Proof.
  intros Hn. unfold Double.mul, Double.sub, Double.div.
  pose proof (inject_Z_pos n Hn) as Hnq.
  assert (E1 : (Double.round (inject_Z n / inject_Z n) == 1)%Q).
  { rewrite <- DoubleFacts.round_1. apply DoubleFacts.round_compat.
    field. lra. }
  assert (E2 : (Double.round (1 - Double.round (inject_Z n / inject_Z n))
                == 0)%Q).
  { rewrite <- DoubleFacts.round_0. apply DoubleFacts.round_compat.
    rewrite E1. reflexivity. }
  rewrite <- DoubleFacts.round_0. apply DoubleFacts.round_compat.
  rewrite E2. reflexivity.
Qed.

Lemma imageScore_bounds imgCount missingAltCount :
  0 <= missingAltCount <= imgCount ->
  0 <= imageScore imgCount missingAltCount <= 100.
Proof.
  intros Hm. destruct (Z.le_gt_cases imgCount 0) as [Hz|Hn].
  - rewrite imageScore_no_images by exact Hz. lia.
  - rewrite imageScore_percent by exact Hn.
    destruct (percent_range _ _ Hn Hm) as [H0 H100].
    apply Math_round_mono in H0, H100.
    change (JS.Math_round 0) with 0 in H0.
    change (JS.Math_round 100) with 100 in H100. lia.
Qed.

(** The rounding is that of doubles: with 17 of 40 images lacking the
    text the product is 57.49999999999999 and the score 57, where the
    exact 57.5 would round to 58. *)
Lemma imageScore_40_17 :
  imageScore 40 17 = 57
  /\ JS.Math_round (100 * (1 - inject_Z 17 / inject_Z 40)) = 58.
Proof. split; vm_compute; reflexivity. Qed.

(** The three operations agree with the reference implementation of
    binary64 on every payload with up to 48 images. *)
Lemma imageScore_binary64_agrees imgCount missingAltCount :
  In (imgCount, missingAltCount) (image_counts 48) ->
  imageScore imgCount missingAltCount
  = imageScore_binary64 imgCount missingAltCount.
Proof.
  intros Hin.
  assert (H : forallb (fun p => imageScore p.1 p.2 =? imageScore_binary64 p.1 p.2)
                      (image_counts 48) = true) by (vm_compute; reflexivity).
  rewrite forallb_forall in H. apply Z.eqb_eq. exact (H _ Hin).
Qed.

(** X3.  The image score is 100 for a page without images, whatever the
    count of missing alternative texts; for a page with images of which
    between none and all lack the text it lies between 0 and 100, is 100
    when none lacks it and 0 when all do, and does not rise when more
    lack it.  It is rounded as doubles round: 17 of 40 images without the
    text score 57. *)
Theorem imageScore_range (imgCount missingAltCount : Z) :
  (imgCount <= 0 -> imageScore imgCount missingAltCount = 100)
  /\ (0 < imgCount -> 0 <= missingAltCount <= imgCount ->
      0 <= imageScore imgCount missingAltCount <= 100)
  /\ (0 < imgCount ->
      imageScore imgCount 0 = 100 /\ imageScore imgCount imgCount = 0)
  /\ (forall more, 0 < imgCount -> missingAltCount <= more ->
                   imageScore imgCount more
                   <= imageScore imgCount missingAltCount)
  /\ imageScore 40 17 = 57.
Proof.
  split; [apply imageScore_no_images|].
  split; [|split; [|split]].
  - intros _ Hm. now apply imageScore_bounds.
  - intros Hn. rewrite !imageScore_percent by exact Hn. split.
    + now rewrite (Math_round_compat _ _ (percent_none _ Hn)).
    + now rewrite (Math_round_compat _ _ (percent_all _ Hn)).
  - intros more Hn Hle. rewrite !imageScore_percent by exact Hn.
    apply Math_round_mono, percent_mono; assumption.
  - vm_compute. reflexivity.
Qed.

Lemma imageScore_range_witness :
  imageScore 0 7 = 100
  /\ 0 <= imageScore 40 17 <= 100
  /\ imageScore 40 40 = 0
  /\ imageScore 40 18 <= imageScore 40 17.
Proof.
  destruct (imageScore_range 0 7) as (H0 & _).
  destruct (imageScore_range 40 17) as (_ & Hr & _ & Hm & _).
  destruct (imageScore_range 40 40) as (_ & _ & He & _).
  split; [apply H0; lia|]. split; [apply Hr; lia|].
  split; [apply He; lia|]. apply Hm; lia.
Defined.

(** *** The meta description rubric *)

Lemma push_length {A} (l : list A) x :
  List.length (JS.push l x) = S (List.length l).
Proof. unfold JS.push. rewrite length_app. simpl. lia. Qed.

(** X4.  The meta description score is 0 exactly for an empty description;
    for any other it is between 20 and 100, so the clamp at 0 never acts.
    There is exactly one recommendation for an empty description and at
    most three otherwise, and the score is 100 exactly when there is
    none.  The reported length is the length of the description. *)
Theorem analyzeMetaDescription_score_range (content keyword : string) :
  let tag := analyzeMetaDescription content keyword in
  (mt_score tag = 0 <-> content = EmptyString)
  /\ (content <> EmptyString -> 20 <= mt_score tag <= 100)
  /\ (content = EmptyString -> List.length (mt_recommendations tag) = 1%nat)
  /\ (List.length (mt_recommendations tag) <= 3)%nat
  /\ (mt_score tag = 100 <-> mt_recommendations tag = [])
  /\ mt_length tag = Z.of_nat (String.length content).
Proof.
  cbv zeta. unfold analyzeMetaDescription.
  destruct content as [|c content].
  { simpl. split; [split; intros; reflexivity|].
    split; [intros H; now contradiction H|].
    split; [reflexivity|]. split; [lia|].
    split; [split; discriminate | reflexivity]. }
  set (s := String c content).
  assert (Hlen : (String.length s =? 0)%nat = false) by reflexivity.
  rewrite Hlen.
  destruct (String.length s <? 120)%nat eqn:E1;
    destruct (165 <? String.length s)%nat eqn:E2;
    try (apply Nat.ltb_lt in E1; apply Nat.ltb_lt in E2; lia);
    destruct (JS.includes (JS.toLowerCase s) (JS.toLowerCase keyword));
    destruct (0 <? String.length keyword)%nat;
    destruct (JS.some _ ctaWords); simpl;
    (split; [split; [intros H; lia | discriminate]|]);
    (split; [intros _; lia|]);
    (split; [discriminate|]);
    (split; [lia|]);
    (split; [split; [intros H; first [reflexivity | lia]
                    | intros H; first [reflexivity | discriminate]]
            | reflexivity]).
Qed.

Lemma analyzeMetaDescription_score_range_witness :
  20 <= mt_score (analyzeMetaDescription fifty "example") <= 100
  /\ List.length (mt_recommendations (analyzeMetaDescription EmptyString "example"))
     = 1%nat.
Proof.
  destruct (analyzeMetaDescription_score_range fifty "example")
    as (_ & H & _).
  destruct (analyzeMetaDescription_score_range EmptyString "example")
    as (_ & _ & H1 & _).
  split; [apply H; discriminate | apply H1; reflexivity].
Defined.

(** *** Upper and lower case *)

(** Texts that differ in the case of their letters at most have the same
    length and the same lower case. *)
Lemma equal_ci_length s : forall t,
  Spec.equal_ci s t = true -> String.length s = String.length t.
Proof.
  induction s as [|a s IH]; intros [|b t] H; try discriminate; [reflexivity|].
  simpl in H. apply andb_true_iff in H as [_ H]. simpl. f_equal. auto.
Qed.

Lemma equal_ci_toLowerCase s : forall t,
  Spec.equal_ci s t = true -> JS.toLowerCase s = JS.toLowerCase t.
Proof.
  induction s as [|a s IH]; intros [|b t] H; try discriminate; [reflexivity|].
  simpl in H. apply andb_true_iff in H as [Hab H]. simpl.
  rewrite <- ScoringFacts.lower_unit_same_letter in Hab.
  apply Ascii.eqb_eq in Hab. rewrite Hab. f_equal. auto.
Qed.

(** X5.  The analysis does not see the case of the letters, in the
    description or in the keyword: for two descriptions and two keywords
    that differ in case at most, the score, both flags, the reported
    length and the number of recommendations are the same, and with the
    same keyword the recommendations are the same texts.  Case is that of
    text whose code units lie below 256 (ASCII and Latin-1), where
    [toLowerCase] works unit by unit. *)
Theorem analyzeMetaDescription_ignores_case
    (content content' keyword keyword' : string) :
  Spec.equal_ci content content' = true ->
  Spec.equal_ci keyword keyword' = true ->
  let tag := analyzeMetaDescription content keyword in
  let tag' := analyzeMetaDescription content' keyword' in
  mt_score tag' = mt_score tag
  /\ mt_hasKeyword tag' = mt_hasKeyword tag
  /\ mt_hasCTA tag' = mt_hasCTA tag
  /\ mt_length tag' = mt_length tag
  /\ List.length (mt_recommendations tag')
     = List.length (mt_recommendations tag)
  /\ (keyword' = keyword -> mt_recommendations tag' = mt_recommendations tag).
Proof.
  intros Hc Hk. cbv zeta. unfold analyzeMetaDescription.
  rewrite <- (equal_ci_toLowerCase _ _ Hc), <- (equal_ci_toLowerCase _ _ Hk),
    <- (equal_ci_length _ _ Hc), <- (equal_ci_length _ _ Hk).
  destruct (String.length content =? 0)%nat;
    [repeat split; reflexivity|].
  destruct (String.length content <? 120)%nat;
    destruct (165 <? String.length content)%nat;
    destruct (JS.includes (JS.toLowerCase content) (JS.toLowerCase keyword));
    destruct (0 <? String.length keyword)%nat;
    destruct (JS.some _ ctaWords); simpl;
    (split; [reflexivity|]); (split; [reflexivity|]);
    (split; [reflexivity|]); (split; [reflexivity|]);
    (split; [rewrite ?push_length; reflexivity|]);
    intros ->; reflexivity.
Qed.

Lemma analyzeMetaDescription_ignores_case_witness :
  mt_score (analyzeMetaDescription hundred_forty_capitals "eXample")
  = mt_score (analyzeMetaDescription hundred_forty "example")
  /\ mt_hasCTA (analyzeMetaDescription hundred_forty_capitals "eXample")
     = Some true.
Proof.
  destruct (analyzeMetaDescription_ignores_case hundred_forty
              hundred_forty_capitals "example" "eXample" eq_refl eq_refl)
    as (Hs & _ & Hc & _).
  split; [exact Hs|]. rewrite Hc. reflexivity.
Defined.

(** *** [processRealData] *)

(** X6.  [processRealData] throws exactly when the payload lacks its title
    or its list of headings.  A payload without description, or with an
    empty one, is analysed as an empty description: score 0 and the one
    recommendation that the description is missing. *)
Theorem processRealData_throws_iff
    (URL_hostname : string -> option string) (pf : Platform) (url : string)
    (data : RawData) :
  (processRealData URL_hostname pf url data = inl tt
   <-> title data = None \/ h1s data = None)
  /\ (forall audit,
        processRealData URL_hostname pf url data = inr audit ->
        description data = None \/ description data = Some EmptyString ->
        mt_score (mdescription (metaTags (technical audit))) = 0
        /\ mt_recommendations (mdescription (metaTags (technical audit)))
           = [rec_missing]).
Proof.
  unfold processRealData. split.
  - destruct (title data); [|split; auto].
    destruct (h1s data); split; auto; try discriminate.
    intros [H|H]; discriminate.
  - intros audit Hrun Hd.
    destruct (title data); [|discriminate].
    destruct (h1s data); [|discriminate].
    injection Hrun as <-. simpl.
    destruct Hd as [-> | ->]; split; reflexivity.
Qed.

Lemma processRealData_throws_iff_witness :
  exists audit,
    processRealData sample_hostname sample_platform "https://example.com"
                    sample_data = inr audit
    /\ mt_score (mdescription (metaTags (technical audit))) = 0.
Proof.
  eexists. split; [reflexivity|].
  destruct (processRealData_throws_iff sample_hostname sample_platform
              "https://example.com" sample_data) as [_ H].
  destruct (H _ eq_refl ltac:(right; reflexivity)) as [Hs _]. exact Hs.
Defined.

(** X7.  The title of the audit is the title of the payload with its
    length; its score is 100 exactly when the length lies between 30 and 60
    and 50 otherwise; a title that scores 100 has no recommendation, any
    other has exactly one, "too short" below 30 and "too long" above 60. *)
Theorem processRealData_title
    (URL_hostname : string -> option string) (pf : Platform) (url : string)
    (data : RawData) (audit : WebsiteAudit) (text : string) :
  processRealData URL_hostname pf url data = inr audit ->
  title data = Some text ->
  let t := mtitle (metaTags (technical audit)) in
  let n := String.length text in
  mt_content t = text /\ mt_length t = Z.of_nat n
  /\ (mt_score t = 100 <-> (30 <= n <= 60)%nat)
  /\ (mt_score t = 100 \/ mt_score t = 50)
  /\ (mt_score t = 100 <-> mt_recommendations t = [])
  /\ ((n < 30)%nat ->
      mt_recommendations t = ["Title is too short (recommended 30-60 chars)"])
  /\ ((60 < n)%nat ->
      mt_recommendations t = ["Title is too long (recommended 30-60 chars)"]).
Proof.
  intros Hrun Ht. unfold processRealData in Hrun. rewrite Ht in Hrun.
  destruct (h1s data); [|discriminate].
  cbv zeta. revert Hrun.
  destruct (30 <=? String.length text)%nat eqn:E1;
    destruct (String.length text <=? 60)%nat eqn:E2;
    destruct (String.length text <? 30)%nat eqn:E3;
    destruct (60 <? String.length text)%nat eqn:E4;
    intros [= <-];
    repeat match goal with
           | H : (_ <=? _)%nat = true |- _ => apply Nat.leb_le in H
           | H : (_ <=? _)%nat = false |- _ => apply Nat.leb_gt in H
           | H : (_ <? _)%nat = true |- _ => apply Nat.ltb_lt in H
           | H : (_ <? _)%nat = false |- _ => apply Nat.ltb_ge in H
           end; try lia; simpl;
    (split; [reflexivity|]); (split; [reflexivity|]);
    (split; [split; intros; first [reflexivity | lia | discriminate]|]);
    (split; [auto|]);
    (split; [split; intros; first [reflexivity | discriminate]|]);
    split; intros; first [reflexivity | lia].
Qed.

Lemma processRealData_title_witness :
  exists audit,
    processRealData sample_hostname sample_platform "https://example.com"
                    sample_data = inr audit
    /\ mt_score (mtitle (metaTags (technical audit))) = 50
    /\ mt_recommendations (mtitle (metaTags (technical audit)))
       = ["Title is too short (recommended 30-60 chars)"].
Proof.
  eexists. split; [reflexivity|].
  destruct (processRealData_title sample_hostname sample_platform
              "https://example.com" sample_data _ "Example Domain"
              eq_refl eq_refl) as (_ & _ & _ & _ & _ & Hshort & _).
  split; [reflexivity|]. apply Hshort. simpl. lia.
Defined.

Lemma meta_score_bounds content keyword :
  0 <= mt_score (analyzeMetaDescription content keyword) <= 100.
Proof.
  unfold analyzeMetaDescription.
  destruct (String.length content =? 0)%nat; [simpl; lia|].
  destruct (String.length content <? 120)%nat;
    destruct (165 <? String.length content)%nat;
    destruct (JS.includes (JS.toLowerCase content) (JS.toLowerCase keyword));
    destruct (0 <? String.length keyword)%nat;
    destruct (JS.some _ ctaWords); simpl; lia.
Qed.

Lemma performanceScore_bounds loadTime : 30 <= performanceScore loadTime <= 100.
Proof.
  rewrite ScoringFacts.performanceScore_ms.
  destruct (6000 <? loadTime), (4000 <? loadTime), (2500 <? loadTime); lia.
Qed.

(** X8.  For a payload whose count of images without alternative text
    lies between 0 and the count of images, the four aggregate scores of
    the audit lie within 0 and 100: the overall score between 27 and 95,
    the technical score between 43 and 100, the on-page score between 43
    and 93, and the content score is 70. *)
Theorem processRealData_score_bounds
    (URL_hostname : string -> option string) (pf : Platform) (url : string)
    (data : RawData) (audit : WebsiteAudit) :
  processRealData URL_hostname pf url data = inr audit ->
  0 <= missingAltCount data <= imgCount data ->
  27 <= overall (scores audit) <= 95
  /\ 43 <= sc_technical (scores audit) <= 100
  /\ 43 <= sc_onPage (scores audit) <= 93
  /\ sc_content (scores audit) = 70
  /\ 0 <= img_score (images (onPage audit)) <= 100.
Proof.
  intros Hrun Hm. unfold processRealData in Hrun.
  destruct (title data); [|discriminate].
  destruct (h1s data) as [hs|]; [|discriminate].
  injection Hrun as <-. simpl.
  pose proof (performanceScore_bounds (loadTime data)) as Hp.
  pose proof (meta_score_bounds (default EmptyString (description data))
                (JS.split_dot_0 (extractDomain URL_hostname url))) as Hd.
  pose proof (imageScore_bounds _ _ Hm) as Hi.
  destruct (List.length hs =? 1)%nat; repeat split;
    try lia; Z.div_mod_to_equations; lia.
Qed.

Lemma processRealData_score_bounds_witness :
  exists audit,
    processRealData sample_hostname sample_platform "https://example.com"
                    sample_gallery = inr audit
    /\ img_score (images (onPage audit)) = 57
    /\ 27 <= overall (scores audit) <= 95.
Proof.
  eexists. split; [reflexivity|]. split; [vm_compute; reflexivity|].
  destruct (processRealData_score_bounds sample_hostname sample_platform
              "https://example.com" sample_gallery _ eq_refl
              ltac:(simpl; lia)) as (H & _).
  exact H.
Defined.

(** *** The domain keyword *)

Lemma split_dot_0_prefix s :
  exists rest, s = JS.split_dot_0 s +:+ rest
               /\ (rest = EmptyString \/ exists r, rest = String "."%char r).
Proof.
  induction s as [|c s (rest & IH & Hrest)].
  - exists EmptyString. split; [reflexivity | now left].
  - simpl. destruct (Ascii.eqb c ".") eqn:E.
    + apply Ascii.eqb_eq in E. subst c. exists (String "."%char s).
      split; [reflexivity | right; eauto].
    + exists rest. split; [|exact Hrest].
      change (String c s = String c (JS.split_dot_0 s +:+ rest)).
      now f_equal.
Qed.

Lemma split_dot_0_no_dot s : JS.includes (JS.split_dot_0 s) "." = false.
Proof.
  induction s as [|c s IH]; [reflexivity|]. simpl.
  destruct (Ascii.eqb c ".") eqn:E; [reflexivity|].
  simpl. now rewrite E, IH.
Qed.

Lemma split_dot_0_id s : JS.includes s "." = false -> JS.split_dot_0 s = s.
Proof.
  induction s as [|c s IH]; [reflexivity|]. simpl.
  destruct (Ascii.eqb c ".") eqn:E.
  - destruct s; discriminate.
  - intros H. now rewrite IH.
Qed.

(** X9.  The domain is the host name of the URL, and the URL itself when it
    does not parse.  The domain keyword is the part of the domain before
    its first dot: it has no dot, the domain continues after it with a dot
    or ends there, and a domain without a dot is its own keyword. *)
Theorem domainKeyword_spec (URL_hostname : string -> option string)
    (url : string) :
  let domain := extractDomain URL_hostname url in
  let keyword := JS.split_dot_0 domain in
  (URL_hostname url = None -> domain = url)
  /\ (forall host, URL_hostname url = Some host -> domain = host)
  /\ (exists rest, domain = keyword +:+ rest
                   /\ (rest = EmptyString \/ exists r, rest = String "."%char r))
  /\ JS.includes keyword "." = false
  /\ (JS.includes domain "." = false -> keyword = domain).
Proof.
  cbv zeta. unfold extractDomain.
  split; [now intros ->|]. split; [now intros host ->|].
  split; [apply split_dot_0_prefix|].
  split; [apply split_dot_0_no_dot | apply split_dot_0_id].
Qed.

Lemma domainKeyword_spec_witness :
  extractDomain sample_hostname "www.example.com/pricing" = "www.example.com/pricing"
  /\ JS.split_dot_0 (extractDomain sample_hostname "https://example.com")
     = "example".
Proof.
  destruct (domainKeyword_spec sample_hostname "www.example.com/pricing")
    as (Hbad & _).
  destruct (domainKeyword_spec sample_hostname "https://example.com")
    as (_ & Hok & _).
  split; [apply Hbad; reflexivity|].
  now rewrite (Hok "example.com" eq_refl).
Defined.

(** *** The simulated audit *)

Lemma mod3_cases (n : Z) : n mod 3 = 0 \/ n mod 3 = 1 \/ n mod 3 = 2.
Proof. pose proof (Z.mod_pos_bound n 3). lia. Qed.

(** X10.  The simulated audit depends on the URL for its speed figures only
    through the length of the URL modulo 3: the desktop score is 88, 78 or
    68, the score of the page speed section is the same, the mobile score
    is 15 less and the LCP is 1.2, 2.2 or 3.2.  The floor of 10 never
    acts. *)
Theorem generateMockAudit_pageSpeed (URL_hostname : string -> option string)
    (pf : Platform) (url : string) :
  let speed := pageSpeed (technical (generateMockAudit URL_hostname pf url)) in
  let m := Z.of_nat (String.length url) mod 3 in
  (desktop speed == inject_Z (88 - 10 * m))%Q
  /\ (mobile speed == inject_Z (73 - 10 * m))%Q
  /\ ps_score speed = desktop speed
  /\ (lcp (cwv speed) == (12 # 10) + inject_Z m)%Q
  /\ 0 <= m <= 2.
Proof.
  cbv zeta. unfold generateMockAudit. simpl.
  destruct (mod3_cases (Z.of_nat (String.length url))) as [-> | [-> | ->]];
    repeat split; try reflexivity; lia.
Qed.

Lemma startsWith_append s b : JS.startsWith (s +:+ b) s = true.
Proof.
  induction s as [|c s IH]; [destruct b; reflexivity|].
  simpl. now rewrite Ascii.eqb_refl.
Qed.

Lemma includes_startsWith x sub :
  JS.startsWith x sub = true -> JS.includes x sub = true.
Proof. intros H. destruct x; simpl in *; now rewrite H. Qed.

Lemma includes_middle a s b : JS.includes (a +:+ s +:+ b) s = true.
Proof.
  induction a as [|c a IH].
  - change (JS.includes (s +:+ b) s = true).
    apply includes_startsWith, startsWith_append.
  - simpl. rewrite IH. apply orb_true_r.
Qed.

Lemma toLowerCase_append a b :
  JS.toLowerCase (a +:+ b) = JS.toLowerCase a +:+ JS.toLowerCase b.
Proof. induction a as [|c a IH]; [reflexivity|]. simpl. now rewrite IH. Qed.

(** X11.  The description of the simulated audit: for a URL whose length is
    a multiple of 3 it names the domain keyword and calls to action, so
    both flags are set and the score is at least 80; for any other URL it
    is the text "Generic description text.", without call to action, and
    scores 20 or 50. *)
Theorem generateMockAudit_description (URL_hostname : string -> option string)
    (pf : Platform) (url : string) :
  let tag := mdescription (metaTags (technical
               (generateMockAudit URL_hostname pf url))) in
  let m := Z.of_nat (String.length url) mod 3 in
  (m = 0 -> mt_hasKeyword tag = Some true /\ mt_hasCTA tag = Some true
            /\ 80 <= mt_score tag <= 100)
  /\ (m <> 0 -> mt_content tag = "Generic description text."
                /\ mt_hasCTA tag = Some false
                /\ (mt_score tag = 20 \/ mt_score tag = 50)).
Proof.
  cbv zeta. unfold generateMockAudit.
  cbn [mdescription metaTags technical].
  set (keyword := JS.split_dot_0 (extractDomain URL_hostname url)).
  split.
  - intros ->. change (0 =? 0) with true. cbv iota.
    set (content := "Discover the best " +:+ keyword
                      +:+ " solutions. Join satisfied customers.").
    assert (Hk : JS.includes (JS.toLowerCase content) (JS.toLowerCase keyword)
                 = true).
    { unfold content. rewrite !toLowerCase_append. apply includes_middle. }
    assert (Hc : JS.some (fun word => JS.includes (JS.toLowerCase content) word)
                         ctaWords = true).
    { apply (ScoringFacts.some_cta_word content "discover").
      - unfold ctaWords. simpl. tauto.
      - unfold content. rewrite toLowerCase_append. simpl JS.toLowerCase at 1.
        reflexivity. }
    unfold analyzeMetaDescription.
    assert (Hne : (String.length content =? 0)%nat = false) by reflexivity.
    rewrite Hne, Hk, Hc.
    destruct (String.length content <? 120)%nat;
      destruct (165 <? String.length content)%nat; simpl;
      repeat split; lia.
  - intros Hm.
    assert (E : (Z.of_nat (String.length url) mod 3 =? 0) = false)
      by now apply Z.eqb_neq.
    rewrite E. unfold analyzeMetaDescription.
    change (String.length "Generic description text." =? 0)%nat with false.
    change (String.length "Generic description text." <? 120)%nat with true.
    cbv iota zeta.
    change (JS.some
              (fun word =>
                 JS.includes (JS.toLowerCase "Generic description text.") word)
              ctaWords) with false.
    destruct (JS.includes _ (JS.toLowerCase keyword));
      destruct (0 <? String.length keyword)%nat; simpl;
      repeat split; auto.
Qed.

Lemma generateMockAudit_description_witness :
  mt_hasKeyword (mdescription (metaTags (technical
     (generateMockAudit sample_hostname sample_platform "https://example.com/a"))))
  = Some true
  /\ mt_score (mdescription (metaTags (technical
       (generateMockAudit sample_hostname sample_platform "https://example.com"))))
     = 20.
Proof.
  destruct (generateMockAudit_description sample_hostname sample_platform
              "https://example.com/a") as [H0 _].
  destruct (H0 eq_refl) as (Hk & _).
  split; [exact Hk | reflexivity].
Defined.

End ScoringMore.

(* ===================================================================== *)
(** ** More facts about the audit assembler *)
(* ===================================================================== *)

Module AssemblerMore.
Import Scoring Assembler.

Section Loop.

Variable URL_hostname : string -> option string.
Variable pf : Platform.
Variable url : string.

Local Abbreviation loop := (poll_loop URL_hostname pf url).

(** What the loop has done when it stops or runs out of answers. *)
Lemma poll_loop_accounting answers : forall ls,
  let ls' := snd (loop ls answers) in
  (attempts ls <= attempts ls')%nat /\ (polls ls <= polls ls')%nat
  /\ (polls ls' - polls ls <= List.length answers)%nat
  /\ (attempts ls' - attempts ls <= polls ls' - polls ls)%nat
  /\ slept ls' - slept ls
     = POLLING_INTERVAL_MS * Z.of_nat (polls ls' - polls ls)
  /\ ((attempts ls <= MAX_POLLING_ATTEMPTS)%nat ->
      (attempts ls' <= MAX_POLLING_ATTEMPTS)%nat).
Proof.
  cbv zeta.
  induction answers as [|answer answers IH]; intros ls.
  - simpl. destruct (attempts ls <? MAX_POLLING_ATTEMPTS)%nat; simpl;
      unfold POLLING_INTERVAL_MS; repeat split; lia.
  - simpl. destruct (attempts ls <? MAX_POLLING_ATTEMPTS)%nat eqn:E;
      [|simpl; unfold POLLING_INTERVAL_MS; repeat split; lia].
    apply Nat.ltb_lt in E.
    pose proof (IH (after_poll ls)) as IH1.
    pose proof (IH (attempts_incr (after_poll ls))) as IH2.
    unfold POLLING_INTERVAL_MS, MAX_POLLING_ATTEMPTS in *.
    assert (Hstop : forall c : Completion,
      let ls' := snd (c, after_poll ls) in
      (attempts ls <= attempts ls')%nat /\ (polls ls <= polls ls')%nat
      /\ (polls ls' - polls ls <= S (List.length answers))%nat
      /\ (attempts ls' - attempts ls <= polls ls' - polls ls)%nat
      /\ slept ls' - slept ls = 2000 * Z.of_nat (polls ls' - polls ls)
      /\ ((attempts ls <= 30)%nat -> (attempts ls' <= 30)%nat)).
    { intros c. simpl. unfold POLLING_INTERVAL_MS. repeat split; lia. }
    simpl in IH1, IH2. unfold POLLING_INTERVAL_MS in IH1, IH2.
    destruct answer as [reason|[] [job|]]; try apply Hstop.
    + destruct (jr_status job); destruct (jr_result job) as [result|];
        try apply Hstop; try (repeat split; lia).
      destruct (processRealData URL_hostname pf url result); apply Hstop.
    + repeat split; lia.
    + repeat split; lia.
Qed.

(** The outcome of the loop does not depend on the two counters. *)
Lemma poll_loop_counters answers : forall ls ls',
  attempts ls = attempts ls' ->
  fst (loop ls answers) = fst (loop ls' answers).
Proof.
  induction answers as [|answer answers IH]; intros ls ls' E.
  - simpl. rewrite E. now destruct (attempts ls' <? MAX_POLLING_ATTEMPTS)%nat.
  - simpl. rewrite E.
    destruct (attempts ls' <? MAX_POLLING_ATTEMPTS)%nat; [|reflexivity].
    destruct answer as [reason|[] [job|]]; simpl; try reflexivity;
      try (apply IH; simpl; exact E).
    destruct (jr_status job); destruct (jr_result job) as [result|];
      try reflexivity; try (apply IH; simpl; now rewrite E).
    now destruct (processRealData URL_hostname pf url result).
Qed.

(** Responses that are not [ok] can be left out of the account. *)
Lemma poll_loop_heeded answers : forall ls,
  fst (loop ls (List.filter heeded answers)) = fst (loop ls answers).
Proof.
  induction answers as [|answer answers IH]; intros ls; [reflexivity|].
  destruct answer as [reason|[] job].
  - simpl. now destruct (attempts ls <? MAX_POLLING_ATTEMPTS)%nat.
  - change (List.filter heeded (PollResponds true job :: answers))
      with (PollResponds true job :: List.filter heeded answers).
    simpl. destruct (attempts ls <? MAX_POLLING_ATTEMPTS)%nat; [|reflexivity].
    destruct job as [job|]; [|reflexivity].
    destruct (jr_status job); destruct (jr_result job) as [result|];
      try reflexivity; apply IH.
  - change (List.filter heeded (PollResponds false job :: answers))
      with (List.filter heeded answers).
    rewrite IH. simpl.
    destruct (attempts ls <? MAX_POLLING_ATTEMPTS)%nat eqn:E.
    + apply poll_loop_counters. reflexivity.
    + destruct answers; simpl; now rewrite E.
Qed.

(** Enough heeded answers end the loop. *)
Lemma poll_loop_ends answers : forall ls,
  (MAX_POLLING_ATTEMPTS
   <= attempts ls + List.length (List.filter heeded answers))%nat ->
  fst (loop ls answers) <> Suspended.
Proof.
  induction answers as [|answer answers IH]; intros ls H.
  - simpl in *. assert (E : (attempts ls <? MAX_POLLING_ATTEMPTS)%nat = false)
      by (apply Nat.ltb_ge; lia).
    now rewrite E.
  - simpl. destruct (attempts ls <? MAX_POLLING_ATTEMPTS)%nat eqn:E;
      [|discriminate].
    destruct answer as [reason|[] [job|]]; simpl in *; try discriminate.
    + destruct (jr_status job); destruct (jr_result job) as [result|];
        try discriminate; try (apply IH; simpl; lia).
      now destruct (processRealData URL_hostname pf url result).
    + apply IH. simpl. lia.
    + apply IH. simpl. lia.
Qed.

(** Where a real audit comes from. *)
Lemma poll_loop_normal answers : forall ls audit,
  fst (loop ls answers) = Normal audit ->
  exists job result,
    In (PollResponds true (Some job)) answers
    /\ jr_status job = COMPLETED /\ jr_result job = Some result
    /\ processRealData URL_hostname pf url result = inr audit.
Proof.
  induction answers as [|answer answers IH]; intros ls audit.
  - simpl. destruct (attempts ls <? MAX_POLLING_ATTEMPTS)%nat; discriminate.
  - simpl. destruct (attempts ls <? MAX_POLLING_ATTEMPTS)%nat; [|discriminate].
    assert (Hrest : forall ls',
      fst (loop ls' answers) = Normal audit ->
      exists job result,
        (answer = PollResponds true (Some job)
         \/ In (PollResponds true (Some job)) answers)
        /\ jr_status job = COMPLETED /\ jr_result job = Some result
        /\ processRealData URL_hostname pf url result = inr audit).
    { intros ls' H. destruct (IH _ _ H) as (job & result & Hin & Hrest).
      exists job, result. split; [now right | exact Hrest]. }
    destruct answer as [reason|[] [job|]]; simpl; try discriminate;
      try apply Hrest.
    destruct (jr_status job) eqn:Es; destruct (jr_result job) as [result|] eqn:Er;
      try discriminate; try apply Hrest.
    destruct (processRealData URL_hostname pf url result) eqn:Ep;
      [discriminate|].
    simpl. intros [= <-]. exists job, result. auto.
Qed.

End Loop.

(** X12.  The account of the polling loop, however it ends and whatever
    the answers: it has slept 2000 ms for each status request it sent, it
    has sent no more requests than it got answers, it has counted no more
    attempts than requests, and never more than 30. *)
Theorem poll_loop_account (URL_hostname : string -> option string)
    (pf : Platform) (url : string) (answers : list PollAnswer) :
  let ls := snd (poll_loop URL_hostname pf url loop_start answers) in
  slept ls = 2000 * Z.of_nat (polls ls)
  /\ (polls ls <= List.length answers)%nat
  /\ (attempts ls <= polls ls)%nat
  /\ (attempts ls <= 30)%nat.
Proof.
  pose proof (poll_loop_accounting URL_hostname pf url answers loop_start) as H.
  cbv zeta in *. unfold POLLING_INTERVAL_MS, MAX_POLLING_ATTEMPTS in H.
  simpl in H. destruct H as (_ & _ & H1 & H2 & H3 & H4).
  repeat split; lia.
Qed.

(** X13.  Responses that are not [ok] do not change what [crawlWebsite]
    gives: the promise is the one it would be had those answers never come
    (they cost their 2000 ms of sleep each and nothing else). *)
Theorem crawlWebsite_ignores_not_ok (URL_hostname : string -> option string)
    (pf : Platform) (url : string) (submit : SubmitAnswer)
    (answers : list PollAnswer) :
  crawlWebsite URL_hostname pf url submit (List.filter heeded answers)
  = crawlWebsite URL_hostname pf url submit answers.
Proof.
  unfold crawlWebsite, try_block.
  destruct submit as [reason|[] statusText [jobId|]]; try reflexivity.
  now rewrite poll_loop_heeded.
Qed.

(** X14.  [crawlWebsite] settles, with an audit, as soon as 30 of the
    answers to its status requests are anything but a response that is not
    [ok], whatever the submission met and whatever those answers say. *)
Theorem crawlWebsite_settles (URL_hostname : string -> option string)
    (pf : Platform) (url : string) (submit : SubmitAnswer)
    (answers : list PollAnswer) :
  (30 <= List.length (List.filter heeded answers))%nat ->
  exists audit delay,
    crawlWebsite URL_hostname pf url submit answers = Fulfilled audit delay.
Proof.
  intros H. unfold crawlWebsite.
  assert (Hend : fst (try_block URL_hostname pf url submit answers) <> Suspended).
  { unfold try_block.
    destruct submit as [reason|[] statusText [jobId|]]; try discriminate.
    apply poll_loop_ends. simpl. exact H. }
  destruct (fst (try_block URL_hostname pf url submit answers));
    [eauto | eauto | contradiction].
Qed.

Lemma crawlWebsite_settles_witness :
  exists audit delay,
    crawlWebsite sample_hostname sample_platform "https://example.com"
      (SubmitResponds true "Accepted" (Some "id"))
      (repeat (PollResponds true None) 30 ++ repeat not_ok 5)
    = Fulfilled audit delay.
Proof.
  apply crawlWebsite_settles. vm_compute. lia.
Defined.

(** X15.  Where the audits of [crawlWebsite] come from: an audit delivered
    without delay is [processRealData] of the result of a job that some
    status answer reported COMPLETED, after an accepted submission; every
    other audit is the simulated one, delivered from the 2000 ms timer. *)
Theorem crawlWebsite_fulfilled_cases (URL_hostname : string -> option string)
    (pf : Platform) (url : string) (submit : SubmitAnswer)
    (answers : list PollAnswer) (audit : WebsiteAudit) (delay : Z) :
  crawlWebsite URL_hostname pf url submit answers = Fulfilled audit delay ->
  (delay = 2000 /\ audit = generateMockAudit URL_hostname pf url)
  \/ (delay = 0
      /\ (exists statusText jobId,
            submit = SubmitResponds true statusText (Some jobId))
      /\ exists job result,
           In (PollResponds true (Some job)) answers
           /\ jr_status job = COMPLETED /\ jr_result job = Some result
           /\ processRealData URL_hostname pf url result = inr audit).
Proof.
  unfold crawlWebsite.
  destruct (fst (try_block URL_hostname pf url submit answers)) as [a|e|] eqn:E;
    [|intros [= <- <-]; now left|discriminate].
  intros [= <- <-]. right. split; [reflexivity|].
  unfold try_block in E.
  destruct submit as [reason|[] statusText [jobId|]]; try discriminate.
  split; [eauto|]. eapply poll_loop_normal. exact E.
Qed.

Lemma crawlWebsite_fulfilled_cases_witness :
  let job := {| jr_id := "id"; jr_status := COMPLETED;
                jr_result := Some sample_data; jr_error := None |} in
  let answers := [not_ok; PollResponds true (Some job)] in
  exists audit,
    crawlWebsite sample_hostname sample_platform "https://example.com"
      (SubmitResponds true "Accepted" (Some "id")) answers
    = Fulfilled audit 0
    /\ ((0 = 2000
         /\ audit = generateMockAudit sample_hostname sample_platform
                      "https://example.com")
        \/ (0 = 0
            /\ (exists statusText jobId,
                  SubmitResponds true "Accepted" (Some "id")
                  = SubmitResponds true statusText (Some jobId))
            /\ exists job' result,
                 In (PollResponds true (Some job')) answers
                 /\ jr_status job' = COMPLETED /\ jr_result job' = Some result
                 /\ processRealData sample_hostname sample_platform
                      "https://example.com" result = inr audit)).
Proof.
  cbv zeta. eexists. split; [reflexivity|].
  apply (crawlWebsite_fulfilled_cases sample_hostname sample_platform
           "https://example.com" (SubmitResponds true "Accepted" (Some "id"))).
  reflexivity.
Defined.

End AssemblerMore.

(* ===================================================================== *)
(** ** More facts about the job engine *)
(* ===================================================================== *)

Module JobEngineMore.
Import JobEngine.

(** *** What a turn of the worker changes *)

Lemma settle_shape job s now st jobId u :
  workers st !! job
  = Some {| w_jobId := jobId; w_url := u; w_pc := InBrowserSession |} ->
  exists f pc',
    (forall x, id (f x) = id x /\ url (f x) = url x
               /\ submittedAt (f x) = submittedAt x
               /\ startedAt (f x) = startedAt x
               /\ completedAt (f x) = Some now
               /\ terminal (status (f x)) = true)
    /\ pc' <> InBrowserSession
    /\ heap (processJob_settle job s now st) = alter f job (heap st)
    /\ workers (processJob_settle job s now st)
       = <[job := {| w_jobId := jobId; w_url := u; w_pc := pc' |}]> (workers st)
    /\ (jobStore (processJob_settle job s now st) = jobStore st
        \/ jobStore (processJob_settle job s now st)
           = <[jobId := job]> (jobStore st)).
Proof.
  intros Hw. unfold processJob_settle. rewrite Hw.
  destruct (session_outcome s); destruct (browser_launched s);
    refine (ex_intro _ _ (ex_intro _ _
              (conj _ (conj _ (conj eq_refl (conj eq_refl _))))));
    first [ discriminate
          | intros x; repeat split; reflexivity
          | simpl; auto ].
Qed.

Lemma finish_shape job closed st jobId u :
  workers st !! job
  = Some {| w_jobId := jobId; w_url := u; w_pc := InBrowserClose |} ->
  heap (processJob_finish job closed st) = heap st
  /\ workers (processJob_finish job closed st)
     = <[job := {| w_jobId := jobId; w_url := u; w_pc := Returned |}]> (workers st)
  /\ (jobStore (processJob_finish job closed st) = jobStore st
      \/ jobStore (processJob_finish job closed st)
         = <[jobId := job]> (jobStore st)).
Proof.
  intros Hw. unfold processJob_finish. rewrite Hw. simpl.
  destruct closed; auto.
Qed.

Lemma cleanup_entry_kept now st jobId job :
  jobStore (cleanup now st) !! jobId = Some job ->
  jobStore st !! jobId = Some job.
Proof.
  rewrite JobEngineFacts.cleanup_lookup.
  destruct (jobStore st !! jobId) as [r|]; [|discriminate].
  destruct (swept now (heap st) r); [discriminate | trivial].
Qed.

(** *** Store, workers and records hang together *)

Lemma step_linked st e : linked st -> linked (step st e).
Proof.
  intros [Hstore Hwork].
  assert (Halloc : forall job w, workers st !! job = Some w ->
                                 (job < List.length (heap st))%nat).
  { intros job w Hw. destruct (Hwork job w Hw) as (j & Hj & _).
    now apply lookup_lt_Some in Hj. }
  destruct e as [u uuid submitted started| |job0 s now|job0 closed|now];
    simpl.
  - destruct (falsy_url u) eqn:Hf.
    { unfold post_jobs. rewrite Hf. now split. }
    destruct u as [u|]; [|discriminate]. simpl in Hf.
    apply Nat.eqb_neq in Hf.
    rewrite JobEngineFacts.post_jobs_state by exact Hf. split; simpl.
    + intros jobId job. rewrite insert_insert_eq.
      destruct (decide (jobId = uuid)) as [-> | Hne].
      * rewrite lookup_insert_eq. intros [= <-].
        rewrite lookup_insert_eq. eauto.
      * rewrite lookup_insert_ne by congruence. intros Hs.
        destruct (Hstore _ _ Hs) as (w & Hw & Hid).
        pose proof (Halloc _ _ Hw).
        rewrite lookup_insert_ne by lia. eauto.
    + intros job w.
      destruct (decide (job = List.length (heap st))) as [-> | Hne].
      * rewrite lookup_insert_eq. intros [= <-].
        rewrite JobEngineFacts.new_object_lookup. eexists.
        split; [reflexivity|]. split; reflexivity.
      * rewrite lookup_insert_ne by congruence.
        rewrite JobEngineFacts.old_object_lookup by exact Hne. apply Hwork.
  - now split.
  - destruct (workers st !! job0) as [[jobId u []]|] eqn:Hw;
      try (unfold processJob_settle; rewrite Hw; now split).
    destruct (settle_shape job0 s now st jobId u Hw)
      as (f & pc' & Hf & _ & Hheap & Hworkers & Hstore').
    destruct (Hwork _ _ Hw) as (j0 & Hj0 & Hid0 & Hurl0). simpl in Hid0, Hurl0.
    split.
    + intros k job Hk. rewrite Hworkers.
      assert (Hold : jobStore st !! k = Some job ->
                     exists w, <[job0 := {| w_jobId := jobId; w_url := u;
                                             w_pc := pc' |}]> (workers st) !! job
                               = Some w /\ w_jobId w = k).
      { intros Hs. destruct (Hstore _ _ Hs) as (w & Hw' & Hid).
        destruct (decide (job = job0)) as [-> | Hne].
        - rewrite lookup_insert_eq. rewrite Hw in Hw'.
          injection Hw' as <-. eauto.
        - rewrite lookup_insert_ne by congruence. eauto. }
      destruct Hstore' as [E | E]; rewrite E in Hk; [now apply Hold|].
      destruct (decide (k = jobId)) as [-> | Hne].
      * rewrite lookup_insert_eq in Hk. injection Hk as <-.
        rewrite lookup_insert_eq. eauto.
      * rewrite lookup_insert_ne in Hk by congruence. now apply Hold.
    + intros job w. rewrite Hworkers, Hheap.
      destruct (decide (job = job0)) as [-> | Hne].
      * rewrite lookup_insert_eq. intros [= <-].
        rewrite list_lookup_alter_eq, Hj0. simpl.
        destruct (Hf j0) as (Hi & Hu & _).
        eexists. split; [reflexivity|]. split; congruence.
      * rewrite lookup_insert_ne by congruence.
        rewrite list_lookup_alter_ne by congruence. apply Hwork.
  - destruct (workers st !! job0) as [[jobId u []]|] eqn:Hw;
      try (unfold processJob_finish; rewrite Hw; now split).
    destruct (finish_shape job0 closed st jobId u Hw)
      as (Hheap & Hworkers & Hstore').
    destruct (Hwork _ _ Hw) as (j0 & Hj0 & Hid0 & Hurl0). simpl in Hid0, Hurl0.
    split.
    + intros k job Hk. rewrite Hworkers.
      assert (Hold : jobStore st !! k = Some job ->
                     exists w, <[job0 := {| w_jobId := jobId; w_url := u;
                                             w_pc := Returned |}]> (workers st) !! job
                               = Some w /\ w_jobId w = k).
      { intros Hs. destruct (Hstore _ _ Hs) as (w & Hw' & Hid).
        destruct (decide (job = job0)) as [-> | Hne].
        - rewrite lookup_insert_eq. rewrite Hw in Hw'.
          injection Hw' as <-. eauto.
        - rewrite lookup_insert_ne by congruence. eauto. }
      destruct Hstore' as [E | E]; rewrite E in Hk; [now apply Hold|].
      destruct (decide (k = jobId)) as [-> | Hne].
      * rewrite lookup_insert_eq in Hk. injection Hk as <-.
        rewrite lookup_insert_eq. eauto.
      * rewrite lookup_insert_ne in Hk by congruence. now apply Hold.
    + intros job w. rewrite Hworkers, Hheap.
      destruct (decide (job = job0)) as [-> | Hne].
      * rewrite lookup_insert_eq. intros [= <-]. eauto.
      * rewrite lookup_insert_ne by congruence. apply Hwork.
  - split.
    + intros k job Hk. apply cleanup_entry_kept in Hk. now apply Hstore.
    + exact Hwork.
Qed.

Lemma foldl_step_linked events : forall st,
  linked st -> linked (foldl step st events).
Proof.
  induction events as [|e events IH]; intros st Hst; [exact Hst|].
  simpl. apply IH, step_linked, Hst.
Qed.

Lemma run_linked events : linked (run events).
Proof.
  apply foldl_step_linked. split.
  - intros jobId job H. simpl in H. now rewrite lookup_empty in H.
  - intros job w H. simpl in H. now rewrite lookup_empty in H.
Qed.

(** X16.  In every state the server reaches, the status endpoint answers
    a request for an id that is in the store with the record that was
    created under that id: the [id] of the record served is the id asked
    for, and no entry of the store is without its record. *)
Theorem get_job_serves_the_job_asked_for (events : list Event) (jobId : string) :
  (forall j, get_job jobId (run events) = Ok j -> id j = jobId)
  /\ (forall job, jobStore (run events) !! jobId = Some job ->
                  exists j, get_job jobId (run events) = Ok j)
  /\ (jobStore (run events) !! jobId = None ->
      get_job jobId (run events) = NotFound "Job not found").
Proof.
  destruct (run_linked events) as [Hstore Hwork]. split; [|split].
  - intros j Hget.
    destruct (JobEngineFacts.get_job_lookup _ _ _ Hget) as (job & Hs & Hj).
    destruct (Hstore _ _ Hs) as (w & Hw & <-).
    destruct (Hwork _ _ Hw) as (j' & Hj' & Hid & _). congruence.
  - intros job Hs. destruct (Hstore _ _ Hs) as (w & Hw & _).
    destruct (Hwork _ _ Hw) as (j & Hj & _).
    exists j. unfold get_job. now rewrite Hs, Hj.
  - intros Hs. unfold get_job. now rewrite Hs.
Qed.

Lemma get_job_serves_the_job_asked_for_witness :
  exists j, get_job sample_uuid (run (sample_run 1000 1001 1800)) = Ok j
            /\ id j = sample_uuid.
Proof.
  destruct (get_job_serves_the_job_asked_for (sample_run 1000 1001 1800)
              sample_uuid) as (Hid & _).
  eexists. split; [reflexivity|]. apply Hid. reflexivity.
Defined.

(** *** Records once written *)

(** X17.  A turn of the server never changes the [id], the [url], the
    submission time or the start time of a record that exists, and leaves
    a record that is COMPLETED or FAILED exactly as it is: result, error
    and completion time are written once. *)
Theorem records_are_frozen (events : list Event) (e : Event) (job : ref)
    (j j' : Job) :
  heap (run events) !! job = Some j ->
  heap (step (run events) e) !! job = Some j' ->
  id j' = id j /\ url j' = url j /\ submittedAt j' = submittedAt j
  /\ startedAt j' = startedAt j
  /\ (terminal (status j) = true -> j' = j).
Proof.
  intros Hj Hj'. pose proof (JobEngineFacts.run_consistent events job) as Hinv.
  set (st := run events) in *.
  assert (Hsame : heap (step st e) = heap st ->
                  id j' = id j /\ url j' = url j
                  /\ submittedAt j' = submittedAt j
                  /\ startedAt j' = startedAt j
                  /\ (terminal (status j) = true -> j' = j)).
  { intros E. rewrite E in Hj'. assert (j' = j) as -> by congruence.
    repeat split; reflexivity. }
  destruct e as [u uuid submitted started| |job0 s now|job0 closed|now];
    simpl in *; try (apply Hsame; reflexivity).
  - destruct (falsy_url u) eqn:Hf.
    { apply Hsame. unfold post_jobs. now rewrite Hf. }
    destruct u as [u|]; [|discriminate]. simpl in Hf.
    apply Nat.eqb_neq in Hf.
    rewrite JobEngineFacts.post_jobs_state in Hj' by exact Hf.
    simpl in Hj'. apply lookup_lt_Some in Hj as Hlt.
    rewrite JobEngineFacts.old_object_lookup in Hj' by lia.
    assert (j' = j) as -> by congruence. repeat split; reflexivity.
  - destruct (workers st !! job0) as [[jobId u []]|] eqn:Hw;
      try (apply Hsame; unfold processJob_settle; now rewrite Hw).
    destruct (settle_shape job0 s now st jobId u Hw)
      as (f & pc' & Hf & _ & Hheap & _).
    rewrite Hheap in Hj'.
    destruct (decide (job = job0)) as [-> | Hne].
    + rewrite list_lookup_alter_eq, Hj in Hj'. simpl in Hj'.
      injection Hj' as <-. destruct (Hf j) as (H1 & H2 & H3 & H4 & _).
      unfold job_inv in Hinv. rewrite Hj, Hw in Hinv. simpl in Hinv.
      destruct Hinv as (Hs & _). rewrite Hs.
      repeat split; auto. discriminate.
    + rewrite list_lookup_alter_ne in Hj' by congruence.
      assert (j' = j) as -> by congruence. repeat split; reflexivity.
  - apply Hsame. unfold processJob_finish.
    destruct (workers st !! job0) as [[jobId u []]|]; reflexivity.
Qed.

Lemma records_are_frozen_witness :
  let events := sample_run 1000 1001 1800 in
  let e := SessionEnds 0%nat (GotoRejects "late") 9000 in
  exists j j', heap (run events) !! 0%nat = Some j
               /\ heap (step (run events) e) !! 0%nat = Some j'
               /\ status j = COMPLETED /\ j' = j.
Proof.
  cbv zeta. eexists. eexists.
  split; [reflexivity|]. split; [reflexivity|]. split; [reflexivity|].
  refine (proj2 (proj2 (proj2 (proj2
            (records_are_frozen (sample_run 1000 1001 1800)
               (SessionEnds 0%nat (GotoRejects "late") 9000) 0%nat _ _
               eq_refl eq_refl)))) eq_refl).
Defined.

(** *** Submission and status *)

(** X18.  Submitting to a server in any state it reaches: a missing or
    empty URL is answered 400 and changes nothing; any other URL is
    answered 202 with the new id and the word PENDING, and a status request
    for that id right after finds the record already PROCESSING, with the
    URL and the two times, no completion time, no result and no error.  No
    status request ever finds a record that is PENDING. *)
Theorem post_then_get (events : list Event) (u : option string)
    (uuid : string) (submitted started : Z) :
  let st := run events in
  let after := post_jobs u uuid submitted started st in
  (falsy_url u = true -> after = (st, BadRequest "URL is required"))
  /\ (forall text, u = Some text -> text <> EmptyString ->
        snd after = Accepted uuid PENDING "Job queued successfully"
        /\ get_job uuid (fst after)
           = Ok {| id := uuid; url := text; status := PROCESSING;
                   submittedAt := submitted; startedAt := Some started;
                   completedAt := None; result := None; error := None |})
  /\ (forall jobId j, get_job jobId st = Ok j -> status j <> PENDING).
Proof.
  cbv zeta. split; [|split].
  - intros Hf. unfold post_jobs. now rewrite Hf.
  - intros text -> Hne.
    assert (Hlen : String.length text <> 0%nat) by (destruct text; [congruence | discriminate]).
    split.
    + unfold post_jobs. simpl. apply Nat.eqb_neq in Hlen. now rewrite Hlen.
    + rewrite JobEngineFacts.post_jobs_state by exact Hlen.
      unfold get_job. simpl. rewrite lookup_insert_eq.
      now rewrite JobEngineFacts.new_object_lookup.
  - intros jobId j Hget.
    destruct (JobEngineFacts.get_job_lookup _ _ _ Hget) as (job & _ & Hj).
    now destruct (JobEngineFacts.consistent_faces _ _ _
                    (JobEngineFacts.run_consistent events) Hj) as (_ & _ & _ & H).
Qed.

Lemma post_then_get_witness :
  exists j,
    get_job sample_uuid
      (fst (post_jobs (Some "https://example.com") sample_uuid 1000 1001
              (run [])))
    = Ok j /\ status j = PROCESSING.
Proof.
  destruct (post_then_get [] (Some "https://example.com") sample_uuid 1000 1001)
    as (_ & H & _).
  destruct (H "https://example.com" eq_refl ltac:(discriminate)) as [_ Hget].
  eexists. split; [exact Hget | reflexivity].
Defined.

(** *** The cleanup routine, repeated *)

Lemma expired_later now now' j :
  now <= now' -> expired now j = true -> expired now' j = true.
Proof.
  intros Hle. unfold expired. destruct (completedAt j) as [t|]; [|trivial].
  intros H. apply andb_true_iff in H as [H0 H1]. apply Z.ltb_lt in H1.
  rewrite H0. simpl. apply Z.ltb_lt. lia.
Qed.

(** X19.  A pass of the cleanup routine touches neither the records nor
    the workers, only removes entries, and a second pass at the same or a
    later time leaves the store as one pass at that later time: running it
    again at once removes nothing more.  After the pass the status endpoint
    answers 404 for an entry it removed and as before for any other id. *)
Theorem cleanup_again (now now' : Z) (st : State) :
  now <= now' ->
  jobStore (cleanup now' (cleanup now st)) = jobStore (cleanup now' st)
  /\ jobStore (cleanup now (cleanup now st)) = jobStore (cleanup now st)
  /\ heap (cleanup now st) = heap st
  /\ workers (cleanup now st) = workers st
  /\ (forall jobId job, jobStore (cleanup now st) !! jobId = Some job ->
                        jobStore st !! jobId = Some job)
  /\ (forall jobId, get_job jobId (cleanup now st) = get_job jobId st
                    \/ get_job jobId (cleanup now st) = NotFound "Job not found").
Proof.
  intros Hle.
  assert (Htwice : forall a b, a <= b ->
            jobStore (cleanup b (cleanup a st)) = jobStore (cleanup b st)).
  { intros a b Hab. apply map_eq. intros jobId.
    rewrite !JobEngineFacts.cleanup_lookup.
    change (heap (cleanup a st)) with (heap st).
    destruct (jobStore st !! jobId) as [job|]; [|reflexivity].
    destruct (swept a (heap st) job) eqn:Ea; [|reflexivity].
    assert (Eb : swept b (heap st) job = true).
    { unfold swept in *. destruct (heap st !! job) as [j|]; [|discriminate].
      now apply (expired_later a b). }
    now rewrite Eb. }
  split; [now apply Htwice|]. split; [apply Htwice; lia|].
  split; [reflexivity|]. split; [reflexivity|].
  split; [apply cleanup_entry_kept|].
  intros jobId. unfold get_job. rewrite JobEngineFacts.cleanup_lookup.
  change (heap (cleanup now st)) with (heap st).
  destruct (jobStore st !! jobId) as [job|]; [|now left].
  destruct (swept now (heap st) job); [now right | now left].
Qed.

Lemma cleanup_again_witness :
  let st := run (sample_run 1000 1001 1800) in
  jobStore (cleanup 9000000 (cleanup 5000000 st)) = jobStore (cleanup 9000000 st).
Proof.
  cbv zeta.
  destruct (cleanup_again 5000000 9000000 (run (sample_run 1000 1001 1800))
              ltac:(lia)) as (H & _).
  exact H.
Defined.

(** *** Jobs in flight *)

(** A worker that moves on from where it waits keeps what [tracked]
    says. *)
Lemma tracked_worker_moves st st' issued job0 jobId u pc0 pc' :
  workers st !! job0 = Some {| w_jobId := jobId; w_url := u; w_pc := pc0 |} ->
  workers st' = <[job0 := {| w_jobId := jobId; w_url := u; w_pc := pc' |}]>
                  (workers st) ->
  pc' <> InBrowserSession ->
  (jobStore st' = jobStore st \/ jobStore st' = <[jobId := job0]> (jobStore st)) ->
  tracked st issued -> tracked st' issued.
Proof.
  intros Hw Hworkers Hpc Hstore (Hin & Hinj & Hsess & Hall).
  assert (Hid : forall job w, workers st' !! job = Some w ->
            exists w0, workers st !! job = Some w0 /\ w_jobId w0 = w_jobId w
                       /\ (job <> job0 -> w0 = w)
                       /\ (job = job0 -> w_pc w = pc')).
  { intros job w. rewrite Hworkers.
    destruct (decide (job = job0)) as [-> | Hne].
    - rewrite lookup_insert_eq. intros [= <-]. eexists.
      split; [exact Hw|]. split; [reflexivity|].
      split; [intros H; now contradiction H | intros _; reflexivity].
    - rewrite lookup_insert_ne by congruence. intros H. exists w.
      split; [exact H|]. split; [reflexivity|].
      split; [reflexivity | intros E; now contradiction Hne]. }
  split; [|split; [|split]].
  - intros job w H. destruct (Hid _ _ H) as (w0 & H0 & <- & _). eauto.
  - intros job job' w w' H H' E.
    destruct (Hid _ _ H) as (w0 & H0 & E0 & _).
    destruct (Hid _ _ H') as (w0' & H0' & E0' & _).
    apply (Hinj _ _ _ _ H0 H0'). congruence.
  - intros job w H Hsession.
    destruct (Hid _ _ H) as (w0 & H0 & E0 & Hother & Hsame).
    destruct (decide (job = job0)) as [-> | Hne].
    { rewrite (Hsame eq_refl) in Hsession. contradiction. }
    rewrite (Hother Hne) in H0.
    pose proof (Hsess _ _ H0 Hsession) as Hs.
    destruct Hstore as [-> | ->]; [exact Hs|].
    rewrite lookup_insert_ne; [exact Hs|].
    intros E. apply Hne. symmetry.
    apply (Hinj _ _ _ _ Hw H0). simpl. exact E.
  - intros x Hx. destruct (Hall _ Hx) as (job & w & H & E).
    destruct (decide (job = job0)) as [-> | Hne].
    + exists job0, {| w_jobId := jobId; w_url := u; w_pc := pc' |}.
      rewrite Hworkers, lookup_insert_eq. split; [reflexivity|].
      rewrite Hw in H. injection H as <-. exact E.
    + exists job, w. rewrite Hworkers, lookup_insert_ne by congruence. auto.
Qed.

Lemma step_tracked st e issued :
  consistent st -> linked st -> tracked st issued ->
  (forall x, In x (uuids [e]) -> ~ In x issued) ->
  tracked (step st e) (issued ++ uuids [e]).
Proof.
  intros Hcons [Hstore Hwork] Htr Hfresh.
  assert (Halloc : forall job w, workers st !! job = Some w ->
                                 (job < List.length (heap st))%nat).
  { intros job w Hw. destruct (Hwork job w Hw) as (j & Hj & _).
    now apply lookup_lt_Some in Hj. }
  destruct e as [u uuid submitted started| |job0 s now|job0 closed|now];
    simpl in *; rewrite ?app_nil_r.
  - destruct (falsy_url u) eqn:Hf.
    { unfold post_jobs. rewrite Hf. simpl. now rewrite app_nil_r. }
    destruct u as [u|]; [|discriminate]. simpl in Hf.
    apply Nat.eqb_neq in Hf. rewrite app_nil_r in Hfresh.
    rewrite JobEngineFacts.post_jobs_state by exact Hf.
    destruct Htr as (Hin & Hinj & Hsess & Hall).
    assert (Hnew : ~ In uuid issued) by (apply Hfresh; now left).
    split; [|split; [|split]]; simpl.
    + intros job w. destruct (decide (job = List.length (heap st))) as [-> | Hne].
      * rewrite lookup_insert_eq. intros [= <-]. simpl.
        apply in_or_app. right. now left.
      * rewrite lookup_insert_ne by congruence. intros H.
        apply in_or_app. left. eauto.
    + intros job job' w w'.
      destruct (decide (job = List.length (heap st))) as [-> | Hne];
        destruct (decide (job' = List.length (heap st))) as [-> | Hne'];
        rewrite ?lookup_insert_eq, ?lookup_insert_ne by congruence; auto.
      * intros [= <-] H' E. simpl in E. exfalso. apply Hnew.
        rewrite E. eauto.
      * intros H [= <-] E. simpl in E. exfalso. apply Hnew.
        rewrite <- E. eauto.
      * apply Hinj.
    + intros job w. rewrite insert_insert_eq.
      destruct (decide (job = List.length (heap st))) as [-> | Hne].
      * rewrite lookup_insert_eq. intros [= <-] _. simpl.
        now rewrite lookup_insert_eq.
      * rewrite lookup_insert_ne by congruence. intros H Hsession.
        rewrite lookup_insert_ne; [now apply Hsess|].
        intros E. apply Hnew. rewrite E. eauto.
    + intros x Hx. apply in_app_or in Hx as [Hx | [<- | []]].
      * destruct (Hall _ Hx) as (job & w & H & E).
        pose proof (Halloc _ _ H).
        exists job, w. rewrite lookup_insert_ne by lia. auto.
      * exists (List.length (heap st)),
               {| w_jobId := uuid; w_url := u; w_pc := InBrowserSession |}.
        rewrite lookup_insert_eq. split; reflexivity.
  - exact Htr.
  - destruct (workers st !! job0) as [[jobId u []]|] eqn:Hw;
      try (unfold processJob_settle; rewrite Hw; exact Htr).
    destruct (settle_shape job0 s now st jobId u Hw)
      as (f & pc' & _ & Hpc & _ & Hworkers & Hstore').
    exact (tracked_worker_moves _ _ _ _ _ _ _ _ Hw Hworkers Hpc Hstore' Htr).
  - destruct (workers st !! job0) as [[jobId u []]|] eqn:Hw;
      try (unfold processJob_finish; rewrite Hw; exact Htr).
    destruct (finish_shape job0 closed st jobId u Hw)
      as (_ & Hworkers & Hstore').
    refine (tracked_worker_moves _ _ _ _ _ _ _ _ Hw Hworkers _ Hstore' Htr).
    discriminate.
  - destruct Htr as (Hin & Hinj & Hsess & Hall).
    split; [|split; [|split]]; auto.
    intros job w H Hsession. simpl in H.
    rewrite JobEngineFacts.cleanup_lookup, (Hsess _ _ H Hsession).
    pose proof (Hcons job) as Hinv. unfold job_inv in Hinv.
    rewrite H in Hinv. unfold swept.
    destruct (heap st !! job) as [j|]; [|reflexivity].
    rewrite Hsession in Hinv. destruct Hinv as (_ & _ & _ & _ & Hc & _).
    unfold expired. now rewrite Hc.
Qed.

Lemma uuids_cons e events : uuids (e :: events) = uuids [e] ++ uuids events.
Proof. unfold uuids. simpl. now rewrite app_nil_r. Qed.

Lemma foldl_step_tracked events : forall st issued,
  consistent st -> linked st -> tracked st issued ->
  NoDup (issued ++ uuids events) ->
  tracked (foldl step st events) (issued ++ uuids events).
Proof.
  induction events as [|e events IH]; intros st issued Hc Hl Ht Hnd.
  - simpl. now rewrite app_nil_r.
  - rewrite uuids_cons in *. rewrite app_assoc in *. simpl.
    apply IH; try assumption.
    + now apply JobEngineFacts.step_consistent.
    + now apply step_linked.
    + apply step_tracked; try assumption.
      intros x Hx Hi.
      destruct (proj1 (NoDup_app _ _) Hnd) as (Hnd' & _ & _).
      destruct (proj1 (NoDup_app _ _) Hnd') as (_ & Hdis & _).
      apply (Hdis x); [apply list_elem_of_In, Hi | apply list_elem_of_In, Hx].
Qed.

(** X20.  While the process is up (no [browser.close()] has rejected
    under an activation that awaited it) and [randomUUID()] never hands
    out the same id twice, no job is lost before it is done: for every id
    handed out to an accepted submission a status request is answered
    with the record of that id, or else with 404 while the record of that
    id carries a completion time (it was swept). *)
Theorem submitted_job_is_served_until_done (events : list Event) (uuid : string) :
  survives events = true ->
  NoDup (uuids events) ->
  In uuid (uuids events) ->
  (exists j, status_request events uuid = Some (Ok j) /\ id j = uuid)
  \/ (status_request events uuid = Some (NotFound "Job not found")
      /\ exists job j, heap (run events) !! job = Some j
                       /\ id j = uuid /\ is_Some (completedAt j)
                       /\ terminal (status j) = true).
Proof.
  intros Hup Hnd Hin. unfold status_request. rewrite Hup.
  pose proof (JobEngineFacts.run_consistent events) as Hcons.
  pose proof (run_linked events) as [Hstore Hwork].
  assert (Htr : tracked (run events) ([] ++ uuids events)).
  { apply foldl_step_tracked; try exact Hnd.
    - intros job. unfold job_inv. simpl. rewrite lookup_empty.
      destruct job; reflexivity.
    - split; intros ? ? H; simpl in H; now rewrite lookup_empty in H.
    - split; [|split; [|split]].
      + intros ? ? H; simpl in H; now rewrite lookup_empty in H.
      + intros ? ? ? ? H; simpl in H; now rewrite lookup_empty in H.
      + intros ? ? H; simpl in H; now rewrite lookup_empty in H.
      + intros ? []. }
  simpl in Htr. destruct Htr as (_ & _ & Hsess & Hall).
  destruct (Hall _ Hin) as (job & w & Hw & <-).
  destruct (Hwork _ _ Hw) as (j & Hj & Hid & _).
  destruct (jobStore (run events) !! w_jobId w) as [job'|] eqn:Hs.
  - left. destruct (Hstore _ _ Hs) as (w' & Hw' & Hid').
    destruct (Hwork _ _ Hw') as (j' & Hj' & Hidj' & _).
    exists j'. unfold get_job. rewrite Hs, Hj'. split; congruence.
  - right. split; [unfold get_job; now rewrite Hs|].
    exists job, j. split; [exact Hj|]. split; [exact Hid|].
    pose proof (Hcons job) as Hinv. unfold job_inv in Hinv.
    rewrite Hj, Hw in Hinv.
    destruct (w_pc w) eqn:Hpc.
    + rewrite (Hsess _ _ Hw Hpc) in Hs. discriminate.
    + destruct Hinv as (t & Hset & _).
      pose proof (JobEngineFacts.settled_terminal _ _ Hset).
      destruct Hset as (<- & Hc & _). auto.
    + destruct Hinv as (t & Hset & _).
      pose proof (JobEngineFacts.settled_terminal _ _ Hset).
      destruct Hset as (<- & Hc & _). auto.
Qed.

Lemma submitted_job_is_served_until_done_witness :
  status_request sample_pair sample_uuid = Some (NotFound "Job not found")
  /\ (exists job j, heap (run sample_pair) !! job = Some j
                    /\ id j = sample_uuid /\ is_Some (completedAt j))
  /\ (exists j, status_request sample_pair sample_uuid' = Some (Ok j)
                /\ id j = sample_uuid' /\ status j = PROCESSING).
Proof.
  assert (Hnd : NoDup (uuids sample_pair)).
  { change (NoDup [sample_uuid; sample_uuid']).
    apply NoDup_cons. split; [|apply NoDup_singleton].
    intros H. apply list_elem_of_singleton in H. discriminate. }
  destruct (submitted_job_is_served_until_done sample_pair sample_uuid
              eq_refl Hnd ltac:(vm_compute; tauto))
    as [(j & Hj & _) | (Hnf & job & j & Hj & Hid & Hc & _)].
  { vm_compute in Hj. discriminate. }
  destruct (submitted_job_is_served_until_done sample_pair sample_uuid'
              eq_refl Hnd ltac:(vm_compute; tauto))
    as [(j' & Hj' & Hid') | (Hnf' & _)].
  2:{ vm_compute in Hnf'. discriminate. }
  split; [exact Hnf|]. split; [eauto|].
  exists j'. split; [exact Hj'|]. split; [exact Hid'|].
  vm_compute in Hj'. injection Hj' as <-. reflexivity.
Defined.

(** *** Time stamps *)

(** Every completion stamp is a reading of the clock: where the readings
    of a turn are after the epoch, so are the stamps it leaves. *)
Lemma step_after_epoch st e :
  Forall (Z.lt 0) (readings e) ->
  (forall job j, heap st !! job = Some j -> after_epoch j) ->
  forall job j, heap (step st e) !! job = Some j -> after_epoch j.
Proof.
  intros Hclock Hst.
  destruct e as [u uuid submitted started| |job0 s now|job0 closed|now];
    simpl in *.
  - destruct (falsy_url u) eqn:Hf.
    { unfold post_jobs. rewrite Hf. exact Hst. }
    destruct u as [u|]; [|discriminate]. simpl in Hf.
    apply Nat.eqb_neq in Hf.
    rewrite JobEngineFacts.post_jobs_state by exact Hf.
    intros job j. simpl.
    destruct (decide (job = List.length (heap st))) as [-> | Hne].
    + rewrite JobEngineFacts.new_object_lookup. intros [= <-] t. discriminate.
    + rewrite JobEngineFacts.old_object_lookup by exact Hne. apply Hst.
  - exact Hst.
  - destruct (workers st !! job0) as [[jobId u []]|] eqn:Hw;
      try (unfold processJob_settle; rewrite Hw; exact Hst).
    destruct (settle_shape job0 s now st jobId u Hw)
      as (f & pc' & Hf & _ & Hheap & _).
    intros job j. rewrite Hheap.
    destruct (decide (job = job0)) as [-> | Hne].
    + rewrite list_lookup_alter_eq.
      destruct (heap st !! job0) as [j0|]; [|discriminate].
      simpl. intros [= <-] t.
      destruct (Hf j0) as (_ & _ & _ & _ & Hdone & _).
      rewrite Hdone. intros [= <-]. now inversion Hclock.
    + rewrite list_lookup_alter_ne by congruence. apply Hst.
  - unfold processJob_finish.
    destruct (workers st !! job0) as [[jobId u []]|]; exact Hst.
  - exact Hst.
Qed.

(** In a run of a server whose clock reads times after the epoch, every
    record carries a completion stamp after the epoch, or none. *)
Lemma run_after_epoch (events : list Event) (job : ref) (j : Job) :
  Forall (Z.lt 0) (flat_map readings events) ->
  heap (run events) !! job = Some j -> after_epoch j.
Proof.
  unfold run.
  assert (H : forall st,
             Forall (Z.lt 0) (flat_map readings events) ->
             (forall job j, heap st !! job = Some j -> after_epoch j) ->
             forall job j, heap (foldl step st events) !! job = Some j ->
                           after_epoch j).
  { induction events as [|e events IH]; intros st Hclock Hst; [exact Hst|].
    simpl in Hclock. apply Forall_app in Hclock as [He Hrest]. simpl.
    apply IH; [exact Hrest|]. now apply step_after_epoch. }
  intros Hclock. apply H; [exact Hclock|].
  intros r x Hx. simpl in Hx. now rewrite lookup_nil in Hx.
Qed.

Lemma stamped_later st st' hi hi' :
  heap st' = heap st -> hi <= hi' -> stamped st hi -> stamped st' hi'.
Proof.
  intros E Hle H job j Hj. rewrite E in Hj.
  destruct (H job j Hj) as (Ho & H1 & H2 & H3).
  split; [exact Ho|]. split; [lia|].
  split; intros t Ht; [specialize (H2 t Ht) | specialize (H3 t Ht)]; lia.
Qed.

Lemma step_stamped st e hi rest :
  consistent st -> stamped st hi ->
  nondecreasing_from hi (readings e ++ rest) = true ->
  exists hi', stamped (step st e) hi' /\ nondecreasing_from hi' rest = true.
Proof.
  intros Hcons Hst Hclock.
  destruct e as [u uuid submitted started| |job0 s now|job0 closed|now];
    simpl in *.
  - destruct (falsy_url u) eqn:Hf.
    { exists hi. unfold post_jobs. rewrite Hf. auto. }
    destruct u as [u|]; [|discriminate]. simpl in Hf, Hclock.
    apply Nat.eqb_neq in Hf.
    apply andb_true_iff in Hclock as [H1 Hclock].
    apply andb_true_iff in Hclock as [H2 Hclock].
    apply Z.leb_le in H1, H2.
    exists started. split; [|exact Hclock].
    rewrite JobEngineFacts.post_jobs_state by exact Hf.
    intros job j. simpl.
    destruct (decide (job = List.length (heap st))) as [-> | Hne].
    + rewrite JobEngineFacts.new_object_lookup. intros [= <-]. simpl.
      unfold stamps_ordered. simpl.
      repeat split; intros; try discriminate; try lia;
        repeat match goal with H : Some _ = Some _ |- _ => injection H as <- end;
        lia.
    + rewrite JobEngineFacts.old_object_lookup by exact Hne. intros Hj.
      destruct (Hst job j Hj) as (Ho & Ha & Hb & Hc).
      split; [exact Ho|]. split; [lia|].
      split; intros t Ht; [specialize (Hb t Ht) | specialize (Hc t Ht)]; lia.
  - exists hi. auto.
  - apply andb_true_iff in Hclock as [H1 Hclock]. apply Z.leb_le in H1.
    exists now. split; [|exact Hclock].
    destruct (workers st !! job0) as [[jobId u []]|] eqn:Hw;
      try (unfold processJob_settle; rewrite Hw;
           now apply (stamped_later st st hi now)).
    destruct (settle_shape job0 s now st jobId u Hw)
      as (f & pc' & Hf & _ & Hheap & _).
    intros job j. rewrite Hheap.
    destruct (decide (job = job0)) as [-> | Hne].
    + rewrite list_lookup_alter_eq.
      destruct (heap st !! job0) as [j0|] eqn:Hj0; [|discriminate].
      simpl. intros [= <-].
      destruct (Hf j0) as (_ & _ & Hsub & Hstart & Hdone & _).
      destruct (Hst job0 j0 Hj0) as ((Ho1 & _) & Ha & Hb & _).
      unfold stamps_ordered. rewrite Hsub, Hstart, Hdone.
      split; [split; [exact Ho1|split]|split; [lia|split]].
      * intros c [= <-]. lia.
      * intros t c Ht [= <-]. specialize (Hb t Ht). lia.
      * intros t Ht. specialize (Hb t Ht). lia.
      * intros c [= <-]. lia.
    + rewrite list_lookup_alter_ne by congruence. intros Hj.
      destruct (Hst job j Hj) as (Ho & Ha & Hb & Hc).
      split; [exact Ho|]. split; [lia|].
      split; intros t Ht; [specialize (Hb t Ht) | specialize (Hc t Ht)]; lia.
  - exists hi. split; [|exact Hclock].
    apply (stamped_later st _ hi hi); [|lia|exact Hst].
    unfold processJob_finish.
    destruct (workers st !! job0) as [[jobId u []]|]; reflexivity.
  - apply andb_true_iff in Hclock as [H1 Hclock]. apply Z.leb_le in H1.
    exists now. split; [|exact Hclock].
    now apply (stamped_later st _ hi now).
Qed.

Lemma foldl_step_stamped events : forall st hi,
  consistent st -> stamped st hi ->
  nondecreasing_from hi (flat_map readings events) = true ->
  exists hi', stamped (foldl step st events) hi'.
Proof.
  induction events as [|e events IH]; intros st hi Hc Hst Hclock.
  - exists hi. exact Hst.
  - simpl in Hclock.
    destruct (step_stamped st e hi _ Hc Hst Hclock) as (hi' & Hst' & Hclock').
    simpl. apply (IH _ hi'); auto. now apply JobEngineFacts.step_consistent.
Qed.

(** X21.  While the clock of the server never runs backwards, the stamps
    of every record are in the order of its life: the submission time is
    no later than the start time, and neither is later than the completion
    time. *)
Theorem stamps_are_ordered (events : list Event) (job : ref) (j : Job) :
  clock_monotone events = true ->
  heap (run events) !! job = Some j ->
  stamps_ordered j.
Proof.
  intros Hclock Hj.
  assert (Hinit : forall hi, stamped init hi).
  { intros hi r x H. simpl in H. now rewrite lookup_nil in H. }
  assert (Hcons : consistent init).
  { intros r. unfold job_inv. simpl. rewrite lookup_empty.
    destruct r; reflexivity. }
  unfold clock_monotone in Hclock.
  destruct (flat_map readings events) as [|t l] eqn:E.
  - destruct (foldl_step_stamped events init 0 Hcons (Hinit 0)) as (hi & H).
    { now rewrite E. }
    now destruct (H job j Hj).
  - destruct (foldl_step_stamped events init t Hcons (Hinit t)) as (hi & H).
    { rewrite E. simpl. rewrite Hclock. now rewrite Z.leb_refl. }
    now destruct (H job j Hj).
Qed.

Lemma stamps_are_ordered_witness :
  exists j, heap (run (sample_run 1000 1001 1800)) !! 0%nat = Some j
            /\ submittedAt j = 1000 /\ startedAt j = Some 1001
            /\ completedAt j = Some 1800 /\ stamps_ordered j.
Proof.
  eexists. split; [reflexivity|]. do 3 (split; [reflexivity|]).
  apply (stamps_are_ordered (sample_run 1000 1001 1800) 0%nat);
    reflexivity.
Defined.

End JobEngineMore.

(* ===================================================================== *)
(** ** The server and the client together *)
(* ===================================================================== *)

Module EndToEnd.
Import JobEngine.

(** X22.  What the client makes of the record the status endpoint serves:
    for a COMPLETED record [processRealData] does not throw on the served
    result and [crawlWebsite] delivers that audit at once, whatever answers
    would follow; for a FAILED record it delivers the simulated audit from
    its 2000 ms timer. *)
Theorem served_record_at_the_client (events : list Event) (jobId : string)
    (j : Job) (URL_hostname : string -> option string) (pf : Scoring.Platform)
    (u statusText : string) (rest : list Assembler.PollAnswer) :
  get_job jobId (run events) = Ok j ->
  let submit := Assembler.SubmitResponds true statusText (Some jobId) in
  let answers := Wire.poll jobId (run events) :: rest in
  (status j = COMPLETED ->
   exists data audit,
     result j = Some data
     /\ Scoring.processRealData URL_hostname pf u (Wire.to_payload data)
        = inr audit
     /\ Assembler.crawlWebsite URL_hostname pf u submit answers
        = Assembler.Fulfilled audit 0)
  /\ (status j = FAILED ->
      Assembler.crawlWebsite URL_hostname pf u submit answers
      = Assembler.Fulfilled (Scoring.generateMockAudit URL_hostname pf u) 2000).
Proof.
  intros Hget. cbv zeta.
  destruct (JobEngineFacts.get_job_lookup _ _ _ Hget) as (job & _ & Hj).
  destruct (JobEngineFacts.consistent_faces _ _ _
              (JobEngineFacts.run_consistent events) Hj) as (_ & Hc & Hf & _).
  unfold Wire.poll. rewrite Hget.
  unfold Assembler.crawlWebsite. simpl. split.
  - intros Hs. destruct (Hc Hs) as [[data Hr] _].
    rewrite Hs, Hr. simpl.
    exists data. eexists. split; [reflexivity|].
    unfold Scoring.processRealData. simpl. split; reflexivity.
  - intros Hs. rewrite Hs. reflexivity.
Qed.

Lemma served_record_at_the_client_witness :
  exists audit,
    Assembler.crawlWebsite Scoring.sample_hostname Scoring.sample_platform
      "https://example.com"
      (Assembler.SubmitResponds true "Accepted" (Some sample_uuid))
      [Wire.poll sample_uuid (run (sample_run 1000 1001 1800))]
    = Assembler.Fulfilled audit 0.
Proof.
  destruct (served_record_at_the_client (sample_run 1000 1001 1800)
              sample_uuid _ Scoring.sample_hostname Scoring.sample_platform
              "https://example.com" "Accepted" [] eq_refl) as [H _].
  destruct (H eq_refl) as (data & audit & _ & _ & Hcrawl).
  exists audit. exact Hcrawl.
Defined.

(** X23.  A client that polls for an id the server does not have in its
    store (never issued, swept, or lost with a restart) is answered 404
    every time, and its [crawlWebsite] is still unsettled after any number
    of such answers. *)
Theorem unknown_job_never_settles (st : State) (jobId : string)
    (URL_hostname : string -> option string) (pf : Scoring.Platform)
    (u statusText : string) (n : nat) :
  jobStore st !! jobId = None ->
  Wire.poll jobId st = Assembler.not_ok
  /\ Assembler.crawlWebsite URL_hostname pf u
       (Assembler.SubmitResponds true statusText (Some jobId))
       (repeat (Wire.poll jobId st) n)
     = Assembler.Unsettled.
Proof.
  intros Hs.
  assert (Hpoll : Wire.poll jobId st = Assembler.not_ok).
  { unfold Wire.poll, get_job. now rewrite Hs. }
  split; [exact Hpoll|]. rewrite Hpoll.
  unfold Assembler.crawlWebsite. simpl Assembler.try_block.
  rewrite AssemblerFacts.poll_loop_not_ok_from
    by (unfold Assembler.MAX_POLLING_ATTEMPTS; simpl; lia).
  reflexivity.
Qed.

Lemma unknown_job_never_settles_witness :
  Assembler.crawlWebsite Scoring.sample_hostname Scoring.sample_platform
    "https://example.com"
    (Assembler.SubmitResponds true "Accepted" (Some sample_uuid))
    (repeat (Wire.poll sample_uuid init) 40)
  = Assembler.Unsettled.
Proof.
  apply (unknown_job_never_settles init sample_uuid). reflexivity.
Defined.

End EndToEnd.

(* ===================================================================== *)
(** ** Facts about the Phase 1 handler, the colours and the application *)
(* ===================================================================== *)

Module FrontFacts.

(** X24.  The Phase 1 handler sends at most one request, to the URL it was
    given, and sends it exactly when that URL is present, not empty and
    parses; it answers with success only for an [ok] response of the page,
    carrying that response's status and the parse of its text, and mirrors
    the status of any other response. *)
Theorem api_crawl_cases (URL_hostname : string -> option string) {Data}
    (parseHtml : string -> Data) (u : option string)
    (answer : CrawlBFF.FetchAnswer) :
  let out := CrawlBFF.api_crawl URL_hostname parseHtml u answer in
  (fst out = []
   \/ exists text, u = Some text /\ fst out = [CrawlBFF.Fetch text])
  /\ (fst out <> []
      <-> exists text, u = Some text /\ text <> EmptyString
                       /\ is_Some (URL_hostname text))
  /\ (forall url status data,
        snd out = CrawlBFF.Success url status data ->
        u = Some url
        /\ exists statusText html,
             answer = CrawlBFF.FetchResponds true status statusText html
             /\ data = parseHtml html)
  /\ (forall status error,
        snd out = CrawlBFF.Upstream status error ->
        exists statusText html,
          answer = CrawlBFF.FetchResponds false status statusText html).
Proof.
  cbv zeta. unfold CrawlBFF.api_crawl.
  destruct u as [text|].
  2:{ simpl. split; [now left|]. split; [|split; discriminate].
      split; [congruence | intros (t & H & _); discriminate]. }
  destruct text as [|c text].
  { simpl. split; [now left|]. split; [|split; discriminate].
    split; [congruence | intros (t & [= <-] & H & _); congruence]. }
  change (String.length (String c text) =? 0)%nat with false. cbv iota.
  destruct (URL_hostname (String c text)) as [host|] eqn:Eh.
  - assert (Hfetch : fst (match answer with
        | CrawlBFF.FetchRejects message =>
          ([CrawlBFF.Fetch (String c text)], CrawlBFF.ServerError message)
        | CrawlBFF.FetchResponds true status _ html =>
          ([CrawlBFF.Fetch (String c text)],
           CrawlBFF.Success (String c text) status (parseHtml html))
        | CrawlBFF.FetchResponds false status statusText _ =>
          ([CrawlBFF.Fetch (String c text)],
           CrawlBFF.Upstream status ("Failed to fetch page: " +:+ statusText))
        end) = [CrawlBFF.Fetch (String c text)]).
    { destruct answer as [m|[] st stt html]; reflexivity. }
    rewrite Hfetch. split; [right; eauto|]. split.
    + split; [|discriminate]. intros _. exists (String c text).
      split; [reflexivity|]. split; [discriminate|]. rewrite Eh. eauto.
    + split.
      * intros url status data.
        destruct answer as [m|[] st stt html]; simpl; try discriminate.
        intros [= <- <- <-]. split; [reflexivity|]. eauto.
      * intros status error.
        destruct answer as [m|[] st stt html]; simpl; try discriminate.
        intros [= <- _]. eauto.
  - simpl. split; [now left|]. split; [|split; discriminate].
    split; [congruence|]. intros (t & [= <-] & _ & [host Hh]). congruence.
Qed.

(** Reflection of the two comparisons on numbers. *)
Lemma ge_spec (a b : Q) : Theme.ge a b = true <-> (b <= a)%Q.
Proof. unfold Theme.ge. apply Qle_bool_iff. Qed.

Lemma ge_false (a b : Q) : Theme.ge a b = false <-> (a < b)%Q.
Proof.
  unfold Theme.ge. split.
  - intros H. apply Qnot_le_lt. intros Hle.
    apply Qle_bool_iff in Hle. congruence.
  - intros H. destruct (Qle_bool b a) eqn:E; [|reflexivity].
    apply Qle_bool_iff in E. exfalso. exact (Qlt_not_le _ _ H E).
Qed.

Lemma gt_spec (a b : Q) : JS.gt a b = true <-> (b < a)%Q.
Proof.
  unfold JS.gt. rewrite negb_true_iff. exact (ge_false b a).
Qed.

Lemma gt_false (a b : Q) : JS.gt a b = false <-> (a <= b)%Q.
Proof.
  unfold JS.gt. rewrite negb_false_iff. exact (ge_spec b a).
Qed.

(** X25.  [getScoreColor] and [getScoreBg] always name the same band:
    success from 90 up, danger below 60, warning between. *)
Theorem getScoreColor_getScoreBg_same_band (score : Q) :
  exists b : Theme.Band,
    Theme.getScoreColor score
    = "text-nexus-" +:+ Theme.band_name b
      +:+ " border-nexus-" +:+ Theme.band_name b
    /\ Theme.getScoreBg score = "bg-nexus-" +:+ Theme.band_name b
    /\ (b = Theme.Success <-> (90 <= score)%Q)
    /\ (b = Theme.Danger <-> (score < 60)%Q).
Proof.
  unfold Theme.getScoreColor, Theme.getScoreBg.
  destruct (Theme.ge score 90) eqn:E90.
  - apply ge_spec in E90. exists Theme.Success.
    split; [reflexivity|]. split; [reflexivity|]. split.
    + tauto.
    + split; [discriminate | intros H; lra].
  - apply ge_false in E90. destruct (Theme.ge score 60) eqn:E60.
    + apply ge_spec in E60. exists Theme.Warning.
      split; [reflexivity|]. split; [reflexivity|].
      split; (split; [discriminate | intros H; lra]).
    + apply ge_false in E60. exists Theme.Danger.
      split; [reflexivity|]. split; [reflexivity|]. split.
      * split; [discriminate | intros H; lra].
      * tauto.
Qed.

(** X26.  The gauge draws its thresholds elsewhere (above 50, above 85):
    it shows its top colour for a score [getScoreBg] does not call a
    success exactly for scores strictly between 85 and 90, and leaves its
    bottom colour for a score [getScoreBg] calls a danger exactly for
    scores strictly between 50 and 60. *)
Theorem ScoreGauge_color_out_of_step (score : Q) :
  (Theme.ScoreGauge_color score = "stroke-emerald-500"
   /\ Theme.getScoreBg score <> "bg-nexus-success"
   <-> (85 < score)%Q /\ (score < 90)%Q)
  /\ (Theme.ScoreGauge_color score <> "stroke-rose-500"
      /\ Theme.getScoreBg score = "bg-nexus-danger"
      <-> (50 < score)%Q /\ (score < 60)%Q).
Proof.
  unfold Theme.ScoreGauge_color, Theme.getScoreBg. cbv zeta.
  destruct (JS.gt score 85) eqn:G85;
    [apply gt_spec in G85 | apply gt_false in G85];
  (destruct (JS.gt score 50) eqn:G50;
    [apply gt_spec in G50 | apply gt_false in G50]);
  (destruct (Theme.ge score 90) eqn:E90;
    [apply ge_spec in E90 | apply ge_false in E90]);
  (destruct (Theme.ge score 60) eqn:E60;
    [apply ge_spec in E60 | apply ge_false in E60]);
  try (exfalso; lra);
  (split;
   (split;
    [ intros [H1 H2];
      first [ discriminate H1 | discriminate H2
            | exfalso; apply H1; reflexivity
            | exfalso; apply H2; reflexivity
            | split; lra ]
    | intros [H1 H2];
      first [ exfalso; lra
            | split; [reflexivity | discriminate]
            | split; [discriminate | reflexivity] ] ])).
Qed.

(** X27.  [generateAuditInsights] never rejects.  It is pending exactly
    while a call made with a key has not settled; whatever it delivers
    other than the canned answer is the parse of a non-empty text the API
    returned to a call made with a key. *)
Theorem generateAuditInsights_cases (apiKey : string)
    (JSON_parse : string -> option Gemini.Insights)
    (auditData : Scoring.WebsiteAudit) (answer : option Gemini.ApiAnswer) :
  let out := Gemini.generateAuditInsights apiKey JSON_parse auditData answer in
  (forall error, out <> Gemini.Rejected error)
  /\ (out = Gemini.Unsettled <-> apiKey <> EmptyString /\ answer = None)
  /\ (forall v, out = Gemini.Fulfilled v -> v <> Gemini.getMockAiResponse ->
        apiKey <> EmptyString
        /\ exists text, answer = Some (Gemini.ApiResponds (Some text))
                        /\ text <> EmptyString
                        /\ JSON_parse text = Some v).
Proof.
  cbv zeta. unfold Gemini.generateAuditInsights.
  destruct apiKey as [|k key].
  { simpl. split; [discriminate|]. split.
    - split; [discriminate | intros [H _]; congruence].
    - intros v [= <-] H. congruence. }
  change (String.length (String k key) =? 0)%nat with false. cbv iota.
  destruct answer as [[m|[text|]]|].
  - split; [discriminate|]. split.
    + split; [discriminate | intros [_ H]; discriminate].
    + intros v [= <-] H. congruence.
  - destruct text as [|c text].
    { simpl. split; [discriminate|]. split.
      - split; [discriminate | intros [_ H]; discriminate].
      - intros v [= <-] H. congruence. }
    change (String.length (String c text) =? 0)%nat with false. cbv iota.
    destruct (JSON_parse (String c text)) as [insights|] eqn:Ep.
    + split; [discriminate|]. split.
      * split; [discriminate | intros [_ H]; discriminate].
      * intros v [= <-] _. split; [discriminate|].
        exists (String c text). split; [reflexivity|].
        split; [discriminate | exact Ep].
    + split; [discriminate|]. split.
      * split; [discriminate | intros [_ H]; discriminate].
      * intros v [= <-] H. congruence.
  - split; [discriminate|]. split.
    + split; [discriminate | intros [_ H]; discriminate].
    + intros v [= <-] H. congruence.
  - split; [discriminate|]. split.
    + split; [intros _; split; [discriminate | reflexivity] | reflexivity].
    + discriminate.
Qed.

(** [crawlWebsite] never rejects: its [catch] resolves. *)
Lemma crawlWebsite_not_rejected (URL_hostname : string -> option string)
    (pf : Scoring.Platform) (u : string) (submit : Assembler.SubmitAnswer)
    (answers : list Assembler.PollAnswer) (error : string) :
  Assembler.crawlWebsite URL_hostname pf u submit answers
  <> Assembler.Rejected error.
Proof.
  unfold Assembler.crawlWebsite.
  destruct (fst (Assembler.try_block URL_hostname pf u submit answers));
    discriminate.
Qed.

(** [generateAuditInsights] never rejects: its [catch] returns. *)
Lemma generateAuditInsights_not_rejected (apiKey : string)
    (JSON_parse : string -> option Gemini.Insights)
    (auditData : Scoring.WebsiteAudit) (answer : option Gemini.ApiAnswer)
    (error : string) :
  Gemini.generateAuditInsights apiKey JSON_parse auditData answer
  <> Gemini.Rejected error.
Proof.
  unfold Gemini.generateAuditInsights.
  destruct (String.length apiKey =? 0)%nat; [discriminate|].
  destruct answer as [[m|[text|]]|]; try discriminate.
  destruct (String.length text =? 0)%nat; [discriminate|].
  destruct (JSON_parse text); discriminate.
Qed.

(** X28.  The audit form wired to the two services as the application
    wires it never shows the error state for a URL that was typed in.  It
    ends COMPLETE exactly when both services have delivered, and then at
    100 per cent with the crawl's audit and the insights stored together;
    while the crawl is pending it stays at CRAWLING and 10 per cent with
    nothing stored. *)
Theorem handleStartAudit_never_errors (URL_hostname : string -> option string)
    (pf : Scoring.Platform) (apiKey : string)
    (JSON_parse : string -> option Gemini.Insights)
    (ui : App.UI) (submit : Assembler.SubmitAnswer)
    (answers : list Assembler.PollAnswer) (answer : option Gemini.ApiAnswer) :
  App.url ui <> EmptyString ->
  let crawl :=
    Assembler.crawlWebsite URL_hostname pf (App.url ui) submit answers in
  let ai audit :=
    Gemini.generateAuditInsights apiKey JSON_parse audit answer in
  let ui' := App.handleStartAudit ui crawl ai in
  App.status ui' <> App.ERROR
  /\ App.url ui' = App.url ui
  /\ App.activeTab ui' = "dashboard"
  /\ (App.status ui' = App.COMPLETE
      <-> exists audit delay insights,
            crawl = Assembler.Fulfilled audit delay
            /\ ai audit = Gemini.Fulfilled insights
            /\ App.progress ui' = 100
            /\ App.auditData ui'
               = Some {| App.crawlResult := audit;
                         App.insights := insights |})
  /\ (crawl = Assembler.Unsettled ->
      App.status ui' = App.CRAWLING /\ App.progress ui' = 10
      /\ App.auditData ui' = None).
Proof.
  intros Hurl. cbv zeta. unfold App.handleStartAudit.
  destruct (App.url ui) as [|c text] eqn:Eu; [congruence|].
  change (String.length (String c text) =? 0)%nat with false. cbv iota.
  pose proof (crawlWebsite_not_rejected URL_hostname pf (String c text)
                submit answers) as Hcrawl.
  destruct (Assembler.crawlWebsite URL_hostname pf (String c text)
              submit answers) as [audit delay|error|] eqn:Ec.
  - pose proof (generateAuditInsights_not_rejected apiKey JSON_parse audit
                  answer) as Hai.
    destruct (Gemini.generateAuditInsights apiKey JSON_parse audit answer)
      as [insights|error|] eqn:Ea.
    + simpl. split; [discriminate|]. split; [reflexivity|].
      split; [reflexivity|]. split; [|discriminate].
      split; [|reflexivity]. intros _. exists audit, delay, insights.
      rewrite Ea. repeat split.
    + exfalso. exact (Hai error eq_refl).
    + simpl. split; [discriminate|]. split; [reflexivity|].
      split; [reflexivity|]. split; [|discriminate].
      split; [discriminate|].
      intros (a & d & i & [= <- <-] & H & _). congruence.
  - exfalso. exact (Hcrawl error eq_refl).
  - simpl. split; [discriminate|]. split; [reflexivity|].
    split; [reflexivity|]. split.
    + split; [discriminate | intros (a & d & i & H & _); discriminate].
    + intros _. repeat split.
Qed.

Lemma handleStartAudit_never_errors_witness :
  App.status
    (App.handleStartAudit App.sample_ui
       (Assembler.crawlWebsite Scoring.sample_hostname Scoring.sample_platform
          (App.url App.sample_ui) (Assembler.SubmitRejects "Failed to fetch")
          [])
       (fun audit =>
          Gemini.generateAuditInsights EmptyString (fun _ => None) audit None))
  <> App.ERROR.
Proof.
  apply (handleStartAudit_never_errors Scoring.sample_hostname
           Scoring.sample_platform EmptyString (fun _ => None) App.sample_ui
           (Assembler.SubmitRejects "Failed to fetch") [] None).
  discriminate.
Defined.

End FrontFacts.
